(** * Long-Distance Protocol: the phase orchestrator of [valentine/main.js]

    A shallow embedding of the script's event handlers and timer callbacks.
    The page is single threaded: every handler runs to completion on one
    event loop, registering later work with [setTimeout] and
    [requestAnimationFrame].  Handlers are functions on a [State] (DOM
    attributes, script variables, the callbacks registered during the
    current turn); the event loop [step] delivers timers in due order and
    user events in between.

    Numbers that the script computes in floating point (the eased counter,
    the dodge offset) are modelled with exact rationals; pixel drawing of
    the starfield and the configuration calls of the globe renderer are
    abstracted to the facts the script itself depends on. *)

From Stdlib Require Import ZArith QArith Qround Qminmax Qabs.
From Stdlib Require Import List String Ascii Bool Lia Lqa Arith DecimalString.
Import ListNotations.

Local Open Scope Z_scope.

(** ** Constants *)

Definition DISTANCE_MILES : Z := 3084.
Definition ARC_FLIGHT_TIME : Z := 7000.
Definition ARRIVING_THRESHOLD : Q := 75 # 100.
Definition CE_DISPLAY_TIME : Z := 2500.
Definition TYPEWRITER_SPEED : Z := 25.

Definition retryMessages : list string :=
  [ "Error: Connection refused."%string;
    "Error: Timeout exceeded."%string;
    "Rerouting to Accept..."%string ].

(** ** The document *)

(** Elements the script holds a reference to. *)
Inductive Elem :=
| Body | Landing | GlobePhase | LetterPhase | BtnBegin
| StatusOverlay | ConnectionEstablished | StatLatency | StatPacket
| BtnAccept | BtnRetry | RetryError | AcceptedState | Countdown
| GlobeLoading | TheAsk | TerminalLine (i : nat).

Inductive Class :=
| Active | Visible | Show | RomanticPhase | StatusArriving | StatusDelivered
| Shake | DodgeClass | Hiding.

Inductive StyleProp :=
| PointerEvents | Opacity | Transition | Display | Overflow | Transform.

(** An inline style value: a literal, or the [translate(Xpx, Ypx)] that the
    dodge writes. *)
Inductive StyleVal :=
| Css (v : string)
| Translate (x y : Q).

(** [textContent]: a literal, or a number printed with [toLocaleString]. *)
Inductive Content :=
| Text (s : string)
| LocaleNumber (n : Z).

Inductive ClassOp :=
| Added (e : Elem) (c : Class)
| Removed (e : Elem) (c : Class).

Scheme Equality for Elem.
Scheme Equality for Class.
Scheme Equality for StyleProp.

(** Callbacks handed to [setTimeout] ([setInterval] for [CountdownTick]). *)
Inductive Task :=
| ShowLine (i : nat) | ShowBegin
| ActivateGlobe | AddRomantic | ActivateLetter
| WaitForGlobe | FadeLoading | HideLoading | StartArc
| MarkArriving | MarkDelivered | ShowEstablished | ResolveArc
| TypeNextParagraph | TypeChar (i : nat) | FadeCursor
| CountdownTick
| Burst2 | Burst3 | Burst4 | AcceptDone
| ShakeOff | Dodge | ClearFinal | ClearError.

Scheme Equality for Task.

(** Callbacks handed to [requestAnimationFrame]. *)
Inductive Frame :=
| Draw
| LatencyUpdate (start : Z).

Definition is_draw (f : Frame) : bool :=
  match f with Draw => true | _ => false end.

(** *** The typewriter target *)

Inductive Node :=
| TextNode (s : string)
| CursorNode.

Record Para := { nodes : list Node; displayNone : bool }.

Definition nodeText (n : Node) : string :=
  match n with TextNode s => s | CursorNode => EmptyString end.

(** [p.textContent]; for a paragraph of plain text it is also what
    [p.innerText] returns. *)
Definition textContent (p : Para) : string :=
  String.concat EmptyString (map nodeText (nodes p)).

Definition innerText (p : Para) : string := textContent p.

(** The typewriter's part of the document and the variables its closures
    share.  [texts] has one entry per captured paragraph, so
    [paragraphs.length] is [length texts]. *)
Record Typewriter := {
  target : option (list Para);
  texts : list string;
  pIndex : nat;
  charIndex : nat;
  cursor : option bool  (* [Some faded] once the span exists *)
}.

(** ** State *)

Record State := {
  (* document *)
  classes : Elem -> Class -> bool;
  style : Elem -> StyleProp -> StyleVal;
  text : Elem -> Content;
  tw : Typewriter;
  particles : nat;
  (* collaborators *)
  globeLoaded : bool;
  globeBuilt : bool;
  arcStarted : bool;
  confettiCalls : list nat;
  console : list string;
  innerWidth : Z;
  (* script variables *)
  retryCount : nat;
  waitAttempts : nat;
  settled : bool;
  frameCount : nat;
  (* registered during the current turn *)
  outbox : list (Z * Task);
  frames : list Frame;
  (* every classList call, oldest first *)
  classLog : list ClassOp
}.

(** What the page provides and the script only reads. *)
Record Page := {
  lineDelays : list (option Z);     (* [data-delay] of each terminal line *)
  hasCanvas : bool;
  hasLoading : bool;
  hasConfetti : bool;
  epoch : Z;                        (* wall clock, in ms, at time 0 *)
  markupText : Elem -> Content;
  markupTarget : option (list Para);
  viewportWidth : Z;
  globeAtLoad : bool
}.

(** *** Field updates *)

Definition set_dom (cl : Elem -> Class -> bool) (lg : list ClassOp) (s : State) : State :=
  {| classes := cl; style := style s; text := text s; tw := tw s;
     particles := particles s; globeLoaded := globeLoaded s;
     globeBuilt := globeBuilt s; arcStarted := arcStarted s;
     confettiCalls := confettiCalls s; console := console s;
     innerWidth := innerWidth s; retryCount := retryCount s;
     waitAttempts := waitAttempts s; settled := settled s;
     frameCount := frameCount s; outbox := outbox s; frames := frames s;
     classLog := lg |}.

Definition set_style (v : Elem -> StyleProp -> StyleVal) (s : State) : State :=
  {| classes := classes s; style := v; text := text s; tw := tw s;
     particles := particles s; globeLoaded := globeLoaded s;
     globeBuilt := globeBuilt s; arcStarted := arcStarted s;
     confettiCalls := confettiCalls s; console := console s;
     innerWidth := innerWidth s; retryCount := retryCount s;
     waitAttempts := waitAttempts s; settled := settled s;
     frameCount := frameCount s; outbox := outbox s; frames := frames s;
     classLog := classLog s |}.

Definition set_text (v : Elem -> Content) (s : State) : State :=
  {| classes := classes s; style := style s; text := v; tw := tw s;
     particles := particles s; globeLoaded := globeLoaded s;
     globeBuilt := globeBuilt s; arcStarted := arcStarted s;
     confettiCalls := confettiCalls s; console := console s;
     innerWidth := innerWidth s; retryCount := retryCount s;
     waitAttempts := waitAttempts s; settled := settled s;
     frameCount := frameCount s; outbox := outbox s; frames := frames s;
     classLog := classLog s |}.

Definition set_tw (v : Typewriter) (s : State) : State :=
  {| classes := classes s; style := style s; text := text s; tw := v;
     particles := particles s; globeLoaded := globeLoaded s;
     globeBuilt := globeBuilt s; arcStarted := arcStarted s;
     confettiCalls := confettiCalls s; console := console s;
     innerWidth := innerWidth s; retryCount := retryCount s;
     waitAttempts := waitAttempts s; settled := settled s;
     frameCount := frameCount s; outbox := outbox s; frames := frames s;
     classLog := classLog s |}.

Definition set_particles (v : nat) (s : State) : State :=
  {| classes := classes s; style := style s; text := text s; tw := tw s;
     particles := v; globeLoaded := globeLoaded s;
     globeBuilt := globeBuilt s; arcStarted := arcStarted s;
     confettiCalls := confettiCalls s; console := console s;
     innerWidth := innerWidth s; retryCount := retryCount s;
     waitAttempts := waitAttempts s; settled := settled s;
     frameCount := frameCount s; outbox := outbox s; frames := frames s;
     classLog := classLog s |}.

Definition set_globeLoaded (v : bool) (s : State) : State :=
  {| classes := classes s; style := style s; text := text s; tw := tw s;
     particles := particles s; globeLoaded := v;
     globeBuilt := globeBuilt s; arcStarted := arcStarted s;
     confettiCalls := confettiCalls s; console := console s;
     innerWidth := innerWidth s; retryCount := retryCount s;
     waitAttempts := waitAttempts s; settled := settled s;
     frameCount := frameCount s; outbox := outbox s; frames := frames s;
     classLog := classLog s |}.

Definition set_globeBuilt (v : bool) (s : State) : State :=
  {| classes := classes s; style := style s; text := text s; tw := tw s;
     particles := particles s; globeLoaded := globeLoaded s;
     globeBuilt := v; arcStarted := arcStarted s;
     confettiCalls := confettiCalls s; console := console s;
     innerWidth := innerWidth s; retryCount := retryCount s;
     waitAttempts := waitAttempts s; settled := settled s;
     frameCount := frameCount s; outbox := outbox s; frames := frames s;
     classLog := classLog s |}.

Definition set_arcStarted (v : bool) (s : State) : State :=
  {| classes := classes s; style := style s; text := text s; tw := tw s;
     particles := particles s; globeLoaded := globeLoaded s;
     globeBuilt := globeBuilt s; arcStarted := v;
     confettiCalls := confettiCalls s; console := console s;
     innerWidth := innerWidth s; retryCount := retryCount s;
     waitAttempts := waitAttempts s; settled := settled s;
     frameCount := frameCount s; outbox := outbox s; frames := frames s;
     classLog := classLog s |}.

Definition set_confettiCalls (v : list nat) (s : State) : State :=
  {| classes := classes s; style := style s; text := text s; tw := tw s;
     particles := particles s; globeLoaded := globeLoaded s;
     globeBuilt := globeBuilt s; arcStarted := arcStarted s;
     confettiCalls := v; console := console s;
     innerWidth := innerWidth s; retryCount := retryCount s;
     waitAttempts := waitAttempts s; settled := settled s;
     frameCount := frameCount s; outbox := outbox s; frames := frames s;
     classLog := classLog s |}.

Definition set_console (v : list string) (s : State) : State :=
  {| classes := classes s; style := style s; text := text s; tw := tw s;
     particles := particles s; globeLoaded := globeLoaded s;
     globeBuilt := globeBuilt s; arcStarted := arcStarted s;
     confettiCalls := confettiCalls s; console := v;
     innerWidth := innerWidth s; retryCount := retryCount s;
     waitAttempts := waitAttempts s; settled := settled s;
     frameCount := frameCount s; outbox := outbox s; frames := frames s;
     classLog := classLog s |}.

Definition set_innerWidth (v : Z) (s : State) : State :=
  {| classes := classes s; style := style s; text := text s; tw := tw s;
     particles := particles s; globeLoaded := globeLoaded s;
     globeBuilt := globeBuilt s; arcStarted := arcStarted s;
     confettiCalls := confettiCalls s; console := console s;
     innerWidth := v; retryCount := retryCount s;
     waitAttempts := waitAttempts s; settled := settled s;
     frameCount := frameCount s; outbox := outbox s; frames := frames s;
     classLog := classLog s |}.

Definition set_retryCount (v : nat) (s : State) : State :=
  {| classes := classes s; style := style s; text := text s; tw := tw s;
     particles := particles s; globeLoaded := globeLoaded s;
     globeBuilt := globeBuilt s; arcStarted := arcStarted s;
     confettiCalls := confettiCalls s; console := console s;
     innerWidth := innerWidth s; retryCount := v;
     waitAttempts := waitAttempts s; settled := settled s;
     frameCount := frameCount s; outbox := outbox s; frames := frames s;
     classLog := classLog s |}.

Definition set_waitAttempts (v : nat) (s : State) : State :=
  {| classes := classes s; style := style s; text := text s; tw := tw s;
     particles := particles s; globeLoaded := globeLoaded s;
     globeBuilt := globeBuilt s; arcStarted := arcStarted s;
     confettiCalls := confettiCalls s; console := console s;
     innerWidth := innerWidth s; retryCount := retryCount s;
     waitAttempts := v; settled := settled s;
     frameCount := frameCount s; outbox := outbox s; frames := frames s;
     classLog := classLog s |}.

Definition set_settled (v : bool) (s : State) : State :=
  {| classes := classes s; style := style s; text := text s; tw := tw s;
     particles := particles s; globeLoaded := globeLoaded s;
     globeBuilt := globeBuilt s; arcStarted := arcStarted s;
     confettiCalls := confettiCalls s; console := console s;
     innerWidth := innerWidth s; retryCount := retryCount s;
     waitAttempts := waitAttempts s; settled := v;
     frameCount := frameCount s; outbox := outbox s; frames := frames s;
     classLog := classLog s |}.

Definition set_frameCount (v : nat) (s : State) : State :=
  {| classes := classes s; style := style s; text := text s; tw := tw s;
     particles := particles s; globeLoaded := globeLoaded s;
     globeBuilt := globeBuilt s; arcStarted := arcStarted s;
     confettiCalls := confettiCalls s; console := console s;
     innerWidth := innerWidth s; retryCount := retryCount s;
     waitAttempts := waitAttempts s; settled := settled s;
     frameCount := v; outbox := outbox s; frames := frames s;
     classLog := classLog s |}.

Definition set_outbox (v : list (Z * Task)) (s : State) : State :=
  {| classes := classes s; style := style s; text := text s; tw := tw s;
     particles := particles s; globeLoaded := globeLoaded s;
     globeBuilt := globeBuilt s; arcStarted := arcStarted s;
     confettiCalls := confettiCalls s; console := console s;
     innerWidth := innerWidth s; retryCount := retryCount s;
     waitAttempts := waitAttempts s; settled := settled s;
     frameCount := frameCount s; outbox := v; frames := frames s;
     classLog := classLog s |}.

Definition set_frames (v : list Frame) (s : State) : State :=
  {| classes := classes s; style := style s; text := text s; tw := tw s;
     particles := particles s; globeLoaded := globeLoaded s;
     globeBuilt := globeBuilt s; arcStarted := arcStarted s;
     confettiCalls := confettiCalls s; console := console s;
     innerWidth := innerWidth s; retryCount := retryCount s;
     waitAttempts := waitAttempts s; settled := settled s;
     frameCount := frameCount s; outbox := outbox s; frames := v;
     classLog := classLog s |}.

(** *** Browser interface used by the script *)

Definition classAdd (e : Elem) (c : Class) (s : State) : State :=
  set_dom (fun e' c' => if Elem_beq e e' && Class_beq c c' then true else classes s e' c')
          (classLog s ++ [Added e c]) s.

Definition classRemove (e : Elem) (c : Class) (s : State) : State :=
  set_dom (fun e' c' => if Elem_beq e e' && Class_beq c c' then false else classes s e' c')
          (classLog s ++ [Removed e c]) s.

Definition setStyle (e : Elem) (p : StyleProp) (v : StyleVal) (s : State) : State :=
  set_style (fun e' p' => if Elem_beq e e' && StyleProp_beq p p' then v else style s e' p') s.

Definition setText (e : Elem) (v : Content) (s : State) : State :=
  set_text (fun e' => if Elem_beq e e' then v else text s e') s.

Definition setTimeout (t : Task) (delay : Z) (s : State) : State :=
  set_outbox (outbox s ++ [(delay, t)]) s.

Definition requestAnimationFrame (f : Frame) (s : State) : State :=
  set_frames (frames s ++ [f]) s.

(** [cancelAnimationFrame(animId)]: [animId] always names the pending
    [draw] request. *)
Definition cancelDraw (s : State) : State :=
  set_frames (filter (fun f => negb (is_draw f)) (frames s)) s.

Definition consoleWarn (m : string) (s : State) : State :=
  set_console (console s ++ [m]) s.

Definition css (v : string) : StyleVal := Css v.

Notation "s |> f" := (f s) (at level 45, left associativity, only parsing).

(** ** Pure computations *)

(** *** The eased latency counter ([animateLatencyCounter]) *)

Local Open Scope Q_scope.

(** [Math.round]: nearest integer, halves upwards. *)
Definition jsRound (x : Q) : Z := Qfloor (x + (1 # 2)).

Definition countDuration : Q := inject_Z ARC_FLIGHT_TIME * (8 # 10).

Definition progressAt (start now : Q) : Q :=
  Qmin ((now - start) / countDuration) 1.

Definition easeOutCubic (p : Q) : Q := 1 - (1 - p) ^ 3.

Definition latencyValue (start now : Q) : Z :=
  jsRound (easeOutCubic (progressAt start now) * inject_Z DISTANCE_MILES).

(** The formula of the specification, on a progress already clamped to
    the unit interval. *)
Definition clampUnit (p : Q) : Q := Qmax 0 (Qmin p 1).

Definition specCounter (elapsed : Q) : Z :=
  jsRound ((1 - (1 - clampUnit (elapsed / countDuration)) ^ 3) * inject_Z DISTANCE_MILES).

(** *** The dodge offset ([handleRetry], second click) *)

Definition dodgeMaxX (width : Z) : Q := Qmin 60 (inject_Z width * (1 # 10)).

Definition dodgeOffset (width : Z) (r1 r2 : Q) : Q * Q :=
  ((r1 - (1 # 2)) * dodgeMaxX width * 2, - (20) - r2 * 30).

Local Close Scope Q_scope.

(** *** The countdown text ([startCountdown], [update]) *)

Local Open Scope string_scope.

(** [String(n)] and the interpolation of a non-negative integer. *)
Definition jsString (n : Z) : string := NilZero.string_of_uint (N.to_uint (Z.to_N n)).

Fixpoint zeros (n : nat) : string :=
  match n with
  | O => ""
  | S k => String "0" (zeros k)
  end.

(** [s.padStart(len, '0')] *)
Definition padStart (len : nat) (s : string) : string :=
  zeros (len - String.length s) ++ s.

(** [a % b] of JavaScript truncates towards zero. *)
Definition jsRem (a b : Z) : Z := Z.rem a b.

(** [Math.floor(a / b)] on integers, [b] positive. *)
Definition floorDiv (a b : Z) : Z := a / b.

Definition countdownDays (diff : Z) : Z := floorDiv diff (1000 * 60 * 60 * 24).
Definition countdownHours (diff : Z) : Z :=
  floorDiv (jsRem diff (1000 * 60 * 60 * 24)) (1000 * 60 * 60).
Definition countdownMinutes (diff : Z) : Z :=
  floorDiv (jsRem diff (1000 * 60 * 60)) (1000 * 60).
Definition countdownSeconds (diff : Z) : Z :=
  floorDiv (jsRem diff (1000 * 60)) 1000.

Definition completionMessage : string := "Happy Valentine's Day".

Definition countdownParts (diff : Z) : list string :=
  (if (0 <? countdownDays diff)%Z then [jsString (countdownDays diff) ++ "d"] else [])
  ++ [ padStart 2 (jsString (countdownHours diff)) ++ "h";
       padStart 2 (jsString (countdownMinutes diff)) ++ "m";
       padStart 2 (jsString (countdownSeconds diff)) ++ "s" ].

Definition countdownText (diff : Z) : string :=
  if (diff <=? 0)%Z then completionMessage
  else "// Valentine's Day in " ++ String.concat " " (countdownParts diff).

(** [new Date('2026-02-14T00:00:00-05:00')], in ms since the Unix epoch. *)
Definition valentineDate : Z := 1771045200000.

Local Close Scope string_scope.

(** ** The typewriter ([startTypewriter]) *)

Fixpoint update_nth {A : Type} (i : nat) (f : A -> A) (l : list A) : list A :=
  match l, i with
  | [], _ => []
  | x :: r, O => f x :: r
  | x :: r, S k => x :: update_nth k f r
  end.

Definition blankPara : Para := {| nodes := []; displayNone := true |}.

Definition showPara (p : Para) : Para :=
  {| nodes := nodes p; displayNone := false |}.

Definition is_cursor (n : Node) : bool :=
  match n with CursorNode => true | TextNode _ => false end.

Definition detachCursor (p : Para) : Para :=
  {| nodes := filter (fun n => negb (is_cursor n)) (nodes p);
     displayNone := displayNone p |}.

(** [p.appendChild(cursor)]: the one cursor span leaves its former parent
    and becomes the last child of paragraph [i]. *)
Definition appendCursor (i : nat) (ps : list Para) : list Para :=
  update_nth i
    (fun p => {| nodes := nodes p ++ [CursorNode]; displayNone := displayNone p |})
    (map detachCursor ps).

(** [p.insertBefore(node, cursor)]; [None] when the cursor is not a child
    of [p] (the DOM raises NotFoundError). *)
Fixpoint insertBeforeCursor (n : Node) (l : list Node) : option (list Node) :=
  match l with
  | [] => None
  | CursorNode :: r => Some (n :: CursorNode :: r)
  | x :: r => option_map (cons x) (insertBeforeCursor n r)
  end.

Definition TwResult : Type := Typewriter * list (Z * Task).

Definition startTypewriter (t : Typewriter) : TwResult :=
  match target t with
  | None => (t, [])
  | Some [] => (t, [])
  | Some ps =>
      ({| target := Some (map (fun _ => blankPara) ps);
          texts := map innerText ps;
          pIndex := 0; charIndex := 0;
          cursor := Some false |},
       [(1800, TypeNextParagraph)])
  end.

(** [typeChar] as closed over paragraph [i]; [next] is the enclosing
    [typeNextParagraph].  An exception ends the callback where it is
    raised, before anything was changed. *)
Definition typeChar (next : Typewriter -> TwResult) (i : nat) (t : Typewriter) : TwResult :=
  let fullText := nth i (texts t) EmptyString in
  if (charIndex t <? String.length fullText)%nat then
    match String.get (charIndex t) fullText, target t with
    | Some c, Some ps =>
        match nth_error ps i with
        | Some p =>
            match insertBeforeCursor (TextNode (String c EmptyString)) (nodes p) with
            | Some ns =>
                ({| target := Some (update_nth i
                       (fun p => {| nodes := ns; displayNone := displayNone p |}) ps);
                    texts := texts t; pIndex := pIndex t;
                    charIndex := S (charIndex t); cursor := cursor t |},
                 [(TYPEWRITER_SPEED, TypeChar i)])
            | None => (t, [])
            end
        | None => (t, [])
        end
    | _, _ => (t, [])
    end
  else
    let t' := {| target := target t; texts := texts t; pIndex := S (pIndex t);
                 charIndex := charIndex t; cursor := cursor t |} in
    if (pIndex t' <? List.length (texts t'))%nat
    then (t', [(400, TypeNextParagraph)])
    else next t'.

(** [typeNextParagraph] and [typeChar] call each other; [typeChar] calls
    back only after [pIndex] has reached the end, where the callee takes
    its first branch, so one level of nesting is all that can happen. *)
Fixpoint typeNextParagraphAt (depth : nat) (t : Typewriter) : TwResult :=
  if (List.length (texts t) <=? pIndex t)%nat then (t, [(1500, FadeCursor)])
  else
    match depth with
    | O => (t, [])
    | S d =>
        let i := pIndex t in
        typeChar (typeNextParagraphAt d) i
          {| target := option_map (fun ps => appendCursor i (update_nth i showPara ps)) (target t);
             texts := texts t; pIndex := i; charIndex := 0; cursor := cursor t |}
    end.

Definition typeNextParagraph : Typewriter -> TwResult := typeNextParagraphAt 1.

Definition fadeCursor (t : Typewriter) : TwResult :=
  ({| target := target t; texts := texts t; pIndex := pIndex t;
      charIndex := charIndex t; cursor := option_map (fun _ => true) (cursor t) |}, []).

(** The typewriter callbacks. *)
Definition twCallback (k : Task) (t : Typewriter) : TwResult :=
  match k with
  | TypeNextParagraph => typeNextParagraph t
  | TypeChar i => typeChar typeNextParagraph i t
  | FadeCursor => fadeCursor t
  | _ => (t, [])
  end.

Definition liftTw (h : Typewriter -> TwResult) (s : State) : State :=
  let r := h (tw s) in
  set_outbox (outbox s ++ snd r) (set_tw (fst r) s).

(** ** Handlers *)

Section Handlers.

Variable pg : Page.

(** *** Phase 1: landing *)

(** Only the animation loop of [initStarfield] is kept: [draw] counts a
    frame and asks for the next one. *)
Definition initStarfield (s : State) : State :=
  if hasCanvas pg then requestAnimationFrame Draw s else s.

Definition draw (s : State) : State :=
  s |> set_frameCount (S (frameCount s)) |> requestAnimationFrame Draw.

(** [x || y] on the result of [parseInt] ([None] is NaN). *)
Definition orElse (x : option Z) (y : Z) : Z :=
  match x with
  | Some v => if v =? 0 then y else v
  | None => y
  end.

Fixpoint animateLines (i : nat) (ds : list (option Z)) (s : State) : State :=
  match ds with
  | [] => s
  | d :: r =>
      animateLines (S i) r
        (setTimeout (ShowLine i) (orElse d (Z.of_nat i * 600)) s)
  end.

Definition totalDelay (ds : list (option Z)) : Z :=
  fold_left (fun m d => Z.max m (orElse d 0)) ds 0.

Definition animateTerminal (s : State) : State :=
  s |> animateLines 0 (lineDelays pg)
    |> setTimeout ShowBegin (totalDelay (lineDelays pg) + 800).

(** *** Phase transitions *)

Definition transitionToGlobe (s : State) : State :=
  s |> classRemove Landing Active
    |> setTimeout ActivateGlobe 400.

Definition transitionToLetter (s : State) : State :=
  s |> classRemove GlobePhase Active
    |> setTimeout AddRomantic 600
    |> setTimeout ActivateLetter 1200.

(** *** Phase 2: the globe *)

(** [resolve()] of the promise that the begin handler awaits.  A promise
    settles once; the handler's continuation, [transitionToLetter], runs
    as soon as the callback that settled it returns. *)
Definition resolve (s : State) : State :=
  if settled s then s else transitionToLetter (set_settled true s).

Definition giveUpWarning : string :=
  "Globe.gl failed to load. Skipping to letter.".

Definition buildGlobe (s : State) : State :=
  s |> set_globeBuilt true
    |> setTimeout FadeLoading 800
    |> setTimeout StartArc 1500.

Definition waitForGlobe (s : State) : State :=
  if globeLoaded s then buildGlobe s
  else if (waitAttempts s <? 50)%nat then
    s |> set_waitAttempts (S (waitAttempts s))
      |> setTimeout WaitForGlobe 200
  else
    let s1 := consoleWarn giveUpWarning s in
    let s2 := if hasLoading pg
              then setStyle GlobeLoading Display (css "none") s1 else s1 in
    resolve s2.

(** [new Promise(...)]: a fresh promise and a fresh [waitAttempts]. *)
Definition initGlobe (s : State) : State :=
  s |> set_settled false |> set_waitAttempts 0 |> waitForGlobe.

Definition fadeLoading (s : State) : State :=
  if hasLoading pg then
    s |> setStyle GlobeLoading Transition (css "opacity 0.5s ease")
      |> setStyle GlobeLoading Opacity (css "0")
      |> setTimeout HideLoading 500
  else s.

Definition animateLatencyCounter (now : Z) (s : State) : State :=
  requestAnimationFrame (LatencyUpdate now) s.

(** [update(now)] of [animateLatencyCounter]. *)
Definition latencyUpdate (start now : Z) (s : State) : State :=
  let s1 := setText StatLatency
              (LocaleNumber (latencyValue (inject_Z start) (inject_Z now))) s in
  if Qlt_le_dec (progressAt (inject_Z start) (inject_Z now)) 1
  then requestAnimationFrame (LatencyUpdate start) s1
  else s1.

Definition scheduleStatusUpdates (s : State) : State :=
  s |> setTimeout MarkArriving (Qfloor (inject_Z ARC_FLIGHT_TIME * ARRIVING_THRESHOLD))
    |> setTimeout MarkDelivered ARC_FLIGHT_TIME
    |> setTimeout ShowEstablished (ARC_FLIGHT_TIME + 800)
    |> setTimeout ResolveArc (ARC_FLIGHT_TIME + 800 + CE_DISPLAY_TIME).

Definition startArc (now : Z) (s : State) : State :=
  s |> set_arcStarted true
    |> classAdd StatusOverlay Visible
    |> animateLatencyCounter now
    |> scheduleStatusUpdates.

(** *** Phase 5: the letter *)

Definition createAmbientParticles (s : State) : State :=
  set_particles (particles s + 25)%nat s.

Definition countdownUpdate (now : Z) (s : State) : State :=
  setText Countdown (Text (countdownText (valentineDate - (epoch pg + now)))) s.

Definition startCountdown (now : Z) (s : State) : State :=
  s |> countdownUpdate now |> setTimeout CountdownTick 1000.

Definition activateLetter (now : Z) (s : State) : State :=
  s |> classAdd LetterPhase Active
    |> setStyle Body Overflow (css "auto")
    |> createAmbientParticles
    |> liftTw startTypewriter
    |> startCountdown now.

(** *** Phase 6: accept and retry *)

Inductive Outcome :=
| Returned (s : State)
| Threw.

(** A call of the global [confetti]; it is a ReferenceError when the
    library is not on the page. *)
Definition confetti (burst : nat) (s : State) : Outcome :=
  if hasConfetti pg
  then Returned (set_confettiCalls (confettiCalls s ++ [burst]) s)
  else Threw.

Definition andThen (o : Outcome) (k : State -> Outcome) : Outcome :=
  match o with
  | Returned s => k s
  | Threw => Threw
  end.

Definition handleAccept (s : State) : Outcome :=
  andThen
    (if hasConfetti pg   (* typeof confetti === 'function' *)
     then andThen (confetti 1 s) (fun s1 =>
            Returned (s1 |> setTimeout Burst2 200
                         |> setTimeout Burst3 400
                         |> setTimeout Burst4 600))
     else Returned s)
    (fun s2 =>
       Returned (s2 |> setStyle TheAsk Transition (css "opacity 0.8s ease")
                    |> setStyle TheAsk Opacity (css "0")
                    |> setTimeout AcceptDone 800)).

Definition acceptDone (s : State) : State :=
  s |> setStyle TheAsk Display (css "none")
    |> classAdd AcceptedState Visible.

(** An exception that nobody catches ends the callback. *)
Definition finish (s : State) (o : Outcome) : State :=
  match o with
  | Returned s' => s'
  | Threw => s
  end.

Definition dodge (r1 r2 : Q) (s : State) : State :=
  let '(x, y) := dodgeOffset (innerWidth s) r1 r2 in
  s |> classAdd BtnRetry DodgeClass
    |> setStyle BtnRetry Transform (Translate x y).

Definition handleRetry (s : State) : State :=
  if (List.length retryMessages <=? retryCount s)%nat then s
  else
    let message := nth (retryCount s) retryMessages EmptyString in
    let s1 := s |> setText RetryError (Text message)
                |> classAdd RetryError Visible in
    let s2 :=
      if (retryCount s =? 0)%nat then
        s1 |> classAdd BtnRetry Shake
           |> setTimeout ShakeOff 500
      else if (retryCount s =? 1)%nat then
        s1 |> classAdd BtnRetry Shake
           |> setTimeout ShakeOff 500
           |> setTimeout Dodge 500
      else
        s1 |> classAdd BtnRetry Hiding
           |> setTimeout ClearFinal 1500 in
    let s3 := set_retryCount (S (retryCount s2)) s2 in
    if (retryCount s3 <? List.length retryMessages)%nat
    then setTimeout ClearError 2000 s3
    else s3.

Definition clearFinal (s : State) : State :=
  s |> setText RetryError (Text EmptyString)
    |> classRemove RetryError Visible.

(** *** Orchestration *)

Definition init (s : State) : State :=
  s |> setStyle Body Overflow (css "hidden")
    |> initStarfield
    |> animateTerminal.

(** The click handler of the begin button, up to its [await] and, through
    [resolve], beyond it. *)
Definition handleBegin (s : State) : State :=
  let s1 := s |> setStyle BtnBegin PointerEvents (css "none")
              |> setStyle BtnBegin Opacity (css "0")
              |> setStyle BtnBegin Transition (css "opacity 0.5s ease") in
  let s2 := if hasCanvas pg then cancelDraw s1 else s1 in
  s2 |> transitionToGlobe |> initGlobe.

(** The body of each timer callback; [now] is the time it runs at and
    [r1], [r2] are what [Math.random] would return. *)
Definition runTask (now : Z) (r1 r2 : Q) (t : Task) (s : State) : State :=
  match t with
  | ShowLine i => classAdd (TerminalLine i) Visible s
  | ShowBegin => classAdd BtnBegin Show s
  | ActivateGlobe => classAdd GlobePhase Active s
  | AddRomantic => classAdd Body RomanticPhase s
  | ActivateLetter => activateLetter now s
  | WaitForGlobe => waitForGlobe s
  | FadeLoading => fadeLoading s
  | HideLoading => setStyle GlobeLoading Display (css "none") s
  | StartArc => startArc now s
  | MarkArriving =>
      s |> setText StatPacket (Text "Arriving...")
        |> classAdd StatPacket StatusArriving
  | MarkDelivered =>
      s |> setText StatPacket (Text "Delivered")
        |> classRemove StatPacket StatusArriving
        |> classAdd StatPacket StatusDelivered
  | ShowEstablished => classAdd ConnectionEstablished Visible s
  | ResolveArc => resolve s
  | TypeNextParagraph | TypeChar _ | FadeCursor => liftTw (twCallback t) s
  | CountdownTick => s |> countdownUpdate now |> setTimeout CountdownTick 1000
  | Burst2 => finish s (confetti 2 s)
  | Burst3 => finish s (confetti 3 s)
  | Burst4 => finish s (confetti 4 s)
  | AcceptDone => acceptDone s
  | ShakeOff => classRemove BtnRetry Shake s
  | Dodge => dodge r1 r2 s
  | ClearFinal => clearFinal s
  | ClearError => classRemove RetryError Visible s
  end.

Definition runFrame (now : Z) (f : Frame) (s : State) : State :=
  match f with
  | Draw => draw s
  | LatencyUpdate start => latencyUpdate start now s
  end.

(** One animation frame: the callbacks requested so far run, whatever they
    request goes to the next frame. *)
Definition animationFrame (now : Z) (s : State) : State :=
  fold_left (fun acc f => runFrame now f acc) (frames s) (set_frames [] s).

(** ** The event loop *)

Inductive UserEvent :=
| ClickBegin | ClickAccept | ClickRetry
| NextFrame
| GlobeScriptLoaded
| Resize (width : Z).

Definition isNone (v : StyleVal) : bool :=
  match v with
  | Css c => String.eqb c "none"
  | Translate _ _ => false
  end.

(** A pointer click reaches a control unless [pointer-events: none] is set
    on it or the section around it has [display: none]. *)
Definition beginClickable (s : State) : bool :=
  negb (isNone (style s BtnBegin PointerEvents)).

Definition askClickable (s : State) : bool :=
  negb (isNone (style s TheAsk Display)).

Definition runUser (now : Z) (u : UserEvent) (s : State) : State :=
  match u with
  | ClickBegin => if beginClickable s then handleBegin s else s
  | ClickAccept => if askClickable s then finish s (handleAccept s) else s
  | ClickRetry => if askClickable s then handleRetry s else s
  | NextFrame => animationFrame now s
  | GlobeScriptLoaded => set_globeLoaded true s
  | Resize w => set_innerWidth w s
  end.

Record Sys := { clock : Z; timers : list (Z * Task); st : State }.

(** The pending timer that is due first; among equals, the one registered
    first. *)
Fixpoint popMin (q : list (Z * Task)) : option ((Z * Task) * list (Z * Task)) :=
  match q with
  | [] => None
  | e :: r =>
      match popMin r with
      | None => Some (e, [])
      | Some (m, r') => if fst m <? fst e then Some (m, e :: r') else Some (e, r)
      end
  end.

(** End of a turn at time [now]: the timers registered during it join the
    queue.  A negative delay counts as zero. *)
Definition flush (now : Z) (q : list (Z * Task)) (s : State) : Sys :=
  {| clock := now;
     timers := q ++ map (fun e => (now + Z.max 0 (fst e), snd e)) (outbox s);
     st := set_outbox [] s |}.

Inductive Event :=
| Fire (r1 r2 : Q)                 (* the next timer fires, on time *)
| User (d : Z) (u : UserEvent).    (* [d] ms later, before the next timer *)

Definition step (e : Event) (y : Sys) : option Sys :=
  match e with
  | Fire r1 r2 =>
      match popMin (timers y) with
      | None => None
      | Some ((due, t), rest) => Some (flush due rest (runTask due r1 r2 t (st y)))
      end
  | User d u =>
      let now := clock y + d in
      if (0 <=? d) && forallb (fun e => now <=? fst e) (timers y)
      then Some (flush now (timers y) (runUser now u (st y)))
      else None
  end.

Fixpoint run (tr : list Event) (y : Sys) : option Sys :=
  match tr with
  | [] => Some y
  | e :: r =>
      match step e y with
      | Some y' => run r y'
      | None => None
      end
  end.

(** Modelled from the spec: the markup is not part of main.js; Landing is
    the phase shown when the page opens, nothing else is active, no
    inline style is set. *)
Definition markup : State :=
  {| classes := fun e c => Elem_beq e Landing && Class_beq c Active;
     style := fun _ _ => Css EmptyString;
     text := markupText pg;
     tw := {| target := markupTarget pg; texts := []; pIndex := 0;
              charIndex := 0; cursor := None |};
     particles := 0;
     globeLoaded := globeAtLoad pg; globeBuilt := false; arcStarted := false;
     confettiCalls := []; console := [];
     innerWidth := viewportWidth pg;
     retryCount := 0; waitAttempts := 0; settled := false; frameCount := 0;
     outbox := []; frames := []; classLog := [] |}.

(** The page after [init] has run, at time 0. *)
Definition start : Sys := flush 0 [] (init markup).

Definition reachable (y : Sys) : Prop := exists tr, run tr start = Some y.

End Handlers.

(** ** Vocabulary of the statements *)

(** *** Countdown: the rendering rule in the words of the specification *)

Definition digitChar (n : Z) : ascii := ascii_of_nat (48 + Z.to_nat n).

(** Exactly two decimal digits. *)
Definition twoDigits (n : Z) : string :=
  String (digitChar (n / 10)) (String (digitChar (n mod 10)) EmptyString).

(** Whole days, then hours, minutes and seconds within the day, by floor
    division; the days field is left out when it is zero. *)
Definition specCountdown (remaining : Z) : string :=
  if remaining <=? 0 then completionMessage
  else
    let days := remaining / 86400000 in
    let hours := (remaining / 3600000) mod 24 in
    let minutes := (remaining / 60000) mod 60 in
    let seconds := (remaining / 1000) mod 60 in
    ("// Valentine's Day in "
       ++ (if (days =? 0)%Z then "" else jsString days ++ "d ")
       ++ twoDigits hours ++ "h "
       ++ twoDigits minutes ++ "m "
       ++ twoDigits seconds ++ "s")%string.

(** *** Retry: [k] triggers in a row *)

Fixpoint retryTimes (k : nat) (s : State) : State :=
  match k with
  | O => s
  | S k' => handleRetry (retryTimes k' s)
  end.

(** *** Typewriter: the engine on its own *)

(** The engine never has more than one callback pending, so running it
    alone is running its callbacks in the order they were registered. *)
Fixpoint twRun (n : nat) (pending : list (Z * Task)) (t : Typewriter) : Typewriter :=
  match n, pending with
  | S n', (_, k) :: rest =>
      let '(t', new) := twCallback k t in
      twRun n' (rest ++ new) t'
  | _, _ => t
  end.

Definition twFresh (ps : list Para) : Typewriter :=
  {| target := Some ps; texts := []; pIndex := 0; charIndex := 0; cursor := None |}.

(** The typewriter [n] callbacks after [startTypewriter] was called on the
    paragraphs [ps]. *)
Definition twAfter (n : nat) (ps : list Para) : Typewriter :=
  let '(t, q) := startTypewriter (twFresh ps) in twRun n q t.

Definition paragraphsOf (t : Typewriter) : list Para :=
  match target t with
  | Some ps => ps
  | None => []
  end.

Definition revealed (t : Typewriter) : list string :=
  map textContent (paragraphsOf t).

(** One callback per character and one per paragraph, and the last one
    that fades the cursor. *)
Definition callbacksNeeded (ps : list Para) : nat :=
  match ps with
  | [] => 0
  | _ => S (fold_right (fun p n => S (String.length (innerText p)) + n)%nat 0%nat ps)
  end.

(** The text nodes that typing [l] leaves behind. *)
Definition typed (l : list ascii) : list Node :=
  map (fun c => TextNode (String c EmptyString)) l.

(** *** Event loop: pending timers of one kind *)

Definition pend (k : Task) (q : list (Z * Task)) : list Z :=
  map fst (filter (fun e => Task_beq (snd e) k) q).

(** The class operations that switch a phase. *)
Definition isPhaseOp (op : ClassOp) : bool :=
  match op with
  | Added Landing Active | Removed Landing Active
  | Added GlobePhase Active | Removed GlobePhase Active
  | Added LetterPhase Active | Removed LetterPhase Active
  | Added Body RomanticPhase | Removed Body RomanticPhase => true
  | _ => false
  end.

Definition phaseOps (s : State) : list ClassOp := filter isPhaseOp (classLog s).

Definition phaseOrder : list ClassOp :=
  [ Removed Landing Active; Added GlobePhase Active; Removed GlobePhase Active;
    Added Body RomanticPhase; Added LetterPhase Active ].

(** The class list that a log of operations produces from the markup. *)
Fixpoint replay (log : list ClassOp) (init : Elem -> Class -> bool)
  : Elem -> Class -> bool :=
  match log with
  | [] => init
  | Added e c :: r =>
      replay r (fun e' c' => if Elem_beq e e' && Class_beq c c' then true else init e' c')
  | Removed e c :: r =>
      replay r (fun e' c' => if Elem_beq e e' && Class_beq c c' then false else init e' c')
  end.

(** Timer callbacks that belong to the orchestrator and the globe bridge. *)
Definition orch (k : Task) : bool :=
  match k with
  | ActivateGlobe | AddRomantic | ActivateLetter
  | WaitForGlobe | StartArc | ResolveArc => true
  | _ => false
  end.

(** Where the begin sequence stands.  [t0] is the time of the begin click. *)
Inductive Stage :=
| Idle
| Polling (t0 : Z) (shown : bool)
| Settling (t0 ts : Z) (shown : bool)
| Flying (t0 tr : Z)
| Leaving (t0 te : Z) (fired : nat).

Definition stageOps (g : Stage) : list ClassOp :=
  match g with
  | Idle => []
  | Polling _ shown | Settling _ _ shown => firstn (if shown then 2 else 1) phaseOrder
  | Flying _ _ => firstn 2 phaseOrder
  | Leaving _ _ fired => firstn (3 + fired) phaseOrder
  end.

Definition stagePend (g : Stage) (attempts : nat) (k : Task) : list Z :=
  match g, k with
  | Polling t0 false, ActivateGlobe | Settling t0 _ false, ActivateGlobe => [t0 + 400]
  | Polling t0 _, WaitForGlobe => [t0 + 200 * Z.of_nat attempts]
  | Settling _ ts _, StartArc => [ts]
  | Flying _ tr, ResolveArc => [tr]
  | Leaving _ te 0, AddRomantic => [te + 600]
  | Leaving _ te 0, ActivateLetter | Leaving _ te 1, ActivateLetter => [te + 1200]
  | _, _ => []
  end.

(** What the begin sequence reads and writes of a state. *)
Record View := {
  vClickable : bool;
  vOps : list ClassOp;
  vSettled : bool;
  vAttempts : nat;
  vBuilt : bool;
  vConsole : list string;
  vOut : list (Z * Task)
}.

Definition view (s : State) : View :=
  {| vClickable := beginClickable s;
     vOps := phaseOps s;
     vSettled := settled s;
     vAttempts := waitAttempts s;
     vBuilt := globeBuilt s;
     vConsole := console s;
     vOut := filter (fun e => orch (snd e)) (outbox s) |}.

Definition stageSide (g : Stage) (clk : Z) (v : View) : Prop :=
  match g with
  | Idle => vClickable v = true /\ vBuilt v = false /\ vConsole v = []
  | Polling t0 _ =>
      vClickable v = false /\ vSettled v = false /\ vBuilt v = false /\
      vConsole v = [] /\
      (1 <= vAttempts v <= 50)%nat /\
      t0 + 200 * (Z.of_nat (vAttempts v) - 1) <= clk
  | Settling t0 ts _ =>
      vClickable v = false /\ vSettled v = false /\ vBuilt v = true /\
      t0 + 1500 <= ts
  | Flying t0 tr =>
      vClickable v = false /\ vSettled v = false /\ vBuilt v = true /\
      t0 + 11800 <= tr
  | Leaving t0 te fired =>
      vClickable v = false /\ vSettled v = true /\ (fired <= 2)%nat /\
      t0 + 10000 <= te <= clk /\
      (vBuilt v = false ->
       te = t0 + 10000 /\ vAttempts v = 50%nat /\ vConsole v = [giveUpWarning])
  end.

Definition inStage (g : Stage) (y : Sys) : Prop :=
  vOps (view (st y)) = stageOps g /\
  (forall k, orch k = true ->
             pend k (timers y) = stagePend g (vAttempts (view (st y))) k) /\
  stageSide g (clock y) (view (st y)).

(** The time of the begin click, once there was one. *)
Definition begunAt (g : Stage) : option Z :=
  match g with
  | Idle => None
  | Polling t0 _ | Settling t0 _ _ | Flying t0 _ | Leaving t0 _ _ => Some t0
  end.

Definition orchOnly (q : list (Z * Task)) : list (Z * Task) :=
  filter (fun e => orch (snd e)) q.

Definition shift (now : Z) (e : Z * Task) : Z * Task :=
  (now + Z.max 0 (fst e), snd e).

(** The class lists are what the logged operations made of the markup. *)
Definition consistent (init : Elem -> Class -> bool) (s : State) : Prop :=
  forall e c, classes s e c = replay (classLog s) init e c.

(** What accepting reads and writes of a state. *)
Definition askView (s : State) : StyleVal * StyleVal * bool :=
  (style s TheAsk Display, style s TheAsk Opacity, classes s AcceptedState Visible).

Scheme Equality for ClassOp.

(** Between turns nothing is waiting in the outbox and no timer is overdue. *)
Definition settledTurn (y : Sys) : Prop :=
  outbox (st y) = [] /\ Forall (fun e => clock y <= fst e) (timers y).

Definition isGlobeLoad (e : Event) : bool :=
  match e with
  | User _ GlobeScriptLoaded => true
  | _ => false
  end.

(** The begin time of the stage after an event. *)
Definition begunAfter (e : Event) (a : Sys) (g : Stage) : option Z :=
  match e with
  | User d ClickBegin =>
      if beginClickable (st a) then Some (clock a + d) else begunAt g
  | _ => begunAt g
  end.

(** The begin click and the orchestrator's own timers. *)
Definition orchestratorTurn (e : Event) (y : Sys) : bool :=
  match e with
  | User _ ClickBegin => true
  | User _ _ => false
  | Fire _ _ =>
      match popMin (timers y) with
      | Some ((_, t), _) => orch t
      | None => false
      end
  end.

(** While the globe script has not loaded nothing builds the globe. *)
Definition globeAbsent (s : State) : Prop :=
  globeLoaded s = false /\ globeBuilt s = false.

(** Once hidden the ask section shows the accepted state. *)
Definition hiddenMeansAccepted (s : State) : Prop :=
  askClickable s = false -> classes s AcceptedState Visible = true.

(** After accepting at [t]: either the ask section is already hidden, or
    it is fading and the timer that hides it is pending for [t + 800]. *)
Definition fadingOrHidden (t : Z) (y : Sys) : Prop :=
  askClickable (st y) = false \/
  (In (t + 800, AcceptDone) (timers y) /\ style (st y) TheAsk Opacity = Css "0").

(** *** Typewriter: the invariant of the engine *)

Definition chars (s : string) : list ascii := list_ascii_of_string s.

(** A finished paragraph: visible, its text nodes spell the full text; the
    cursor may still sit at its end. *)
Definition doneOf (full : string) (p : Para) : Prop :=
  filter (fun n => negb (is_cursor n)) (nodes p) = typed (chars full) /\
  displayNone p = false.

Definition blanks (l : list string) : list Para := map (fun _ => blankPara) l.

(** Callbacks that the paragraphs [l] still need. *)
Definition cost (l : list string) : nat :=
  fold_right (fun s n => S (String.length s) + n)%nat 0%nat l.

(** Paragraph [full], after [pre] and before [more], has its first [c]
    characters out and holds the cursor. *)
Record TypingAt (fulls pre : list string) (full : string) (more : list string)
  (c : nat) (t : Typewriter) : Prop := {
  ta_fulls : fulls = pre ++ full :: more;
  ta_texts : texts t = fulls;
  ta_index : pIndex t = List.length pre;
  ta_count : charIndex t = c;
  ta_bound : (c <= String.length full)%nat;
  ta_cursor : cursor t = Some false;
  ta_target : exists dones cur,
      Forall2 doneOf pre dones /\
      nodes cur = typed (firstn c (chars full)) ++ [CursorNode] /\
      displayNone cur = false /\
      target t = Some (dones ++ cur :: blanks more)
}.

(** The engine with its pending callback and the number of callbacks it
    still needs. *)
Inductive TwInv (fulls : list string) : list (Z * Task) -> Typewriter -> nat -> Prop :=
| InvWaiting pre post dones dl t :
    fulls = pre ++ post -> post <> [] -> texts t = fulls ->
    pIndex t = List.length pre -> cursor t = Some false ->
    Forall2 doneOf pre dones ->
    target t = Some (dones ++ blanks post) ->
    TwInv fulls [(dl, TypeNextParagraph)] t (S (cost post))
| InvTyping pre full more c dl t :
    TypingAt fulls pre full more c t ->
    TwInv fulls [(dl, TypeChar (List.length pre))] t
          (S (String.length full - c) + cost more + 1)%nat
| InvFading dones dl t :
    texts t = fulls -> pIndex t = List.length fulls -> cursor t = Some false ->
    Forall2 doneOf fulls dones -> target t = Some dones ->
    TwInv fulls [(dl, FadeCursor)] t 1%nat
| InvFinished dones t :
    texts t = fulls -> pIndex t = List.length fulls -> cursor t = Some true ->
    Forall2 doneOf fulls dones -> target t = Some dones ->
    TwInv fulls [] t 0%nat.

(** What the page shows in a state of the engine: full texts, then at
    most one initial part, then nothing. *)
Definition orderly (fulls : list string) (t : Typewriter) : Prop :=
  exists i c,
    revealed t =
      firstn i fulls
      ++ (if (i <? List.length fulls)%nat
          then [substring 0 c (nth i fulls EmptyString)] else [])
      ++ repeat EmptyString (List.length fulls - S i) /\
    skipn (S i) (paragraphsOf t) = repeat blankPara (List.length fulls - S i).


(** *** Typewriter: the engine inside the page *)

Definition isTw (k : Task) : bool :=
  match k with
  | TypeNextParagraph | TypeChar _ | FadeCursor => true
  | _ => false
  end.

(** The typewriter callbacks among the pending timers, in order. *)
Definition twOnly (q : list (Z * Task)) : list Task :=
  map snd (filter (fun e => isTw (snd e)) q).

(** [twRun] together with what is pending afterwards. *)
Fixpoint twRunQ (n : nat) (pending : list (Z * Task)) (t : Typewriter)
  : list (Z * Task) * Typewriter :=
  match n, pending with
  | S n', (_, k) :: rest =>
      let r := twCallback k t in
      twRunQ n' (rest ++ snd r) (fst r)
  | _, _ => (pending, t)
  end.

Definition letterEntered (s : State) : bool :=
  existsb (ClassOp_beq (Added LetterPhase Active)) (classLog s).

(** The typewriter as the markup has it. *)
Definition twMarkup (pg : Page) : Typewriter :=
  {| target := markupTarget pg; texts := []; pIndex := 0; charIndex := 0;
     cursor := None |}.

(** The typewriter of the page is untouched until the letter phase is
    entered, and from then on it is the engine after some number of its
    callbacks, with exactly the engine's pending callbacks in the queue. *)
Definition twInPage (pg : Page) (y : Sys) : Prop :=
  (letterEntered (st y) = false /\ tw (st y) = twMarkup pg /\
   twOnly (timers y) = []) \/
  (letterEntered (st y) = true /\
   exists n,
     let r := twRunQ n (snd (startTypewriter (twMarkup pg)))
                       (fst (startTypewriter (twMarkup pg))) in
     tw (st y) = snd r /\ twOnly (timers y) = map snd (fst r)).

(** One more callback of the engine. *)
Definition twNext (r : list (Z * Task) * Typewriter) : list (Z * Task) * Typewriter :=
  match fst r with
  | (_, k) :: rest => (rest ++ snd (twCallback k (snd r)), fst (twCallback k (snd r)))
  | [] => r
  end.

(** What the typewriter's place in the page depends on. *)
Definition twView (s : State) : Typewriter * bool * list Task :=
  (tw s, letterEntered s, twOnly (outbox s)).

(** *** Frames and bursts in the page *)

(** No pending counter frame was started in the future. *)
Definition framesStarted (clk : Z) (fs : list Frame) : Prop :=
  forall start, In (LatencyUpdate start) fs -> start <= clk.

Definition isBurst (k : Task) : bool :=
  match k with
  | Burst2 | Burst3 | Burst4 => true
  | _ => false
  end.

Definition burstOnly (q : list (Z * Task)) : list (Z * Task) :=
  filter (fun e => isBurst (snd e)) q.

(** *** Example pages *)

Definition demoParas : list Para :=
  [ {| nodes := [TextNode "Hi"]; displayNone := false |};
    {| nodes := []; displayNone := false |};
    {| nodes := [TextNode "yo"; TextNode "!"]; displayNone := false |} ].

Definition demoPage (withConfetti : bool) : Page :=
  {| lineDelays := [Some 0; Some 600; None];
     hasCanvas := true; hasLoading := true; hasConfetti := withConfetti;
     epoch := valentineDate - 90061000 - 23600;
     markupText := fun _ => Text EmptyString;
     markupTarget := Some demoParas;
     viewportWidth := 400;
     globeAtLoad := false |}.

Definition fires (n : nat) : list Event := repeat (Fire (1 # 4) (1 # 2)) n.

(** A page without a typewriter target. *)
Definition barePage : Page :=
  {| lineDelays := [];
     hasCanvas := false; hasLoading := false; hasConfetti := false;
     epoch := valentineDate;
     markupText := fun _ => Text EmptyString;
     markupTarget := None;
     viewportWidth := 320;
     globeAtLoad := false |}.

(** The terminal lines and the begin button appear; the button is clicked
    at 4.4 s; the globe script never loads. *)
Definition demoLanding : list Event := fires 4.

Definition demoBegin : list Event := demoLanding ++ User 3000 ClickBegin :: fires 70.

(** Where a run ends. *)
Definition endOf (pg : Page) (tr : list Event) : Sys :=
  match run pg tr (start pg) with
  | Some y => y
  | None => start pg
  end.

(** ** Further vocabulary *)

(** *** Countdown: what the displayed fields stand for, in ms *)

Definition countdownShown (diff : Z) : Z :=
  countdownDays diff * 86400000 + countdownHours diff * 3600000
  + countdownMinutes diff * 60000 + countdownSeconds diff * 1000.

(** *** The starfield ([initStarfield]) in detail *)

(** The stars of [initStarfield], their creation and one pass of [draw].
    [Math.random] is a sequence [rand] of numbers together with the count
    of those already taken; coordinates that the script computes in
    floating point are exact rationals. *)
Module Starfield.

Definition STAR_COUNT : nat := 120.
Definition PIXEL : Z := 3.

Definition STAR_COLORS : list (Z * Z * Z) :=
  [ (200, 180, 255); (180, 220, 255); (255, 200, 220);
    (180, 255, 220); (255, 230, 180); (220, 220, 240) ].

Record Star := {
  x : Z;                          (* only ever assigned a whole number *)
  y : Q;
  size : Z;
  color : option (Z * Z * Z);     (* [None] is [undefined] *)
  alpha : Q;
  speed : Q;
  twinkleRate : Z;
  twinkleFrame : Z;
  on : bool
}.

(** One [fillRect] with the [fillStyle] it was drawn in. *)
Record Rect := {
  rectX : Z; rectY : Q; rectSize : Z; rectColor : Z * Z * Z; rectAlpha : Q
}.

Record Field := {
  width : Z;
  height : Z;
  stars : list Star;
  frameCount : Z;
  drawn : list Rect;              (* what the last [draw] painted *)
  used : nat                      (* calls of [Math.random] so far *)
}.

(** [Math.floor((r * extent) / PIXEL) * PIXEL] *)
Definition snap (r : Q) (extent : Z) : Z :=
  (Qfloor (r * inject_Z extent / inject_Z PIXEL) * PIXEL)%Z.

(** [array[Math.floor(r * array.length)]] *)
Definition pick {A : Type} (l : list A) (r : Q) : option A :=
  let i := Qfloor (r * inject_Z (Z.of_nat (List.length l))) in
  if (i <? 0)%Z then None else nth_error l (Z.to_nat i).

Definition createStar (w h : Z) (rand : nat -> Q) (n : nat) : Star :=
  {| color := pick STAR_COLORS (rand n);
     x := snap (rand (n + 1)%nat) w;
     y := inject_Z (snap (rand (n + 2)%nat) h);
     size := ((if Qlt_le_dec (7 # 10) (rand (n + 3)%nat) then 2 else 1) * PIXEL)%Z;
     alpha := (rand (n + 4)%nat * (7 # 10) + (3 # 10))%Q;
     speed := (inject_Z ((if Qlt_le_dec (8 # 10) (rand (n + 5)%nat) then 2 else 1) * PIXEL)
               * (1 # 100))%Q;
     twinkleRate := Qfloor (rand (n + 6)%nat * 60 + 30);
     twinkleFrame := Qfloor (rand (n + 7)%nat * 60);
     on := true |}.

Definition resize (w h : Z) (f : Field) : Field :=
  {| width := w; height := h; stars := stars f; frameCount := frameCount f;
     drawn := []; used := used f |}.

Definition createStars (rand : nat -> Q) (f : Field) : Field :=
  {| width := width f; height := height f;
     stars := map (fun i => createStar (width f) (height f) rand (used f + 8 * i)%nat)
                  (seq 0 STAR_COUNT);
     frameCount := frameCount f; drawn := drawn f;
     used := (used f + 8 * STAR_COUNT)%nat |}.

(** [frameCount % s.twinkleRate === 0]; the remainder by zero is NaN. *)
Definition twinkles (fc : Z) (s : Star) : bool :=
  if (twinkleRate s =? 0)%Z then false else (Z.rem fc (twinkleRate s) =? 0)%Z.

(** The body of the loop over the stars in [draw]: the star afterwards,
    what was painted and whether a random number was taken; [None] when
    the destructuring of an undefined colour throws. *)
Definition drawStar (w h fc : Z) (r : Q) (s : Star) : option (Star * list Rect * bool) :=
  let lit := if twinkles fc s then negb (on s) else on s in
  let painted :=
    if lit then
      match color s with
      | Some c => Some [ {| rectX := x s; rectY := y s; rectSize := size s;
                            rectColor := c; rectAlpha := alpha s |} ]
      | None => None
      end
    else Some [] in
  match painted with
  | None => None
  | Some rects =>
      let y1 := (y s - speed s)%Q in
      if Qlt_le_dec y1 (- inject_Z (size s))
      then Some ({| x := snap r w; y := (inject_Z h + inject_Z (size s))%Q;
                    size := size s; color := color s; alpha := alpha s;
                    speed := speed s; twinkleRate := twinkleRate s;
                    twinkleFrame := twinkleFrame s; on := lit |}, rects, true)
      else Some ({| x := x s; y := y1;
                    size := size s; color := color s; alpha := alpha s;
                    speed := speed s; twinkleRate := twinkleRate s;
                    twinkleFrame := twinkleFrame s; on := lit |}, rects, false)
  end.

Fixpoint drawStars (w h fc : Z) (rand : nat -> Q) (n : nat) (l : list Star)
  : option (list Star * list Rect * nat) :=
  match l with
  | [] => Some ([], [], n)
  | s :: rest =>
      match drawStar w h fc (rand n) s with
      | None => None
      | Some (s', rects, took) =>
          match drawStars w h fc rand (if took then S n else n) rest with
          | None => None
          | Some (rest', rects', n') => Some (s' :: rest', rects ++ rects', n')
          end
      end
  end.

(** One call of [draw]; [None] when it throws, and then it has not asked
    for the next frame. *)
Definition draw (rand : nat -> Q) (f : Field) : option Field :=
  let fc := (frameCount f + 1)%Z in
  match drawStars (width f) (height f) fc rand (used f) (stars f) with
  | None => None
  | Some (l, rects, n) =>
      Some {| width := width f; height := height f; stars := l;
              frameCount := fc; drawn := rects; used := n |}
  end.

(** The canvas when [initStarfield] returns, in a window of [w] by [h]. *)
Definition open (w h : Z) (rand : nat -> Q) : Field :=
  createStars rand
    (resize w h {| width := 0; height := 0; stars := []; frameCount := 0;
                   drawn := []; used := 0 |}).

Inductive CanvasEvent :=
| NextDraw
| WindowResized (w h : Z).

Definition canvasStep (rand : nat -> Q) (e : CanvasEvent) (f : Field) : option Field :=
  match e with
  | NextDraw => draw rand f
  | WindowResized w h => Some (createStars rand (resize w h f))
  end.

Fixpoint canvasRun (rand : nat -> Q) (es : list CanvasEvent) (f : Field) : option Field :=
  match es with
  | [] => Some f
  | e :: r =>
      match canvasStep rand e f with
      | Some f' => canvasRun rand r f'
      | None => None
      end
  end.

(** Every number that [Math.random] returns is at least 0 and below 1. *)
Definition unitDraws (rand : nat -> Q) : Prop :=
  forall n, (0 <= rand n)%Q /\ (rand n < 1)%Q.

(** A star as [createStars] makes and [draw] keeps them. *)
Definition inField (w h : Z) (s : Star) : Prop :=
  color s <> None /\
  (x s mod PIXEL = 0)%Z /\ (0 <= x s <= w)%Z /\
  (- inject_Z (size s) <= y s)%Q /\ (y s <= inject_Z h + inject_Z (size s))%Q /\
  (size s = PIXEL \/ size s = 2 * PIXEL)%Z /\
  ((3 # 10) <= alpha s)%Q /\ (alpha s < 1)%Q /\
  (0 < speed s)%Q /\
  (30 <= twinkleRate s <= 89)%Z.

Definition sizesNonneg (es : list CanvasEvent) : Prop :=
  Forall (fun e => match e with
                   | NextDraw => True
                   | WindowResized w h => (0 <= w)%Z /\ (0 <= h)%Z
                   end) es.

(** The stars that a frame painted are where the field has them: on the
    pixel grid and inside the band that [draw] keeps. *)
Definition rectInField (w h : Z) (r : Rect) : Prop :=
  (rectX r mod PIXEL = 0)%Z /\ (0 <= rectX r <= w)%Z /\
  (- inject_Z (rectSize r) <= rectY r)%Q /\
  (rectY r <= inject_Z h + inject_Z (rectSize r))%Q.

End Starfield.

(** *** Typewriter: the cursor and the clock *)

(** The cursor spans among the children of the paragraphs. *)
Definition cursorCount (t : Typewriter) : nat :=
  List.length (filter is_cursor (List.concat (map nodes (paragraphsOf t)))).

(** The paragraphs and their captured texts go together. *)
Definition twShape (t : Typewriter) : Prop :=
  exists ps, target t = Some ps /\ List.length ps = List.length (texts t).

(** From the callback that starts the first of the paragraphs [l] to the
    callback that fades the cursor. *)
Fixpoint typingTime (l : list string) : Z :=
  match l with
  | [] => 0
  | full :: more =>
      TYPEWRITER_SPEED * Z.of_nat (String.length full)
      + match more with
        | [] => 1500
        | _ => 400 + typingTime more
        end
  end.

Definition pauseThenRest (more : list string) : Z :=
  match more with
  | [] => 1500
  | _ => 400 + typingTime more
  end.

(** Until the last callback of the engine has run. *)
Definition twRemaining (q : list (Z * Task)) (t : Typewriter) : Z :=
  match q with
  | [(dl, TypeNextParagraph)] => dl + typingTime (skipn (pIndex t) (texts t))
  | [(dl, TypeChar i)] =>
      dl + TYPEWRITER_SPEED * (Z.of_nat (String.length (nth i (texts t) EmptyString))
                               - Z.of_nat (charIndex t))
      + pauseThenRest (skipn (S i) (texts t))
  | [(dl, FadeCursor)] => dl
  | _ => 0
  end.

(** When the [n]-th callback of the engine runs, counted from [now]: a
    callback runs its delay after the one that registered it. *)
Fixpoint twElapsed (n : nat) (pending : list (Z * Task)) (t : Typewriter) (now : Z) : Z :=
  match n, pending with
  | S n', (dl, k) :: rest =>
      let '(t', new) := twCallback k t in
      twElapsed n' (rest ++ new) t' (now + dl)
  | _, _ => now
  end.

Definition totalChars (ps : list Para) : nat :=
  fold_right (fun p n => String.length (innerText p) + n)%nat 0%nat ps.

(** When the typewriter started on [ps] fades its cursor, counted from
    the call of [startTypewriter]. *)
Definition typewriterEnd (ps : list Para) : Z :=
  twElapsed (callbacksNeeded ps) (snd (startTypewriter (twFresh ps)))
            (fst (startTypewriter (twFresh ps))) 0.

(** *** What a callback may write and register *)

(** The classes a timer callback may add or remove. *)
Definition classWrites (t : Task) : list (Elem * Class) :=
  match t with
  | ShowLine i => [(TerminalLine i, Visible)]
  | ShowBegin => [(BtnBegin, Show)]
  | ActivateGlobe | WaitForGlobe | ResolveArc => [(GlobePhase, Active)]
  | AddRomantic => [(Body, RomanticPhase)]
  | ActivateLetter => [(LetterPhase, Active)]
  | StartArc => [(StatusOverlay, Visible)]
  | MarkArriving => [(StatPacket, StatusArriving)]
  | MarkDelivered => [(StatPacket, StatusArriving); (StatPacket, StatusDelivered)]
  | ShowEstablished => [(ConnectionEstablished, Visible)]
  | AcceptDone => [(AcceptedState, Visible)]
  | ShakeOff => [(BtnRetry, Shake)]
  | Dodge => [(BtnRetry, DodgeClass)]
  | ClearFinal | ClearError => [(RetryError, Visible)]
  | _ => []
  end.

(** The inline styles a timer callback may set. *)
Definition styleWrites (t : Task) : list (Elem * StyleProp) :=
  match t with
  | ActivateLetter => [(Body, Overflow)]
  | WaitForGlobe | HideLoading => [(GlobeLoading, Display)]
  | FadeLoading => [(GlobeLoading, Transition); (GlobeLoading, Opacity)]
  | AcceptDone => [(TheAsk, Display)]
  | Dodge => [(BtnRetry, Transform)]
  | _ => []
  end.

(** The elements whose text a timer callback may set. *)
Definition textWrites (t : Task) : list Elem :=
  match t with
  | ActivateLetter | CountdownTick => [Countdown]
  | MarkArriving | MarkDelivered => [StatPacket]
  | ClearFinal => [RetryError]
  | _ => []
  end.

(** The timers that a timer callback may register. *)
Definition spawns (t k : Task) : bool :=
  match t, k with
  | WaitForGlobe, (WaitForGlobe | FadeLoading | StartArc | AddRomantic | ActivateLetter)
  | FadeLoading, HideLoading
  | StartArc, (MarkArriving | MarkDelivered | ShowEstablished | ResolveArc)
  | ResolveArc, (AddRomantic | ActivateLetter)
  | ActivateLetter, (TypeNextParagraph | CountdownTick)
  | CountdownTick, CountdownTick => true
  | (TypeNextParagraph | TypeChar _ | FadeCursor), _ => isTw k
  | _, _ => false
  end.

Definition userClassWrites (u : UserEvent) : list (Elem * Class) :=
  match u with
  | ClickBegin => [(Landing, Active)]
  | ClickRetry => [(RetryError, Visible); (BtnRetry, Shake); (BtnRetry, Hiding)]
  | _ => []
  end.

Definition userStyleWrites (u : UserEvent) : list (Elem * StyleProp) :=
  match u with
  | ClickBegin => [(BtnBegin, PointerEvents); (BtnBegin, Opacity); (BtnBegin, Transition)]
  | ClickAccept => [(TheAsk, Transition); (TheAsk, Opacity)]
  | _ => []
  end.

Definition userTextWrites (u : UserEvent) : list Elem :=
  match u with
  | ClickRetry => [RetryError]
  | NextFrame => [StatLatency]
  | _ => []
  end.

Definition userSpawns (u : UserEvent) (k : Task) : bool :=
  match u, k with
  | ClickBegin, (ActivateGlobe | WaitForGlobe | FadeLoading | StartArc)
  | ClickAccept, (Burst2 | Burst3 | Burst4 | AcceptDone)
  | ClickRetry, (ShakeOff | Dodge | ClearFinal | ClearError) => true
  | _, _ => false
  end.

Definition writesClass (l : list (Elem * Class)) (e : Elem) (c : Class) : bool :=
  existsb (fun w => Elem_beq (fst w) e && Class_beq (snd w) c) l.

Definition writesStyle (l : list (Elem * StyleProp)) (e : Elem) (p : StyleProp) : bool :=
  existsb (fun w => Elem_beq (fst w) e && StyleProp_beq (snd w) p) l.

Definition writesText (l : list Elem) (e : Elem) : bool :=
  existsb (fun w => Elem_beq w e) l.

Definition opTarget (op : ClassOp) : Elem * Class :=
  match op with
  | Added e c | Removed e c => (e, c)
  end.

(** *** The letter phase in the page *)

(** The countdown shows the remaining time as of a tick that is at most
    one second old, and the next tick is the one tick pending. *)
Definition countdownFresh (pg : Page) (y : Sys) : Prop :=
  exists t, clock y - 1000 <= t <= clock y /\
            text (st y) Countdown
            = Text (countdownText (valentineDate - (epoch pg + t))) /\
            pend CountdownTick (timers y) = [t + 1000].

(** What entering the letter phase sets up, and only once. *)
Definition letterSetup (pg : Page) (y : Sys) : Prop :=
  style (st y) Body Overflow
    = Css (if letterEntered (st y) then "auto" else "hidden") /\
  particles (st y) = (if letterEntered (st y) then 25 else 0)%nat /\
  (if letterEntered (st y) then countdownFresh pg y
   else pend CountdownTick (timers y) = [] /\
        text (st y) Countdown = markupText pg Countdown).

(** *** Retry in the page *)

(** What retrying sets off does not last: while the button shakes, the
    timer that stops it is pending and due within 500 ms; while an error
    message is visible, a timer that hides it is pending and due within
    2 s (1.5 s for the last message). *)
Definition retryTransient (y : Sys) : Prop :=
  (classes (st y) BtnRetry Shake = true ->
   exists d, In (d, ShakeOff) (timers y) /\ d <= clock y + 500) /\
  (classes (st y) RetryError Visible = true ->
   exists d, (In (d, ClearError) (timers y) /\ d <= clock y + 2000) \/
             (In (d, ClearFinal) (timers y) /\ d <= clock y + 1500)).

(** Where the retry button stands after [retryCount] triggers. *)
Definition retryShape (pg : Page) (y : Sys) : Prop :=
  (retryCount (st y) <= 3)%nat /\
  classes (st y) BtnRetry Hiding = (retryCount (st y) =? 3)%nat /\
  (classes (st y) BtnRetry DodgeClass = true -> (2 <= retryCount (st y))%nat) /\
  (pend Dodge (timers y) <> [] -> (2 <= retryCount (st y))%nat) /\
  ((retryCount (st y) < 3)%nat -> pend ClearFinal (timers y) = []) /\
  (retryCount (st y) = 0%nat ->
   text (st y) RetryError = markupText pg RetryError /\
   classes (st y) RetryError Visible = false /\
   classes (st y) BtnRetry Shake = false) /\
  ((1 <= retryCount (st y) <= 2)%nat ->
   text (st y) RetryError
   = Text (nth (retryCount (st y) - 1) retryMessages EmptyString)).

(** After the third trigger at [t]: the last message until the timer at
    [t + 1500] fires, nothing from then on. *)
Definition retryFinal (t : Z) (y : Sys) : Prop :=
  retryCount (st y) = 3%nat /\
  classes (st y) BtnRetry Hiding = true /\
  ((pend ClearFinal (timers y) = [t + 1500] /\
    text (st y) RetryError = Text (nth 2 retryMessages EmptyString)) \/
   (pend ClearFinal (timers y) = [] /\ t + 1500 <= clock y /\
    text (st y) RetryError = Text EmptyString /\
    classes (st y) RetryError Visible = false)).

(** Two retries on the landing page of [barePage], 10 ms apart. *)
Definition twoRetries : list Event := [User 10 ClickRetry; User 10 ClickRetry].

(** *** Confetti in the page *)

(** How often burst [n] was launched. *)
Definition launched (n : nat) (s : State) : nat :=
  count_occ Nat.eq_dec (confettiCalls s) n.

(** Each of the later bursts was launched or is pending once for every
    first burst. *)
Definition confettiBalanced (pg : Page) (y : Sys) : Prop :=
  (launched 2 (st y) + List.length (pend Burst2 (timers y)) = launched 1 (st y))%nat /\
  (launched 3 (st y) + List.length (pend Burst3 (timers y)) = launched 1 (st y))%nat /\
  (launched 4 (st y) + List.length (pend Burst4 (timers y)) = launched 1 (st y))%nat /\
  Forall (fun c => (1 <= c <= 4)%nat) (confettiCalls (st y)) /\
  (hasConfetti pg = false -> confettiCalls (st y) = []).

(** *** The starfield loop in the page *)

Definition drawsPending (s : State) : list Frame := filter is_draw (frames s).

(** The example run with a click on accept 100 ms after it and twelve
    timers more. *)
Definition demoAccept : list Event := demoBegin ++ User 100 ClickAccept :: fires 12.

(** *** The terminal lines in the page *)

(** When terminal line [i] is due: its [data-delay], or 600 ms times its
    index when the attribute is missing, not a number, or 0. *)
Definition lineDue (pg : Page) (i : nat) : option Z :=
  match nth_error (lineDelays pg) i with
  | Some d => Some (Z.max 0 (orElse d (Z.of_nat i * 600)))
  | None => None
  end.

Definition beginDue (pg : Page) : Z := totalDelay (lineDelays pg) + 800.

(** An element gets class [c] from the one timer [k], due at [t]: the
    timer is pending and the class absent, or the timer has fired, at
    [t], and the class is there. *)
Definition shownBy (k : Task) (e : Elem) (c : Class) (t : Z) (y : Sys) : Prop :=
  (pend k (timers y) = [t] /\ classes (st y) e c = false) \/
  (pend k (timers y) = [] /\ classes (st y) e c = true /\ t <= clock y).

Definition terminalState (pg : Page) (y : Sys) : Prop :=
  (forall i,
      match lineDue pg i with
      | Some t => shownBy (ShowLine i) (TerminalLine i) Visible t y
      | None => pend (ShowLine i) (timers y) = [] /\
                classes (st y) (TerminalLine i) Visible = false
      end) /\
  shownBy ShowBegin BtnBegin Show (beginDue pg) y.

(** *** The globe sequence in the page *)

(** The steps of [buildGlobe] and of the timers it starts, in the order
    in which they are due. *)
Inductive ArcStep :=
| ABuilt | AFading | AHidden | AFlying | AArriving | ADelivered | AEstablished
| AResolved.

Definition arcRank (p : ArcStep) : nat :=
  match p with
  | ABuilt => 0 | AFading => 1 | AHidden => 2 | AFlying => 3 | AArriving => 4
  | ADelivered => 5 | AEstablished => 6 | AResolved => 7
  end.

Definition arcTask (k : Task) : bool :=
  match k with
  | FadeLoading | HideLoading | StartArc | MarkArriving | MarkDelivered
  | ShowEstablished | ResolveArc => true
  | _ => false
  end.

(** When each timer of the sequence is due, counted from the time at
    which the globe was built. *)
Definition arcDue (k : Task) : Z :=
  match k with
  | FadeLoading => 800
  | HideLoading => 800 + 500
  | StartArc => 1500
  | MarkArriving => 1500 + Qfloor (inject_Z ARC_FLIGHT_TIME * ARRIVING_THRESHOLD)
  | MarkDelivered => 1500 + ARC_FLIGHT_TIME
  | ShowEstablished => 1500 + (ARC_FLIGHT_TIME + 800)
  | ResolveArc => 1500 + (ARC_FLIGHT_TIME + 800 + CE_DISPLAY_TIME)
  | _ => 0
  end.

(** The timers of the sequence that are pending at a step; [loading] says
    whether the page has the loading indicator. *)
Definition arcWaits (loading : bool) (p : ArcStep) (k : Task) : bool :=
  match k with
  | FadeLoading => (arcRank p =? 0)%nat
  | HideLoading => loading && (arcRank p =? 1)%nat
  | StartArc => (arcRank p <? 3)%nat
  | MarkArriving => (arcRank p =? 3)%nat
  | MarkDelivered => (3 <=? arcRank p)%nat && (arcRank p <? 5)%nat
  | ShowEstablished => (3 <=? arcRank p)%nat && (arcRank p <? 6)%nat
  | ResolveArc => (3 <=? arcRank p)%nat && (arcRank p <? 7)%nat
  | _ => false
  end.

Definition arcPend (loading : bool) (p : ArcStep) (tb : Z) (k : Task) : list Z :=
  if arcWaits loading p k then [tb + arcDue k] else [].

(** The step that a timer of the sequence leads to. *)
Definition arcNext (loading : bool) (p : ArcStep) (k : Task) : option ArcStep :=
  match p, k with
  | ABuilt, FadeLoading => Some AFading
  | AFading, HideLoading => if loading then Some AHidden else None
  | AFading, StartArc => if loading then None else Some AFlying
  | AHidden, StartArc => Some AFlying
  | AFlying, MarkArriving => Some AArriving
  | AArriving, MarkDelivered => Some ADelivered
  | ADelivered, ShowEstablished => Some AEstablished
  | AEstablished, ResolveArc => Some AResolved
  | _, _ => None
  end.

(** The time at which a step is reached, after the globe was built. *)
Definition arcSince (p : ArcStep) : Z :=
  match p with
  | ABuilt => 0
  | AFading => arcDue FadeLoading
  | AHidden => arcDue HideLoading
  | AFlying => arcDue StartArc
  | AArriving => arcDue MarkArriving
  | ADelivered => arcDue MarkDelivered
  | AEstablished => arcDue ShowEstablished
  | AResolved => arcDue ResolveArc
  end.

(** The delays of the timers of the sequence that a timer of the sequence
    registers. *)
Definition arcSpawn (loading : bool) (t k : Task) : list Z :=
  match t, k with
  | FadeLoading, HideLoading => if loading then [500] else []
  | StartArc, MarkArriving => [Qfloor (inject_Z ARC_FLIGHT_TIME * ARRIVING_THRESHOLD)]
  | StartArc, MarkDelivered => [ARC_FLIGHT_TIME]
  | StartArc, ShowEstablished => [ARC_FLIGHT_TIME + 800]
  | StartArc, ResolveArc => [ARC_FLIGHT_TIME + 800 + CE_DISPLAY_TIME]
  | _, _ => []
  end.

(** The pending requests of the latency counter. *)
Definition latFrames (s : State) : list Frame :=
  filter (fun f => negb (is_draw f)) (frames s).

(** What the globe sequence reads and writes of a state. *)
Record ArcView := {
  avBuilt : bool;
  avConsole : list string;
  avStarted : bool;
  avSettled : bool;
  avOverlay : bool;
  avEstablished : bool;
  avArriving : bool;
  avDelivered : bool;
  avPacket : Content;
  avLoadingOpacity : StyleVal;
  avLoadingDisplay : StyleVal
}.

Definition arcView (s : State) : ArcView :=
  {| avBuilt := globeBuilt s;
     avConsole := console s;
     avStarted := arcStarted s;
     avSettled := settled s;
     avOverlay := classes s StatusOverlay Visible;
     avEstablished := classes s ConnectionEstablished Visible;
     avArriving := classes s StatPacket StatusArriving;
     avDelivered := classes s StatPacket StatusDelivered;
     avPacket := text s StatPacket;
     avLoadingOpacity := style s GlobeLoading Opacity;
     avLoadingDisplay := style s GlobeLoading Display |}.

Definition packetText (pg : Page) (p : ArcStep) : Content :=
  if (arcRank p <? 4)%nat then markupText pg StatPacket
  else if (arcRank p =? 4)%nat then Text "Arriving..."
  else Text "Delivered".

(** The page at a step of the sequence. *)
Definition arcOk (pg : Page) (p : ArcStep) (v : ArcView) : Prop :=
  avBuilt v = true /\ avConsole v = [] /\
  avStarted v = (3 <=? arcRank p)%nat /\
  avSettled v = (7 <=? arcRank p)%nat /\
  avOverlay v = (3 <=? arcRank p)%nat /\
  avEstablished v = (6 <=? arcRank p)%nat /\
  avArriving v = (arcRank p =? 4)%nat /\
  avDelivered v = (5 <=? arcRank p)%nat /\
  avPacket v = packetText pg p /\
  (hasLoading pg = true ->
   avLoadingOpacity v = Css (if (arcRank p =? 0)%nat then "" else "0") /\
   avLoadingDisplay v = Css (if (2 <=? arcRank p)%nat then "none" else "")).

(** The page while the globe has not been built: nothing of the sequence
    has happened; after the warning the promise is settled and the
    loading indicator is gone. *)
Definition noGlobeOk (pg : Page) (v : ArcView) : Prop :=
  avBuilt v = false /\ avStarted v = false /\
  avOverlay v = false /\ avEstablished v = false /\
  avArriving v = false /\ avDelivered v = false /\
  avPacket v = markupText pg StatPacket /\
  (avConsole v = [] \/ avConsole v = [giveUpWarning]) /\
  (avConsole v = [] ->
   avSettled v = false /\
   avLoadingOpacity v = Css EmptyString /\ avLoadingDisplay v = Css EmptyString) /\
  (avConsole v <> [] ->
   avSettled v = true /\
   (hasLoading pg = true ->
    avLoadingOpacity v = Css EmptyString /\ avLoadingDisplay v = Css "none")).

(** The counter: not started; running from the start of the arc, showing
    the markup's text or the eased value of a frame since; or stopped on
    the target. *)
Definition latOk (pg : Page) (p : ArcStep) (tb : Z) (y : Sys) : Prop :=
  if (arcRank p <? 3)%nat
  then latFrames (st y) = [] /\ text (st y) StatLatency = markupText pg StatLatency
  else
    (latFrames (st y) = [LatencyUpdate (tb + arcDue StartArc)] /\
     (text (st y) StatLatency = markupText pg StatLatency \/
      exists t, tb + arcDue StartArc <= t <= clock y /\
                text (st y) StatLatency
                = LocaleNumber (latencyValue (inject_Z (tb + arcDue StartArc))
                                             (inject_Z t)))) \/
    (latFrames (st y) = [] /\ text (st y) StatLatency = LocaleNumber DISTANCE_MILES).

(** A class that a timer sets: set since the timer was due, or not set
    while the timer is pending. *)
Definition setAt (due : Z) (k : Task) (e : Elem) (c : Class) (y : Sys) : Prop :=
  (classes (st y) e c = true /\ due <= clock y) \/
  (classes (st y) e c = false /\ In (due, k) (timers y)).

(** The two timers of [transitionToLetter] and the class that each sets. *)
Definition letterTimer (k : Task) (e : Elem) (c : Class) : Prop :=
  (k = AddRomantic /\ e = Body /\ c = RomanticPhase) \/
  (k = ActivateLetter /\ e = LetterPhase /\ c = Active).

(** The letter is not shown before the sequence has resolved; then it
    follows on time. *)
Definition letterOk (p : ArcStep) (tb : Z) (y : Sys) : Prop :=
  if (arcRank p <? 7)%nat
  then classes (st y) Body RomanticPhase = false /\
       classes (st y) LetterPhase Active = false
  else setAt (tb + arcDue ResolveArc + 600) AddRomantic Body RomanticPhase y /\
       setAt (tb + arcDue ResolveArc + 1200) ActivateLetter LetterPhase Active y.

Definition ArcAt (pg : Page) (tb : Z) (p : ArcStep) (y : Sys) : Prop :=
  (forall k, arcTask k = true ->
             pend k (timers y) = arcPend (hasLoading pg) p tb k) /\
  arcOk pg p (arcView (st y)) /\
  tb + arcSince p <= clock y /\
  latOk pg p tb y /\
  letterOk p tb y.

Definition NoGlobe (pg : Page) (y : Sys) : Prop :=
  (forall k, arcTask k = true -> pend k (timers y) = []) /\
  noGlobeOk pg (arcView (st y)) /\
  latFrames (st y) = [] /\
  text (st y) StatLatency = markupText pg StatLatency /\
  (settled (st y) = false ->
   classes (st y) Body RomanticPhase = false /\
   classes (st y) LetterPhase Active = false).

Definition ArcInv (pg : Page) (y : Sys) : Prop :=
  NoGlobe pg y \/ exists tb p, ArcAt pg tb p y.

(** The timers from the building of the globe to the letter. *)
Definition seqTask (k : Task) : bool :=
  match k with
  | AddRomantic | ActivateLetter => true
  | _ => arcTask k
  end.

Definition seqDue (k : Task) : Z :=
  match k with
  | AddRomantic => arcDue ResolveArc + 600
  | ActivateLetter => arcDue ResolveArc + 1200
  | _ => arcDue k
  end.

(** The two timers that only do something on a page with the loading
    indicator. *)
Definition needsLoading (k : Task) : bool :=
  match k with
  | FadeLoading | HideLoading => true
  | _ => false
  end.

(** What shows on the page that a timer of the sequence has run. *)
Definition arcDone (k : Task) (s : State) : Prop :=
  match k with
  | FadeLoading => style s GlobeLoading Opacity = Css "0"
  | HideLoading => style s GlobeLoading Display = Css "none"
  | StartArc => classes s StatusOverlay Visible = true
  | MarkArriving =>
      classes s StatPacket StatusArriving = true \/
      classes s StatPacket StatusDelivered = true
  | MarkDelivered => classes s StatPacket StatusDelivered = true
  | ShowEstablished => classes s ConnectionEstablished Visible = true
  | ResolveArc => settled s = true
  | AddRomantic => classes s Body RomanticPhase = true
  | ActivateLetter => classes s LetterPhase Active = true
  | _ => False
  end.

(** The step at which a timer of the sequence has run. *)
Definition arcReach (k : Task) : nat :=
  match k with
  | FadeLoading => 1 | HideLoading => 2 | StartArc => 3 | MarkArriving => 4
  | MarkDelivered => 5 | ShowEstablished => 6 | _ => 7
  end.

(** The globe script loads while the terminal is on the screen; the
    button is clicked at 4.4 s and the sequence runs to the letter. *)
Definition demoGlobe : list Event :=
  demoLanding ++ User 0 GlobeScriptLoaded :: User 3000 ClickBegin :: fires 12.

(** The same, up to the packet arriving, with two frames of the counter. *)
Definition demoArriving : list Event :=
  demoLanding ++ User 0 GlobeScriptLoaded :: User 3000 ClickBegin :: fires 4
  ++ [User 1000 NextFrame; Fire (1 # 4) (1 # 2); User 1000 NextFrame].

(** The script loads only after the page gave up waiting for it. *)
Definition demoLate : list Event :=
  demoBegin ++ [User 1 GlobeScriptLoaded; User 1 ClickBegin; Fire (1 # 4) (1 # 2)].

(** * Properties *)

Lemma append_assoc (a b c : string) : ((a ++ b) ++ c = a ++ (b ++ c))%string.
Proof. induction a as [|x a IH]; cbn; [reflexivity|now rewrite IH]. Qed.

Lemma padStart_twoDigits (n : Z) :
  0 <= n < 60 -> padStart 2 (jsString n) = twoDigits n.
Proof.
  intros H.
  assert (E : forall m : nat, (m < 60)%nat ->
            padStart 2 (jsString (Z.of_nat m)) = twoDigits (Z.of_nat m)).
  { intros m Hm.
    do 60 (destruct m as [|m]; [vm_compute; reflexivity|]).
    lia. }
  rewrite <- (Z2Nat.id n) by lia.
  apply E. lia.
Qed.

Lemma countdown_fields (diff : Z) :
  0 < diff ->
  countdownDays diff = diff / 86400000 /\
  countdownHours diff = (diff / 3600000) mod 24 /\
  countdownMinutes diff = (diff / 60000) mod 60 /\
  countdownSeconds diff = (diff / 1000) mod 60.
Proof.
  intros H.
  unfold countdownDays, countdownHours, countdownMinutes, countdownSeconds,
    floorDiv, jsRem.
  rewrite !Z.rem_mod_nonneg by lia.
  change (1000 * 60 * 60 * 24) with 86400000.
  change (1000 * 60 * 60) with 3600000.
  change (1000 * 60) with 60000.
  repeat split; try reflexivity; Z.div_mod_to_equations; lia.
Qed.

(** C5.  On every tick the countdown shows the completion message when
    no time remains, and otherwise the days (left out when zero), hours,
    minutes and seconds of the floor-division cascade, the last three
    with two digits; 90061000 ms before the target it shows
    1d 01h 01m 01s. *)
Theorem countdown_render (diff : Z) :
  countdownText diff = specCountdown diff /\
  countdownText 90061000 = "// Valentine's Day in 1d 01h 01m 01s"%string /\
  (forall pg now s,
      text (countdownUpdate pg now s) Countdown =
      Text (specCountdown (valentineDate - (epoch pg + now)))).
Proof.
  assert (E : forall d, countdownText d = specCountdown d).
  { intros d. unfold countdownText, specCountdown.
    destruct (Z.leb_spec d 0) as [Hle|Hgt]; [reflexivity|].
    destruct (countdown_fields d Hgt) as (Ed & Eh & Em & Es).
    unfold countdownParts.
    rewrite Ed, Eh, Em, Es.
    rewrite !padStart_twoDigits
      by (match goal with |- _ <= ?a mod ?b < _ =>
            pose proof (Z.mod_pos_bound a b); lia end).
    assert (Hd : 0 <= d / 86400000) by (apply Z.div_pos; lia).
    destruct (Z.eqb_spec (d / 86400000) 0) as [E0|N0].
    - rewrite E0. cbn. reflexivity.
    - destruct (Z.ltb_spec 0 (d / 86400000)); [|lia].
      cbn. rewrite !append_assoc. reflexivity. }
  split; [apply E|split; [vm_compute; reflexivity|]].
  intros pg now s. unfold countdownUpdate, setText.
  cbn [text set_text Elem_beq]. now rewrite E.
Qed.

Local Open Scope Q_scope.
Lemma jsRound_comp (a b : Q) : a == b -> jsRound a = jsRound b.
Proof. intros E. unfold jsRound. apply Qfloor_comp. now rewrite E. Qed.

Lemma countDuration_value : countDuration == 5600.
Proof. vm_compute. reflexivity. Qed.

Lemma clampUnit_progress (start now : Q) :
  start <= now -> clampUnit ((now - start) / countDuration) == progressAt start now.
Proof.
  intros H. unfold clampUnit, progressAt.
  apply Q.max_r.
  apply Q.min_glb; [|discriminate].
  apply Qle_shift_div_l; [rewrite countDuration_value; reflexivity|].
  rewrite Qmult_0_l. lra.
Qed.

Lemma progress_complete (start now : Q) :
  countDuration <= now - start -> progressAt start now == 1.
Proof.
  intros H. unfold progressAt. apply Q.min_r.
  apply Qle_shift_div_l; [rewrite countDuration_value; reflexivity|].
  rewrite Qmult_1_l. exact H.
Qed.

Lemma latency_value_eased (start now : Q) :
  start <= now ->
  latencyValue start now = specCounter (now - start) /\
  countDuration == (8 # 10) * inject_Z ARC_FLIGHT_TIME /\
  (countDuration <= now - start -> latencyValue start now = DISTANCE_MILES) /\
  (forall (t0 t1 : Z) (s : State),
      (t0 <= t1)%Z ->
      text (latencyUpdate t0 t1 s) StatLatency =
      LocaleNumber (specCounter (inject_Z t1 - inject_Z t0))).
Proof.
  assert (E : forall a b, a <= b -> latencyValue a b = specCounter (b - a)).
  { intros a b H. unfold latencyValue, specCounter, easeOutCubic.
    apply jsRound_comp.
    rewrite (clampUnit_progress a b H). reflexivity. }
  intros H. split; [now apply E|split; [|split]].
  - vm_compute. reflexivity.
  - intros Hd. unfold latencyValue, easeOutCubic.
    transitivity (jsRound (inject_Z DISTANCE_MILES)); [|vm_compute; reflexivity].
    apply jsRound_comp.
    rewrite (progress_complete start now Hd).
    vm_compute. reflexivity.
  - intros t0 t1 s Ht. unfold latencyUpdate.
    destruct (Qlt_le_dec _ _); unfold requestAnimationFrame, setText;
      cbn [text set_text set_frames Elem_beq];
      rewrite E; auto; now rewrite <- Zle_Qle.
Qed.

Lemma dodgeMaxX_nonneg (width : Z) : (0 <= width)%Z -> 0 <= dodgeMaxX width.
Proof.
  intros H. unfold dodgeMaxX. apply Q.min_glb; [discriminate|].
  apply Qmult_le_0_compat; [|discriminate].
  change 0 with (inject_Z 0). now rewrite <- Zle_Qle.
Qed.

Theorem dodge_offset_bounded (width : Z) (r1 r2 : Q) :
  (0 <= width)%Z -> 0 <= r1 < 1 -> 0 <= r2 < 1 ->
  Qabs (fst (dodgeOffset width r1 r2)) <= Qmin 60 (inject_Z width * (1 # 10)) /\
  - (50) <= snd (dodgeOffset width r1 r2) <= - (20).
Proof.
  intros Hw [H1 H1'] [H2 H2'].
  pose proof (dodgeMaxX_nonneg width Hw) as Hm.
  unfold dodgeOffset; cbn [fst snd].
  fold (dodgeMaxX width).
  set (m := dodgeMaxX width) in *.
  split.
  - apply Qabs_Qle_condition. split; nra.
  - split; lra.
Qed.
Local Close Scope Q_scope.

(** Case analysis on the tests a handler makes. *)
Ltac handler_cases :=
  unfold handleBegin, initGlobe, waitForGlobe, buildGlobe, fadeLoading, resolve,
    transitionToLetter, transitionToGlobe, finish, handleAccept, andThen, confetti,
    latencyUpdate, draw in *;
  repeat match goal with
         | |- context [if ?b then _ else _] => destruct b eqn:?
         end;
  cbn.

Section Runs.

Variable pg : Page.

Lemma run_app (tr1 tr2 : list Event) (y : Sys) :
  run pg (tr1 ++ tr2) y =
  match run pg tr1 y with Some y' => run pg tr2 y' | None => None end.
Proof.
  revert y. induction tr1 as [|e tr1 IH]; intros y; cbn; [reflexivity|].
  destruct (step pg e y); [apply IH|reflexivity].
Qed.

(** Induction over the events of a run. *)
Lemma run_invariant (P : Sys -> Prop) (tr : list Event) (y y' : Sys) :
  (forall e a b, P a -> step pg e a = Some b -> P b) ->
  P y -> run pg tr y = Some y' -> P y'.
Proof.
  intros Hstep. revert y. induction tr as [|e tr IH]; intros y Hy Hrun; cbn in Hrun.
  - now inversion Hrun; subst.
  - destruct (step pg e y) as [b|] eqn:E; [|discriminate].
    eapply IH; [|exact Hrun]. eapply Hstep; eauto.
Qed.

(** *** The timer queue *)

Lemma popMin_split (q : list (Z * Task)) (m : Z * Task) (r : list (Z * Task)) :
  popMin q = Some (m, r) ->
  exists l1 l2, q = l1 ++ m :: l2 /\ r = l1 ++ l2 /\
                Forall (fun e => fst m <= fst e) q.
Proof.
  revert m r. induction q as [|e q IH]; intros m r H; cbn in H; [discriminate|].
  destruct (popMin q) as [[m' r']|] eqn:E.
  - destruct (IH m' r' eq_refl) as (l1 & l2 & Hq & Hr & Hall).
    destruct (Z.ltb_spec (fst m') (fst e)) as [Hlt|Hge]; inversion H; subst m r.
    + exists (e :: l1), l2. subst q r'. repeat split.
      constructor; [lia|exact Hall].
    + exists [], q. repeat split. constructor; [lia|].
      eapply Forall_impl; [|exact Hall]. cbn. intros; lia.
  - destruct q; [|cbn in E; destruct (popMin q) as [[? ?]|]; 
                  [destruct (_ <? _)|]; discriminate].
    inversion H; subst. exists [], []. repeat split. constructor; [lia|constructor].
Qed.

Lemma pend_app (k : Task) (a b : list (Z * Task)) :
  pend k (a ++ b) = pend k a ++ pend k b.
Proof. unfold pend. now rewrite filter_app, map_app. Qed.

Lemma pend_in (k : Task) (q : list (Z * Task)) (d : Z) :
  In d (pend k q) -> In (d, k) q.
Proof.
  unfold pend. rewrite in_map_iff. intros ([d' k'] & E & H).
  apply filter_In in H as [H B]. cbn in *. subst.
  apply internal_Task_dec_bl in B. now subst.
Qed.

Lemma in_pend (k : Task) (q : list (Z * Task)) (d : Z) :
  In (d, k) q -> In d (pend k q).
Proof.
  intros H. unfold pend. apply in_map_iff. exists (d, k). split; [reflexivity|].
  apply filter_In. split; [exact H|]. cbn. now apply internal_Task_dec_lb.
Qed.

Lemma pend_pop (q r : list (Z * Task)) (d : Z) (t k : Task) :
  popMin q = Some ((d, t), r) ->
  exists a b, pend k q = a ++ (if Task_beq t k then [d] else []) ++ b /\
              pend k r = a ++ b /\
              Forall (fun x => d <= x) (pend k q).
Proof.
  intros H. apply popMin_split in H as (l1 & l2 & Hq & Hr & Hall).
  exists (pend k l1), (pend k l2). subst q r. repeat split.
  - rewrite pend_app. f_equal. unfold pend. cbn. now destruct (Task_beq t k).
  - apply pend_app.
  - apply Forall_forall. intros x Hx. apply pend_in in Hx.
    rewrite Forall_forall in Hall. apply (Hall _ Hx).
Qed.

Lemma pend_pop_nil (q r : list (Z * Task)) (d : Z) (t k : Task) :
  popMin q = Some ((d, t), r) -> pend k q = [] ->
  pend k r = [] /\ Task_beq t k = false.
Proof.
  intros H E. destruct (pend_pop q r d t k H) as (a & b & Hq & Hr & _).
  rewrite E in Hq. destruct a; [|discriminate]. cbn in Hq.
  destruct (Task_beq t k); [discriminate|]. cbn in Hq. now subst.
Qed.

Lemma single_split {A : Type} (x d : A) (a b : list A) :
  [x] = a ++ d :: b -> a = [] /\ b = [] /\ x = d.
Proof.
  destruct a as [|h a]; cbn; intros H; inversion H; subst; [auto|].
  destruct a; discriminate.
Qed.

Lemma pend_pop_single (q r : list (Z * Task)) (d x : Z) (t k : Task) :
  popMin q = Some ((d, t), r) -> pend k q = [x] ->
  pend k r = (if Task_beq t k then [] else [x]) /\ d <= x /\
  (Task_beq t k = true -> d = x).
Proof.
  intros H E. destruct (pend_pop q r d t k H) as (a & b & Hq & Hr & Hall).
  rewrite E in Hq, Hall. inversion Hall; subst.
  destruct (Task_beq t k); cbn in Hq.
  - apply single_split in Hq as (-> & -> & ->). auto.
  - rewrite <- Hq in Hr. repeat split; [exact Hr|assumption|discriminate].
Qed.

(** *** Between turns *)

Lemma flush_settled (now : Z) (q : list (Z * Task)) (s : State) :
  Forall (fun e => now <= fst e) q -> settledTurn (flush now q s).
Proof.
  intros H. split; [reflexivity|]. cbn.
  apply Forall_app. split; [exact H|].
  apply Forall_forall. intros e He. apply in_map_iff in He as (e' & <- & _).
  cbn. lia.
Qed.

Lemma step_settled (e : Event) (a b : Sys) :
  step pg e a = Some b -> settledTurn b.
Proof.
  destruct e as [r1 r2|d u]; cbn; intros H.
  - destruct (popMin (timers a)) as [[[due t] rest]|] eqn:E; [|discriminate].
    inversion H; subst. apply flush_settled.
    apply popMin_split in E as (l1 & l2 & Hq & Hr & Hall). subst rest.
    rewrite Hq in Hall. apply Forall_app in Hall as [H1 H2].
    inversion H2; subst. apply Forall_app. now split.
  - destruct (0 <=? d) eqn:Hd; [|discriminate]. cbn in H.
    destruct (forallb _ _) eqn:F; [|discriminate].
    inversion H; subst. apply flush_settled.
    rewrite forallb_forall in F. apply Forall_forall. intros e He.
    specialize (F e He). lia.
Qed.

Lemma start_settled : settledTurn (start pg).
Proof. apply flush_settled. constructor. Qed.

Lemma reachable_settled (tr : list Event) (y : Sys) :
  run pg tr (start pg) = Some y -> settledTurn y.
Proof.
  intros H. destruct tr as [|e tr] using rev_ind.
  - inversion H; subst. apply start_settled.
  - rewrite run_app in H. destruct (run pg tr (start pg)) as [a|]; [|discriminate].
    cbn in H. destruct (step pg e a) eqn:E; [|discriminate].
    inversion H; subst. eapply step_settled; eauto.
Qed.

Lemma step_clock (e : Event) (a b : Sys) :
  settledTurn a -> step pg e a = Some b -> clock a <= clock b.
Proof.
  intros [_ Hq]. destruct e as [r1 r2|d u]; cbn; intros H.
  - destruct (popMin (timers a)) as [[[due t] rest]|] eqn:E; [|discriminate].
    inversion H; subst. cbn.
    apply popMin_split in E as (l1 & l2 & Hqq & _ & _).
    rewrite Hqq in Hq. apply Forall_app in Hq as [_ H2]. now inversion H2.
  - destruct (0 <=? d) eqn:Hd; [|discriminate]. cbn in H.
    destruct (forallb _ _); [|discriminate]. inversion H; subst. cbn. lia.
Qed.

End Runs.

(** *** What a turn does to the orchestrator's view *)


Lemma typeChar_tasks (next : Typewriter -> TwResult) (i : nat) (t : Typewriter) :
  (forall t', orchOnly (snd (next t')) = []) ->
  orchOnly (snd (typeChar next i t)) = [].
Proof.
  intros Hn. unfold typeChar.
  repeat match goal with
         | |- context [if ?b then _ else _] => destruct b
         | |- context [match ?x with _ => _ end] => destruct x
         end; cbn; auto.
Qed.

Lemma typeNextParagraphAt_tasks (depth : nat) (t : Typewriter) :
  orchOnly (snd (typeNextParagraphAt depth t)) = [].
Proof.
  revert t. induction depth as [|d IH]; intros t; cbn;
    destruct (_ <=? _)%nat; try reflexivity.
  apply typeChar_tasks. exact IH.
Qed.

Lemma twCallback_tasks (k : Task) (t : Typewriter) :
  orchOnly (snd (twCallback k t)) = [].
Proof.
  destruct k; try reflexivity; cbn [twCallback]; unfold typeNextParagraph.
  - apply typeNextParagraphAt_tasks.
  - apply typeChar_tasks. apply typeNextParagraphAt_tasks.
Qed.

Lemma startTypewriter_tasks (t : Typewriter) :
  orchOnly (snd (startTypewriter t)) = [].
Proof. unfold startTypewriter. destruct (target t) as [[|p ps]|]; reflexivity. Qed.

Arguments twCallback : simpl never.
Arguments startTypewriter : simpl never.

Ltac view_simpl :=
  unfold view, phaseOps, beginClickable; cbn;
  rewrite ?filter_app; cbn; rewrite ?app_nil_r;
  fold orchOnly;
  rewrite ?twCallback_tasks, ?startTypewriter_tasks, ?typeNextParagraphAt_tasks,
    ?app_nil_r;
  try (apply typeChar_tasks; apply typeNextParagraphAt_tasks);
  try reflexivity.

Section Views.

Variable pg : Page.

Lemma view_runTask_other (now : Z) (r1 r2 : Q) (t : Task) (s : State) :
  orch t = false -> view (runTask pg now r1 r2 t s) = view s.
Proof.
  intros H. destruct t; try discriminate H; cbn [runTask];
    handler_cases; view_simpl.
Qed.

Lemma view_runFrame (now : Z) (f : Frame) (s : State) :
  view (runFrame now f s) = view s.
Proof. destruct f; cbn [runFrame]; handler_cases; view_simpl. Qed.

Lemma view_animationFrame (now : Z) (s : State) :
  view (animationFrame now s) = view s.
Proof.
  unfold animationFrame.
  change (view s) with (view (set_frames [] s)).
  generalize (set_frames [] s) as acc.
  induction (frames s) as [|f fs IH]; intros acc; cbn [fold_left]; [reflexivity|].
  rewrite IH. apply view_runFrame.
Qed.

Lemma view_handleRetry (s : State) : view (handleRetry s) = view s.
Proof.
  unfold handleRetry.
  repeat match goal with
         | |- context [if ?b then _ else _] => destruct b
         end; view_simpl.
Qed.

Lemma view_runUser_other (now : Z) (u : UserEvent) (s : State) :
  u <> ClickBegin -> view (runUser pg now u s) = view s.
Proof.
  intros H. destruct u; try congruence; cbn [runUser].
  - destruct (askClickable s); [|reflexivity]. handler_cases; view_simpl.
  - destruct (askClickable s); [|reflexivity]. apply view_handleRetry.
  - apply view_animationFrame.
  - reflexivity.
  - reflexivity.
Qed.

End Views.

(** *** The stages of the begin sequence *)

Arguments Z.mul : simpl never.
Arguments Z.add : simpl never.
Arguments Z.sub : simpl never.
Arguments Z.max : simpl never.
Arguments Z.of_nat : simpl never.
Arguments pend : simpl never.



Lemma pend_shift_orch (now : Z) (k : Task) (out : list (Z * Task)) :
  orch k = true ->
  pend k (map (shift now) out) = pend k (map (shift now) (orchOnly out)).
Proof.
  intros Hk. induction out as [|[dl t] out IH]; [reflexivity|].
  cbn. destruct (orch t) eqn:Ho; cbn.
  - unfold pend in *. cbn. destruct (Task_beq t k); cbn; now rewrite IH.
  - unfold pend in *. cbn.
    destruct (Task_beq t k) eqn:B; [|exact IH].
    apply internal_Task_dec_bl in B. congruence.
Qed.

Lemma pend_quiet (now : Z) (k : Task) (out : list (Z * Task)) :
  orch k = true -> orchOnly out = [] ->
  pend k (map (fun e => (now + Z.max 0 (fst e), snd e)) out) = [].
Proof.
  intros Hk Ho. change (pend k (map (shift now) out) = []).
  rewrite pend_shift_orch by exact Hk. now rewrite Ho.
Qed.

Lemma pend_flush (now : Z) (q : list (Z * Task)) (s : State) (k : Task) :
  orch k = true ->
  pend k (timers (flush now q s)) =
  pend k q ++ pend k (map (shift now) (vOut (view s))).
Proof.
  intros Hk. cbn [flush timers]. rewrite pend_app. f_equal.
  apply (pend_shift_orch now k (outbox s) Hk).
Qed.

Lemma stagePend_short (g : Stage) (n : nat) (k : Task) :
  (List.length (stagePend g n k) <= 1)%nat.
Proof.
  destruct g as [|t0 [|]|t0 ts [|]|t0 tr|t0 te [|[|fired]]], k; cbn; lia.
Qed.

Lemma pend_after_pop (q r : list (Z * Task)) (d : Z) (t k : Task) (l : list Z) :
  popMin q = Some ((d, t), r) -> pend k q = l -> (List.length l <= 1)%nat ->
  pend k r = (if Task_beq t k then [] else l) /\
  (Task_beq t k = true -> l = [d]) /\
  Forall (fun x => d <= x) l.
Proof.
  intros Hpop E Hl. destruct l as [|x [|x' l]]; [| |cbn in Hl; lia].
  - destruct (pend_pop_nil q r d t k Hpop E) as [Hr B].
    rewrite B. repeat split; [exact Hr|discriminate|constructor].
  - destruct (pend_pop_single q r d x t k Hpop E) as (Hr & Hle & Hd).
    repeat split; [exact Hr| |constructor; [exact Hle|constructor]].
    intros B. now rewrite (Hd B).
Qed.

Lemma stageSide_later (g : Stage) (c c' : Z) (v : View) :
  c <= c' -> stageSide g c v -> stageSide g c' v.
Proof.
  intros Hc. destruct g; cbn; intuition lia.
Qed.

Lemma orch_beq_false (t k : Task) :
  orch t = false -> orch k = true -> Task_beq t k = false.
Proof.
  intros Ht Hk. destruct (Task_beq t k) eqn:B; [|reflexivity].
  apply internal_Task_dec_bl in B. congruence.
Qed.

Section Stages.

Variable pg : Page.

Lemma step_cases (e : Event) (a b : Sys) :
  settledTurn a -> step pg e a = Some b ->
  (exists r1 r2 d t rest,
      e = Fire r1 r2 /\ popMin (timers a) = Some ((d, t), rest) /\
      clock a <= d /\ b = flush d rest (runTask pg d r1 r2 t (st a))) \/
  (exists d u,
      e = User d u /\ 0 <= d /\
      b = flush (clock a + d) (timers a) (runUser pg (clock a + d) u (st a))).
Proof.
  intros Ha H. pose proof (step_clock pg e a b Ha H) as Hc.
  destruct e as [r1 r2|d u]; cbn in H.
  - left. destruct (popMin (timers a)) as [[[due t] rest]|] eqn:E; [|discriminate].
    inversion H; subst. exists r1, r2, due, t, rest. auto.
  - right. destruct (0 <=? d) eqn:Hd; [|discriminate]. cbn in H.
    destruct (forallb _ _); [|discriminate]. inversion H; subst.
    exists d, u. repeat split. lia.
Qed.

(** A turn that leaves the view alone leaves the stage alone. *)
Lemma stage_kept (g : Stage) (a : Sys) (now : Z) (q : list (Z * Task)) (s : State) :
  settledTurn a -> inStage g a ->
  clock a <= now ->
  view s = view (st a) ->
  (forall k, orch k = true -> pend k q = pend k (timers a)) ->
  inStage g (flush now q s).
Proof.
  intros [Hout _] (Hops & Hpend & Hside) Hc Hv Hq.
  assert (Hv' : view (st (flush now q s)) = view (st a)).
  { cbn [flush st]. rewrite <- Hv. unfold view; cbn.
    replace (filter _ (outbox s)) with (vOut (view s)) by reflexivity.
    rewrite Hv. unfold view; cbn. rewrite Hout. reflexivity. }
  unfold inStage. rewrite Hv'. split; [exact Hops|split].
  - intros k Hk. rewrite pend_flush by exact Hk.
    rewrite Hv. unfold view at 1; cbn [vOut]. rewrite Hout. cbn.
    rewrite app_nil_r, Hq by exact Hk. now apply Hpend.
  - cbn [flush clock]. eapply stageSide_later; eauto.
Qed.

Lemma fire_other (g : Stage) (a : Sys) (d : Z) (t : Task) (rest : list (Z * Task))
  (r1 r2 : Q) :
  settledTurn a -> inStage g a ->
  popMin (timers a) = Some ((d, t), rest) -> clock a <= d ->
  orch t = false ->
  inStage g (flush d rest (runTask pg d r1 r2 t (st a))).
Proof.
  intros Ha Hg Hpop Hc Ht.
  apply (stage_kept g a); auto.
  - now apply view_runTask_other.
  - intros k Hk.
    destruct (pend_pop (timers a) rest d t k Hpop) as (x & y & Hq & Hr & _).
    rewrite (orch_beq_false t k Ht Hk) in Hq. now rewrite Hq, Hr.
Qed.

Lemma user_other (g : Stage) (a : Sys) (d : Z) (u : UserEvent) :
  settledTurn a -> inStage g a -> 0 <= d -> u <> ClickBegin ->
  inStage g (flush (clock a + d) (timers a) (runUser pg (clock a + d) u (st a))).
Proof.
  intros Ha Hg Hd Hu.
  apply (stage_kept g a); auto; [lia|].
  now apply view_runUser_other.
Qed.

(** Everything the stage says about the queue once its first timer is
    taken out. *)
Ltac after_pop Hg Hpop :=
  let Hops := fresh "Hops" in
  let Hpend := fresh "Hpend" in
  let Hside := fresh "Hside" in
  destruct Hg as (Hops & Hpend & Hside);
  pose proof (pend_after_pop _ _ _ _ ActivateGlobe _ Hpop (Hpend ActivateGlobe eq_refl) (stagePend_short _ _ _)) as (?PA & ?TA & ?LA);
  pose proof (pend_after_pop _ _ _ _ WaitForGlobe _ Hpop (Hpend WaitForGlobe eq_refl) (stagePend_short _ _ _)) as (?PW & ?TW & ?LW);
  pose proof (pend_after_pop _ _ _ _ StartArc _ Hpop (Hpend StartArc eq_refl) (stagePend_short _ _ _)) as (?PS & ?TS & ?LS);
  pose proof (pend_after_pop _ _ _ _ ResolveArc _ Hpop (Hpend ResolveArc eq_refl) (stagePend_short _ _ _)) as (?PR & ?TR & ?LR);
  pose proof (pend_after_pop _ _ _ _ AddRomantic _ Hpop (Hpend AddRomantic eq_refl) (stagePend_short _ _ _)) as (?PM & ?TM & ?LM);
  pose proof (pend_after_pop _ _ _ _ ActivateLetter _ Hpop (Hpend ActivateLetter eq_refl) (stagePend_short _ _ _)) as (?PL & ?TL & ?LL);
  clear Hpend.

Ltac tidy :=
  cbn [stagePend Task_beq] in *;
  repeat match goal with
         | H : false = true -> _ |- _ => clear H
         | H : true = true -> _ |- _ => specialize (H eq_refl)
         | H : Forall _ [] |- _ => clear H
         | H : Forall _ [_] |- _ => apply Forall_inv in H
         | H : [] = [_] |- _ => discriminate H
         | H : [_] = [_] |- _ => injection H as H
         end.

Ltac use_pend :=
  repeat match goal with
         | H : pend ?k ?r = _ |- context [pend ?k ?r] => rewrite H
         end.

(** Closes [inStage g b] once the handler has been unfolded. *)
Ltac stage_goal Hout Hops :=
  unfold inStage, view, phaseOps, beginClickable in *; cbn in *;
  rewrite ?Hout; cbn; rewrite ?filter_app, ?Hops; cbn;
  rewrite ?startTypewriter_tasks; cbn;
  split; [try reflexivity|split];
  [ let k := fresh "k" in
    let Hk := fresh "Hk" in
    intros k Hk; rewrite ?pend_app, ?map_app, ?pend_app;
    destruct k; try discriminate Hk; cbn; use_pend; cbn;
    rewrite ?pend_quiet by (reflexivity || apply startTypewriter_tasks);
    unfold pend; cbn;
    try reflexivity; try (f_equal; lia)
  | try (intuition (try lia; try congruence)) ].

Lemma fire_ActivateGlobe (g : Stage) (a : Sys) (d : Z) (rest : list (Z * Task))
  (r1 r2 : Q) :
  settledTurn a -> inStage g a ->
  popMin (timers a) = Some ((d, ActivateGlobe), rest) -> clock a <= d ->
  exists g', inStage g' (flush d rest (runTask pg d r1 r2 ActivateGlobe (st a))) /\ begunAt g' = begunAt g.
Proof.
  intros [Hout Hdue] Hg Hpop Hc.
  after_pop Hg Hpop.
  destruct g as [|t0 [|]|t0 ts [|]|t0 tr|t0 te [|[|fired]]]; tidy.
  - exists (Polling t0 true). split; [|reflexivity]. stage_goal Hout Hops.
  - exists (Settling t0 ts true). split; [|reflexivity]. stage_goal Hout Hops.
Qed.

Lemma fire_WaitForGlobe (g : Stage) (a : Sys) (d : Z) (rest : list (Z * Task))
  (r1 r2 : Q) :
  settledTurn a -> inStage g a ->
  popMin (timers a) = Some ((d, WaitForGlobe), rest) -> clock a <= d ->
  exists g', inStage g' (flush d rest (runTask pg d r1 r2 WaitForGlobe (st a))) /\ begunAt g' = begunAt g.
Proof.
  intros [Hout Hdue] Hg Hpop Hc.
  after_pop Hg Hpop.
  destruct g as [|t0 shown|t0 ts [|]|t0 tr|t0 te [|[|fired]]]; tidy;
    try (destruct shown; tidy; discriminate).
  assert (Hs : settled (st a) = false /\ globeBuilt (st a) = false /\
               console (st a) = [] /\ (1 <= waitAttempts (st a) <= 50)%nat)
    by (cbn in Hside; intuition).
  destruct Hs as (Hs & Hb & Hcon & Hk1).
  cbn [runTask]. unfold waitForGlobe.
  destruct (globeLoaded (st a)) eqn:Hl.
  - exists (Settling t0 (d + 1500) shown). split; [|reflexivity].
    destruct shown; tidy; unfold buildGlobe; stage_goal Hout Hops.
  - destruct (Nat.ltb_spec (waitAttempts (st a)) 50) as [Hlt|Hge].
    + exists (Polling t0 shown). split; [|reflexivity].
      destruct shown; tidy; stage_goal Hout Hops.
    + assert (E : waitAttempts (st a) = 50%nat) by lia.
      destruct shown; tidy; [|rewrite E in *; lia].
      exists (Leaving t0 d 0). split; [|reflexivity].
      destruct (hasLoading pg); unfold resolve; cbn; rewrite Hs;
        unfold transitionToLetter; stage_goal Hout Hops;
        rewrite Hcon; reflexivity.
Qed.

Lemma fire_StartArc (g : Stage) (a : Sys) (d : Z) (rest : list (Z * Task))
  (r1 r2 : Q) :
  settledTurn a -> inStage g a ->
  popMin (timers a) = Some ((d, StartArc), rest) -> clock a <= d ->
  exists g', inStage g' (flush d rest (runTask pg d r1 r2 StartArc (st a))) /\ begunAt g' = begunAt g.
Proof.
  intros [Hout Hdue] Hg Hpop Hc.
  after_pop Hg Hpop.
  destruct g as [|t0 [|]|t0 ts [|]|t0 tr|t0 te [|[|fired]]]; tidy.
  - exists (Flying t0 (d + 10300)). split; [|reflexivity].
    cbn [runTask]. unfold startArc, scheduleStatusUpdates, animateLatencyCounter.
    stage_goal Hout Hops.
  - cbn in Hside. lia.
Qed.

Lemma fire_ResolveArc (g : Stage) (a : Sys) (d : Z) (rest : list (Z * Task))
  (r1 r2 : Q) :
  settledTurn a -> inStage g a ->
  popMin (timers a) = Some ((d, ResolveArc), rest) -> clock a <= d ->
  exists g', inStage g' (flush d rest (runTask pg d r1 r2 ResolveArc (st a))) /\ begunAt g' = begunAt g.
Proof.
  intros [Hout Hdue] Hg Hpop Hc.
  after_pop Hg Hpop.
  destruct g as [|t0 [|]|t0 ts [|]|t0 tr|t0 te [|[|fired]]]; tidy.
  exists (Leaving t0 d 0). split; [|reflexivity].
  assert (Hs : settled (st a) = false) by (cbn in Hside; intuition).
  cbn [runTask]. unfold resolve. rewrite Hs. unfold transitionToLetter.
  stage_goal Hout Hops.
Qed.

Lemma fire_AddRomantic (g : Stage) (a : Sys) (d : Z) (rest : list (Z * Task))
  (r1 r2 : Q) :
  settledTurn a -> inStage g a ->
  popMin (timers a) = Some ((d, AddRomantic), rest) -> clock a <= d ->
  exists g', inStage g' (flush d rest (runTask pg d r1 r2 AddRomantic (st a))) /\ begunAt g' = begunAt g.
Proof.
  intros [Hout Hdue] Hg Hpop Hc.
  after_pop Hg Hpop.
  destruct g as [|t0 [|]|t0 ts [|]|t0 tr|t0 te [|[|fired]]]; tidy.
  exists (Leaving t0 te 1). split; [|reflexivity]. stage_goal Hout Hops.
Qed.

Lemma fire_ActivateLetter (g : Stage) (a : Sys) (d : Z) (rest : list (Z * Task))
  (r1 r2 : Q) :
  settledTurn a -> inStage g a ->
  popMin (timers a) = Some ((d, ActivateLetter), rest) -> clock a <= d ->
  exists g', inStage g' (flush d rest (runTask pg d r1 r2 ActivateLetter (st a))) /\ begunAt g' = begunAt g.
Proof.
  intros [Hout Hdue] Hg Hpop Hc.
  after_pop Hg Hpop.
  destruct g as [|t0 [|]|t0 ts [|]|t0 tr|t0 te [|[|fired]]]; tidy; [lia|].
  exists (Leaving t0 te 2). split; [|reflexivity].
  cbn [runTask]. unfold activateLetter, startCountdown, createAmbientParticles.
  stage_goal Hout Hops.
Qed.

Lemma user_begin (g : Stage) (a : Sys) (d : Z) :
  settledTurn a -> inStage g a -> 0 <= d ->
  exists g',
    inStage g' (flush (clock a + d) (timers a)
                      (runUser pg (clock a + d) ClickBegin (st a))) /\
    begunAt g' = if beginClickable (st a) then Some (clock a + d) else begunAt g.
Proof.
  intros Ha Hg Hd. cbn [runUser].
  destruct (beginClickable (st a)) eqn:Hb.
  - destruct Ha as [Hout Hdue]. destruct Hg as (Hops & Hpend & Hside).
    destruct g as [|t0 shown|t0 ts shown|t0 tr|t0 te fired];
      try (cbn in Hside; unfold view in Hside; cbn in Hside;
           destruct Hside as [Hside _]; congruence).
    pose proof (Hpend ActivateGlobe eq_refl) as PA.
    pose proof (Hpend WaitForGlobe eq_refl) as PW.
    pose proof (Hpend StartArc eq_refl) as PS.
    pose proof (Hpend ResolveArc eq_refl) as PR.
    pose proof (Hpend AddRomantic eq_refl) as PM.
    pose proof (Hpend ActivateLetter eq_refl) as PL.
    clear Hpend. cbn [stagePend] in *.
    unfold handleBegin, initGlobe, transitionToGlobe, waitForGlobe.
    cbn [globeLoaded set_waitAttempts set_settled setTimeout classRemove set_dom
         set_outbox waitAttempts].
    assert (Hl : forall s, globeLoaded (if hasCanvas pg then cancelDraw s else s) =
                           globeLoaded s) by (intros; destruct (hasCanvas pg); reflexivity).
    rewrite Hl. cbn [globeLoaded setStyle set_style].
    destruct (globeLoaded (st a)) eqn:Hgl.
    + exists (Settling (clock a + d) (clock a + d + 1500) false).
      split; [|reflexivity].
      unfold buildGlobe. destruct (hasCanvas pg); stage_goal Hout Hops.
    + exists (Polling (clock a + d) false). split; [|reflexivity].
      destruct (hasCanvas pg); stage_goal Hout Hops.
  - exists g. split; [|reflexivity]. apply (stage_kept g a); auto; lia.
Qed.

Lemma stage_step (e : Event) (g : Stage) (a b : Sys) :
  settledTurn a -> inStage g a -> step pg e a = Some b ->
  exists g', inStage g' b /\ begunAt g' = begunAfter e a g.
Proof.
  intros Ha Hg H.
  destruct (step_cases e a b Ha H)
    as [(r1 & r2 & d & t & rest & -> & Hpop & Hc & ->)|(d & u & -> & Hd & ->)].
  - cbn [begunAfter]. destruct (orch t) eqn:Ho.
    + destruct t; try discriminate Ho.
      * eapply fire_ActivateGlobe; eauto.
      * eapply fire_AddRomantic; eauto.
      * eapply fire_ActivateLetter; eauto.
      * eapply fire_WaitForGlobe; eauto.
      * eapply fire_StartArc; eauto.
      * eapply fire_ResolveArc; eauto.
    + exists g. split; [now apply fire_other|reflexivity].
  - destruct u;
      try (exists g; split; [apply user_other; auto; discriminate|reflexivity]).
    now apply (user_begin g).
Qed.

Lemma view_setTimeout (t : Task) (dl : Z) (s : State) :
  orch t = false -> view (setTimeout t dl s) = view s.
Proof.
  intros H. unfold view, phaseOps, beginClickable; cbn.
  rewrite filter_app; cbn. rewrite H, app_nil_r. reflexivity.
Qed.

Lemma view_animateLines (ds : list (option Z)) (i : nat) (s : State) :
  view (animateLines i ds s) = view s.
Proof.
  revert i s. induction ds as [|d0 ds IH]; intros i s; cbn [animateLines];
    [reflexivity|].
  rewrite IH. now apply view_setTimeout.
Qed.

Lemma view_init (s : State) : view (init pg s) = view s.
Proof.
  unfold init, animateTerminal.
  rewrite view_setTimeout by reflexivity.
  rewrite view_animateLines.
  unfold initStarfield. destruct (hasCanvas pg); reflexivity.
Qed.

Lemma start_idle : inStage Idle (start pg).
Proof.
  pose proof (view_init (markup pg)) as Hv.
  unfold start, inStage.
  assert (Hv' : view (st (flush 0 [] (init pg (markup pg)))) = view (markup pg)).
  { cbn [flush st]. rewrite <- Hv. unfold view. cbn. f_equal.
    change ([] = vOut (view (init pg (markup pg)))). now rewrite Hv. }
  rewrite Hv'. split; [reflexivity|split].
  - intros k Hk. rewrite pend_flush by exact Hk. rewrite Hv. reflexivity.
  - cbn. auto.
Qed.

Lemma reachable_stage (tr : list Event) (y : Sys) :
  run pg tr (start pg) = Some y -> settledTurn y /\ exists g, inStage g y.
Proof.
  intros H.
  apply (run_invariant pg (fun y => settledTurn y /\ exists g, inStage g y)
           tr (start pg) y); [| |exact H].
  - intros e a b [Ha [g Hg]] Hs. split; [eapply step_settled; eauto|].
    destruct (stage_step e g a b Ha Hg Hs) as (g' & Hg' & _). now exists g'.
  - split; [apply start_settled|]. exists Idle. apply start_idle.
Qed.

Lemma begun_not_clickable (g : Stage) (y : Sys) (t0 : Z) :
  inStage g y -> begunAt g = Some t0 -> beginClickable (st y) = false.
Proof.
  intros (_ & _ & Hside) Hb.
  destruct g; try discriminate Hb; cbn in Hside; intuition.
Qed.

(** Once begun at [t0], begun at [t0] for good. *)
Lemma begun_stays (t0 : Z) (tr : list Event) (a b : Sys) :
  settledTurn a -> (exists g, inStage g a /\ begunAt g = Some t0) ->
  run pg tr a = Some b ->
  settledTurn b /\ exists g, inStage g b /\ begunAt g = Some t0.
Proof.
  intros Ha Hg H.
  apply (run_invariant pg
           (fun y => settledTurn y /\ exists g, inStage g y /\ begunAt g = Some t0)
           tr a b); [| |exact H].
  - intros e x y [Hx (g & Hgx & Hb)] Hs. split; [eapply step_settled; eauto|].
    destruct (stage_step e g x y Hx Hgx Hs) as (g' & Hg' & Hb').
    exists g'. split; [exact Hg'|]. rewrite Hb'.
    destruct e as [r1 r2|d u]; [exact Hb|]. destruct u; try exact Hb.
    cbn. now rewrite (begun_not_clickable g x t0 Hgx Hb).
  - now split.
Qed.

End Stages.

(** *** Class lists and the log of class operations *)

Lemma replay_app (l1 l2 : list ClassOp) (init : Elem -> Class -> bool) :
  replay (l1 ++ l2) init = replay l2 (replay l1 init).
Proof.
  revert init. induction l1 as [|[e c|e c] l1 IH]; intros init; cbn;
    [reflexivity|apply IH|apply IH].
Qed.

Section Consistency.

Variable init0 : Elem -> Class -> bool.

Lemma consistent_classAdd (e : Elem) (c : Class) (s : State) :
  consistent init0 s -> consistent init0 (classAdd e c s).
Proof.
  intros H e' c'. cbn. rewrite replay_app. cbn. now rewrite H.
Qed.

Lemma consistent_classRemove (e : Elem) (c : Class) (s : State) :
  consistent init0 s -> consistent init0 (classRemove e c s).
Proof.
  intros H e' c'. cbn. rewrite replay_app. cbn. now rewrite H.
Qed.

Lemma consistent_same (s s' : State) :
  classes s' = classes s -> classLog s' = classLog s ->
  consistent init0 s -> consistent init0 s'.
Proof. intros Hc Hl H e c. now rewrite Hc, Hl. Qed.

Lemma consistent_setStyle e p v s :
  consistent init0 s -> consistent init0 (setStyle e p v s).
Proof. now apply consistent_same. Qed.

Lemma consistent_setText e v s :
  consistent init0 s -> consistent init0 (setText e v s).
Proof. now apply consistent_same. Qed.

Lemma consistent_setTimeout t d s :
  consistent init0 s -> consistent init0 (setTimeout t d s).
Proof. now apply consistent_same. Qed.

Lemma consistent_raf f s :
  consistent init0 s -> consistent init0 (requestAnimationFrame f s).
Proof. now apply consistent_same. Qed.

Lemma consistent_liftTw h s :
  consistent init0 s -> consistent init0 (liftTw h s).
Proof. now apply consistent_same. Qed.

Lemma consistent_set_frames v s :
  consistent init0 s -> consistent init0 (set_frames v s).
Proof. now apply consistent_same. Qed.

Lemma consistent_set_outbox v s :
  consistent init0 s -> consistent init0 (set_outbox v s).
Proof. now apply consistent_same. Qed.

Lemma consistent_set_settled v s :
  consistent init0 s -> consistent init0 (set_settled v s).
Proof. now apply consistent_same. Qed.

Lemma consistent_set_waitAttempts v s :
  consistent init0 s -> consistent init0 (set_waitAttempts v s).
Proof. now apply consistent_same. Qed.

Lemma consistent_set_globeBuilt v s :
  consistent init0 s -> consistent init0 (set_globeBuilt v s).
Proof. now apply consistent_same. Qed.

Lemma consistent_set_globeLoaded v s :
  consistent init0 s -> consistent init0 (set_globeLoaded v s).
Proof. now apply consistent_same. Qed.

Lemma consistent_set_arcStarted v s :
  consistent init0 s -> consistent init0 (set_arcStarted v s).
Proof. now apply consistent_same. Qed.

Lemma consistent_set_confettiCalls v s :
  consistent init0 s -> consistent init0 (set_confettiCalls v s).
Proof. now apply consistent_same. Qed.

Lemma consistent_consoleWarn v s :
  consistent init0 s -> consistent init0 (consoleWarn v s).
Proof. now apply consistent_same. Qed.

Lemma consistent_set_innerWidth v s :
  consistent init0 s -> consistent init0 (set_innerWidth v s).
Proof. now apply consistent_same. Qed.

Lemma consistent_set_retryCount v s :
  consistent init0 s -> consistent init0 (set_retryCount v s).
Proof. now apply consistent_same. Qed.

Lemma consistent_set_frameCount v s :
  consistent init0 s -> consistent init0 (set_frameCount v s).
Proof. now apply consistent_same. Qed.

Lemma consistent_set_particles v s :
  consistent init0 s -> consistent init0 (set_particles v s).
Proof. now apply consistent_same. Qed.

Lemma consistent_cancelDraw s :
  consistent init0 s -> consistent init0 (cancelDraw s).
Proof. now apply consistent_same. Qed.

End Consistency.

Create HintDb dom.

#[export] Hint Resolve consistent_classAdd consistent_classRemove
  consistent_setStyle consistent_setText consistent_setTimeout consistent_raf
  consistent_liftTw consistent_set_frames consistent_set_outbox
  consistent_set_settled consistent_set_waitAttempts consistent_set_globeBuilt
  consistent_set_globeLoaded consistent_set_arcStarted
  consistent_set_confettiCalls consistent_consoleWarn consistent_set_innerWidth
  consistent_set_retryCount consistent_set_frameCount consistent_set_particles
  consistent_cancelDraw : dom.

Section Consistent.

Variable pg : Page.
Variable init0 : Elem -> Class -> bool.

Lemma consistent_runTask (now : Z) (r1 r2 : Q) (t : Task) (s : State) :
  consistent init0 s -> consistent init0 (runTask pg now r1 r2 t s).
Proof.
  intros H. destruct t; cbn [runTask];
    unfold activateLetter, startArc, scheduleStatusUpdates, animateLatencyCounter,
      startCountdown, countdownUpdate, createAmbientParticles, acceptDone, dodge,
      clearFinal;
    handler_cases; auto 20 with dom.
Qed.

Lemma consistent_animationFrame (now : Z) (s : State) :
  consistent init0 s -> consistent init0 (animationFrame now s).
Proof.
  intros H. unfold animationFrame.
  assert (H' : consistent init0 (set_frames [] s)) by auto with dom.
  revert H'. generalize (set_frames [] s) as acc.
  induction (frames s) as [|f fs IH]; intros acc Hacc; cbn [fold_left]; [exact Hacc|].
  apply IH. destruct f; cbn [runFrame]; handler_cases; auto 20 with dom.
Qed.

Lemma consistent_handleRetry (s : State) :
  consistent init0 s -> consistent init0 (handleRetry s).
Proof.
  intros H. unfold handleRetry.
  repeat match goal with
         | |- context [if ?b then _ else _] => destruct b
         end; auto 20 with dom.
Qed.

Lemma consistent_runUser (now : Z) (u : UserEvent) (s : State) :
  consistent init0 s -> consistent init0 (runUser pg now u s).
Proof.
  intros H. destruct u; cbn [runUser].
  - handler_cases; auto 20 with dom.
  - handler_cases; auto 20 with dom.
  - destruct (askClickable s); [now apply consistent_handleRetry|exact H].
  - now apply consistent_animationFrame.
  - auto with dom.
  - auto with dom.
Qed.

Lemma consistent_step (e : Event) (a b : Sys) :
  consistent init0 (st a) -> step pg e a = Some b -> consistent init0 (st b).
Proof.
  intros H Hs. destruct e as [r1 r2|d u]; cbn in Hs.
  - destruct (popMin (timers a)) as [[[due t] rest]|]; [|discriminate].
    inversion Hs; subst. cbn [flush st].
    apply consistent_set_outbox. now apply consistent_runTask.
  - destruct (_ && _); [|discriminate]. inversion Hs; subst. cbn [flush st].
    apply consistent_set_outbox. now apply consistent_runUser.
Qed.

End Consistent.

Section Phases.

Variable pg : Page.

Lemma consistent_animateLines init0 (ds : list (option Z)) (i : nat) (s : State) :
  consistent init0 s -> consistent init0 (animateLines i ds s).
Proof.
  revert i s. induction ds as [|d ds IH]; intros i s H; cbn [animateLines];
    [exact H|]. apply IH. auto with dom.
Qed.

Lemma consistent_start : consistent (classes (markup pg)) (st (start pg)).
Proof.
  unfold start. cbn [flush st]. apply consistent_set_outbox.
  unfold init, animateTerminal, initStarfield.
  apply consistent_setTimeout, consistent_animateLines.
  assert (H : consistent (classes (markup pg)) (markup pg)) by (intros e c; reflexivity).
  destruct (hasCanvas pg); auto with dom.
Qed.

Lemma reachable_consistent (tr : list Event) (y : Sys) :
  run pg tr (start pg) = Some y -> consistent (classes (markup pg)) (st y).
Proof.
  intros H.
  apply (run_invariant pg (fun y => consistent (classes (markup pg)) (st y))
           tr (start pg) y); [| |exact H].
  - intros e a b Ha Hs. eapply consistent_step; eauto.
  - apply consistent_start.
Qed.

Lemma stageOps_prefix (g : Stage) : exists n, stageOps g = firstn n phaseOrder.
Proof.
  destruct g as [|t0 [|]|t0 ts [|]|t0 tr|t0 te fired].
  - now exists 0%nat.
  - now exists 2%nat.
  - now exists 1%nat.
  - now exists 2%nat.
  - now exists 1%nat.
  - now exists 2%nat.
  - now exists (3 + fired)%nat.
Qed.

Lemma view_flush_ops (now : Z) (q : list (Z * Task)) (s : State) :
  phaseOps (st (flush now q s)) = phaseOps s.
Proof. reflexivity. Qed.

Lemma other_turn_keeps_phases (e : Event) (a b : Sys) :
  step pg e a = Some b -> orchestratorTurn e a = false ->
  phaseOps (st b) = phaseOps (st a).
Proof.
  intros Hs Ho. destruct e as [r1 r2|d u]; cbn in Hs, Ho.
  - destruct (popMin (timers a)) as [[[due t] rest]|]; [|discriminate].
    inversion Hs; subst. rewrite view_flush_ops.
    change (vOps (view (runTask pg due r1 r2 t (st a))) = vOps (view (st a))).
    now rewrite view_runTask_other.
  - destruct (_ && _); [|discriminate]. inversion Hs; subst.
    rewrite view_flush_ops.
    change (vOps (view (runUser pg (clock a + d) u (st a))) = vOps (view (st a))).
    rewrite view_runUser_other; [reflexivity|]. intros ->. discriminate.
Qed.


End Phases.

Lemma count_occ_filter (f : ClassOp -> bool) (l : list ClassOp) (x : ClassOp) :
  f x = true ->
  count_occ ClassOp_eq_dec (filter f l) x = count_occ ClassOp_eq_dec l x.
Proof.
  intros Hx. induction l as [|a l IH]; [reflexivity|]. cbn.
  destruct (f a) eqn:Fa; cbn; destruct (ClassOp_eq_dec a x) as [->|N];
    try congruence; now rewrite IH.
Qed.

Lemma begun_left_landing_once (g : Stage) (t0 : Z) :
  begunAt g = Some t0 ->
  count_occ ClassOp_eq_dec (stageOps g) (Removed Landing Active) = 1%nat.
Proof.
  destruct g as [|? [|]|? ? [|]|? ?|? ? [|[|[|fired]]]]; intros H;
    try discriminate H; reflexivity.
Qed.

Lemma set_outbox_same (s : State) : outbox s = [] -> set_outbox [] s = s.
Proof. destruct s; cbn; intros ->; reflexivity. Qed.

Section Begin.

Variable pg : Page.

(** After a begin click the sequence has begun, whether this click began
    it or an earlier one. *)
Lemma begun_after_click (tr : list Event) (d : Z) (y1 y : Sys) :
  run pg tr (start pg) = Some y1 ->
  step pg (User d ClickBegin) y1 = Some y ->
  settledTurn y /\
  exists g t0, inStage g y /\ begunAt g = Some t0 /\
               (beginClickable (st y1) = true -> t0 = clock y1 + d).
Proof.
  intros H1 Hs.
  destruct (reachable_stage pg tr y1 H1) as (Hy1 & g1 & Hg1).
  split; [eapply step_settled; eauto|].
  destruct (stage_step pg _ g1 y1 y Hy1 Hg1 Hs) as (g & Hg & Hb).
  cbn [begunAfter] in Hb.
  destruct (beginClickable (st y1)) eqn:Hc.
  - exists g, (clock y1 + d). auto.
  - destruct g1 as [|t0 ?|t0 ? ?|t0 ?|t0 ? ?];
      [destruct Hg1 as (_ & _ & Hside); cbn in Hside; intuition congruence|..];
      exists g, t0; (split; [exact Hg|split; [exact Hb|intros; discriminate]]).
Qed.


End Begin.

Lemma popMin_some (q : list (Z * Task)) : q <> [] -> popMin q <> None.
Proof.
  destruct q as [|e q]; [congruence|]. intros _. cbn.
  destruct (popMin q) as [[m r]|]; [destruct (_ <? _)|]; discriminate.
Qed.

Section Fallback.

Variable pg : Page.

Lemma absent_runTask (now : Z) (r1 r2 : Q) (t : Task) (s : State) :
  globeAbsent s -> globeAbsent (runTask pg now r1 r2 t s).
Proof.
  intros [Hl Hb]. unfold globeAbsent.
  destruct t; cbn [runTask];
    unfold activateLetter, startArc, scheduleStatusUpdates, animateLatencyCounter,
      startCountdown, countdownUpdate, createAmbientParticles, acceptDone, dodge,
      clearFinal;
    handler_cases; cbn in *; auto; congruence.
Qed.

Lemma absent_animationFrame (now : Z) (s : State) :
  globeAbsent s -> globeAbsent (animationFrame now s).
Proof.
  intros H. unfold animationFrame.
  assert (H' : globeAbsent (set_frames [] s)) by exact H.
  revert H'. generalize (set_frames [] s) as acc.
  induction (frames s) as [|f fs IH]; intros acc Hacc; cbn [fold_left]; [exact Hacc|].
  apply IH. destruct f; cbn [runFrame]; handler_cases; exact Hacc.
Qed.

Lemma absent_runUser (now : Z) (u : UserEvent) (s : State) :
  u <> GlobeScriptLoaded -> globeAbsent s -> globeAbsent (runUser pg now u s).
Proof.
  intros Hu [Hl Hb]. unfold globeAbsent. destruct u; cbn [runUser]; try congruence.
  - handler_cases; cbn in *; auto; congruence.
  - handler_cases; auto.
  - destruct (askClickable s); [|auto]. unfold handleRetry.
    repeat match goal with
           | |- context [if ?b then _ else _] => destruct b
           end; auto.
  - now apply absent_animationFrame.
  - auto.
Qed.

Lemma absent_step (e : Event) (a b : Sys) :
  isGlobeLoad e = false -> globeAbsent (st a) -> step pg e a = Some b ->
  globeAbsent (st b).
Proof.
  intros Hl H Hs. destruct e as [r1 r2|d u]; cbn in Hs.
  - destruct (popMin (timers a)) as [[[due t] rest]|]; [|discriminate].
    inversion Hs; subst. now apply (absent_runTask due r1 r2 t) in H.
  - destruct (_ && _); [|discriminate]. inversion Hs; subst.
    apply (absent_runUser (clock a + d) u) in H; [exact H|].
    intros ->. discriminate.
Qed.

Lemma absent_run (tr : list Event) (a b : Sys) :
  forallb (fun e => negb (isGlobeLoad e)) tr = true ->
  globeAbsent (st a) -> run pg tr a = Some b -> globeAbsent (st b).
Proof.
  revert a. induction tr as [|e tr IH]; intros a Hq Ha H; cbn in H.
  - now inversion H; subst.
  - cbn in Hq. apply andb_prop in Hq as [He Hq].
    destruct (step pg e a) as [a'|] eqn:Hs; [|discriminate].
    apply (IH a'); auto. eapply absent_step; eauto.
    now destruct (isGlobeLoad e).
Qed.

(** The give-up branch of [waitForGlobe] shows nothing on the page. *)
Lemma give_up_silent (s : State) :
  globeLoaded s = false -> waitAttempts s = 50%nat ->
  text (waitForGlobe pg s) = text s /\
  console (waitForGlobe pg s) = console s ++ [giveUpWarning] /\
  globeBuilt (waitForGlobe pg s) = globeBuilt s /\
  arcStarted (waitForGlobe pg s) = arcStarted s.
Proof.
  intros Hl Hk. unfold waitForGlobe. rewrite Hl, Hk. cbn [Nat.ltb Nat.leb].
  handler_cases; auto.
Qed.

(** C2.  The globe script is absent when the begin button is clicked at
    [t0] and never loads.  Then the poll runs at [t0 + 200 k] for
    [k = 1 .. 50] and nothing else: until the promise settles exactly one
    poll is pending, so the next timer can always fire; the promise
    settles in the poll at [t0 + 10000], which only warns on the console
    and starts the transition to the letter; past that time it is settled
    in every state. *)
Theorem globe_never_loads_fallback (tr1 tr2 : list Event) (d : Z) (y1 y2 : Sys) :
  run pg tr1 (start pg) = Some y1 ->
  beginClickable (st y1) = true ->
  globeLoaded (st y1) = false ->
  forallb (fun e => negb (isGlobeLoad e)) tr2 = true ->
  run pg (User d ClickBegin :: tr2) y1 = Some y2 ->
  let t0 := clock y1 + d in
  let k := waitAttempts (st y2) in
  globeBuilt (st y2) = false /\
  (settled (st y2) = false ->
     (1 <= k <= 50)%nat /\
     pend WaitForGlobe (timers y2) = [t0 + 200 * Z.of_nat k] /\
     clock y2 <= t0 + 200 * Z.of_nat k /\
     forall r1 r2, step pg (Fire r1 r2) y2 <> None) /\
  (settled (st y2) = true ->
     k = 50%nat /\ t0 + 10000 <= clock y2 /\
     console (st y2) = [giveUpWarning] /\
     In (Removed GlobePhase Active) (classLog (st y2)) /\
     (pend ActivateLetter (timers y2) = [t0 + 10000 + 1200] \/
      In (Added LetterPhase Active) (classLog (st y2)))) /\
  (t0 + 10000 < clock y2 -> settled (st y2) = true) /\
  (forall s, globeLoaded s = false -> waitAttempts s = 50%nat ->
             text (waitForGlobe pg s) = text s /\
             console (waitForGlobe pg s) = console s ++ [giveUpWarning] /\
             globeBuilt (waitForGlobe pg s) = globeBuilt s /\
             arcStarted (waitForGlobe pg s) = arcStarted s).
Proof.
  intros H1 Hc Hl Hq H2 t0 k. cbn [run] in H2.
  destruct (step pg (User d ClickBegin) y1) as [y|] eqn:Hs; [|discriminate].
  destruct (begun_after_click pg tr1 d y1 y H1 Hs) as (Hy & g & t & Hg & Hb & Ht).
  specialize (Ht Hc). subst t. fold t0 in Hb.
  destruct (begun_stays pg t0 tr2 y y2 Hy (ex_intro _ g (conj Hg Hb)) H2)
    as ([Hout Hdue] & g2 & Hg2 & Hb2).
  assert (Habs1 : globeAbsent (st y1)).
  { split; [exact Hl|].
    destruct (reachable_stage pg tr1 y1 H1) as (_ & g1 & _ & _ & Hside).
    destruct g1; cbn in Hside; unfold beginClickable in *;
      intuition congruence. }
  assert (Habs : globeAbsent (st y2)).
  { apply (absent_run (User d ClickBegin :: tr2) y1 y2); auto.
    cbn [run]. now rewrite Hs. }
  destruct Habs as [Hl2 Hb2'].
  destruct Hg2 as (Hops & Hpend & Hside).
  unfold view in Hops, Hpend, Hside; cbn in Hops, Hpend, Hside.
  pose proof (Hpend WaitForGlobe eq_refl) as PW.
  pose proof (Hpend ActivateLetter eq_refl) as PL.
  assert (Hlog : forall op, In op (phaseOps (st y2)) -> In op (classLog (st y2)))
    by (intros op Hop; apply filter_In in Hop; tauto).
  split; [exact Hb2'|].
  destruct g2 as [|t0' shown|t0' ts shown|t0' tr|t0' te fired];
    cbn in Hb2; inversion Hb2; subst t0'; cbn in Hside, PW, PL.
  - destruct Hside as (_ & Hset & _ & _ & Hk & Hck).
    assert (PW' : pend WaitForGlobe (timers y2) = [t0 + 200 * Z.of_nat k])
      by (destruct shown; exact PW).
    clear PW PL. rename PW' into PW.
    fold k in Hk, Hck.
    assert (Hin : In (t0 + 200 * Z.of_nat k) (pend WaitForGlobe (timers y2)))
      by (rewrite PW; apply in_eq).
    apply pend_in in Hin.
    rewrite Forall_forall in Hdue. specialize (Hdue _ Hin). cbn in Hdue.
    split; [intros _|split; [congruence|split; [lia|apply give_up_silent]]].
    repeat split; try lia; auto.
    intros r1 r2. cbn.
    destruct (popMin (timers y2)) as [[[due t] rest]|] eqn:E; [discriminate|].
    exfalso. apply (popMin_some (timers y2)); [|exact E].
    intros Hnil. rewrite Hnil in Hin. exact Hin.
  - intuition congruence.
  - intuition congruence.
  - destruct Hside as (_ & Hset & Hf & Hte & Hfall).
    destruct (Hfall Hb2') as (-> & Hk & Hcon). fold k in Hk.
    split; [congruence|split; [intros _|split; [auto|apply give_up_silent]]].
    repeat split; try lia; auto.
    + apply Hlog. rewrite Hops.
      destruct fired as [|[|[|?]]]; cbn; auto.
    + destruct fired as [|[|fired]]; [left; exact PL|left; exact PL|].
      right. apply Hlog. rewrite Hops.
      assert (fired = 0%nat) by lia. subst. cbn. auto 6.
Qed.

End Fallback.

(** *** Accepting *)

Lemma isNone_none (v : StyleVal) : isNone v = true -> v = Css "none".
Proof.
  destruct v as [c|x y]; cbn; [|discriminate].
  intros H. apply String.eqb_eq in H. now subst.
Qed.

Lemma popMin_keeps (q r : list (Z * Task)) (m x : Z * Task) :
  popMin q = Some (m, r) -> In x q -> snd x <> snd m -> In x r.
Proof.
  intros H Hx Hne. apply popMin_split in H as (l1 & l2 & -> & -> & _).
  apply in_app_iff in Hx as [Hx|[Hx|Hx]]; apply in_app_iff; auto.
  subst. congruence.
Qed.

Section Accept.

Variable pg : Page.

Lemma askView_runTask (now : Z) (r1 r2 : Q) (t : Task) (s : State) :
  t <> AcceptDone -> askView (runTask pg now r1 r2 t s) = askView s.
Proof.
  intros H. unfold askView.
  destruct t; try congruence; cbn [runTask];
    unfold activateLetter, startArc, scheduleStatusUpdates, animateLatencyCounter,
      startCountdown, countdownUpdate, createAmbientParticles, dodge, clearFinal;
    handler_cases; reflexivity.
Qed.

Lemma askView_animationFrame (now : Z) (s : State) :
  askView (animationFrame now s) = askView s.
Proof.
  unfold animationFrame.
  change (askView s) with (askView (set_frames [] s)).
  generalize (set_frames [] s) as acc.
  induction (frames s) as [|f fs IH]; intros acc; cbn [fold_left]; [reflexivity|].
  rewrite IH. destruct f; cbn [runFrame]; handler_cases; reflexivity.
Qed.

Lemma askView_runUser (now : Z) (u : UserEvent) (s : State) :
  u <> ClickAccept -> askView (runUser pg now u s) = askView s.
Proof.
  intros H. unfold askView. destruct u; try congruence; cbn [runUser].
  - handler_cases; reflexivity.
  - destruct (askClickable s); [|reflexivity]. unfold handleRetry.
    repeat match goal with
           | |- context [if ?b then _ else _] => destruct b
           end; reflexivity.
  - apply askView_animationFrame.
  - reflexivity.
  - reflexivity.
Qed.

Lemma handleAccept_returns (s : State) :
  exists s', handleAccept pg s = Returned s' /\
             askView s' = (style s TheAsk Display, Css "0",
                           classes s AcceptedState Visible) /\
             In (800, AcceptDone) (outbox s').
Proof.
  unfold handleAccept, confetti, andThen.
  destruct (hasConfetti pg); eexists; (split; [reflexivity|]);
    (split; [reflexivity|]); cbn; apply in_or_app; right; apply in_eq.
Qed.

Lemma askView_parts (s s' : State) :
  askView s' = askView s ->
  style s' TheAsk Display = style s TheAsk Display /\
  style s' TheAsk Opacity = style s TheAsk Opacity /\
  classes s' AcceptedState Visible = classes s AcceptedState Visible.
Proof. unfold askView. intros H. injection H as H1 H2 H3. auto. Qed.

Lemma askClickable_view (s s' : State) :
  askView s' = askView s -> askClickable s' = askClickable s.
Proof. unfold askView, askClickable. intros H. now inversion H. Qed.

Lemma hidden_view (s s' : State) :
  askView s' = askView s -> hiddenMeansAccepted s -> hiddenMeansAccepted s'.
Proof.
  unfold hiddenMeansAccepted. intros H Hs Hc.
  rewrite (askClickable_view s s' H) in Hc.
  unfold askView in H. injection H as _ _ Hcl. rewrite Hcl. auto.
Qed.

Lemma hidden_step (e : Event) (a b : Sys) :
  hiddenMeansAccepted (st a) -> step pg e a = Some b -> hiddenMeansAccepted (st b).
Proof.
  intros H Hs. destruct e as [r1 r2|d u]; cbn in Hs.
  - destruct (popMin (timers a)) as [[[due t] rest]|]; [|discriminate].
    inversion Hs; subst. cbn [flush st].
    destruct (Task_eq_dec t AcceptDone) as [->|N].
    + intros _. reflexivity.
    + apply (hidden_view (st a)); [|exact H].
      now apply (askView_runTask due r1 r2 t (st a)).
  - destruct (_ && _); [|discriminate]. inversion Hs; subst. cbn [flush st].
    destruct u; try (apply (hidden_view (st a)); [|exact H];
                     apply (askView_runUser _ _ (st a)); discriminate).
    cbn [runUser]. destruct (askClickable (st a)) eqn:Hc; [|exact H].
    destruct (handleAccept_returns (st a)) as (s' & -> & Hv & _).
    cbn [finish]. intros Hc'.
    unfold askView in Hv. inversion Hv.
    unfold askClickable in *. cbn in Hc'. congruence.
Qed.

Lemma reachable_hidden (tr : list Event) (y : Sys) :
  run pg tr (start pg) = Some y -> hiddenMeansAccepted (st y).
Proof.
  intros H.
  apply (run_invariant pg (fun y => hiddenMeansAccepted (st y)) tr (start pg) y);
    [| |exact H].
  - intros e a b. apply hidden_step.
  - intros Hc. exfalso. revert Hc.
    assert (Hv : askView (st (start pg)) = askView (markup pg)).
    { unfold start, init, animateTerminal, initStarfield. cbn [flush st].
      unfold askView. cbn.
      assert (Hl : forall ds i s, style (animateLines i ds s) = style s /\
                                  classes (animateLines i ds s) = classes s).
      { induction ds as [|d0 ds IH]; intros i s; cbn [animateLines]; [auto|].
        destruct (IH (S i) (setTimeout (ShowLine i) (orElse d0 (Z.of_nat i * 600)) s))
          as [-> ->]. auto. }
      destruct (Hl (lineDelays pg) 0%nat
                  ((if hasCanvas pg
                    then requestAnimationFrame Draw
                    else fun s => s)
                     (setStyle Body Overflow (css "hidden") (markup pg))))
        as [Es Ec].
      destruct (hasCanvas pg); rewrite Es, Ec; reflexivity. }
    rewrite (askClickable_view _ _ Hv). discriminate.
Qed.

Lemma fading_step (t : Z) (e : Event) (a b : Sys) :
  fadingOrHidden t a -> step pg e a = Some b -> fadingOrHidden t b.
Proof.
  intros H Hs. destruct e as [r1 r2|d u]; cbn in Hs.
  - destruct (popMin (timers a)) as [[[due k] rest]|] eqn:E; [|discriminate].
    inversion Hs; subst. unfold fadingOrHidden. cbn [flush st timers].
    destruct (Task_eq_dec k AcceptDone) as [->|N]; [left; reflexivity|].
    pose proof (askView_runTask due r1 r2 k (st a) N) as Hv.
    change (askClickable (runTask pg due r1 r2 k (st a)) = false \/
            In (t + 800, AcceptDone)
               (rest ++ map (fun e => (due + Z.max 0 (fst e), snd e))
                            (outbox (runTask pg due r1 r2 k (st a)))) /\
            style (runTask pg due r1 r2 k (st a)) TheAsk Opacity = Css "0").
    destruct H as [Hc|[Hin Ho]].
    + left. now rewrite (askClickable_view _ _ Hv).
    + right. split.
      * apply in_or_app. left. apply (popMin_keeps _ _ _ _ E Hin). cbn. congruence.
      * unfold askView in Hv. injection Hv as _ Hop _. congruence.
  - destruct (_ && _); [|discriminate]. inversion Hs; subst.
    unfold fadingOrHidden. cbn [flush st timers].
    assert (Hv : askClickable (runUser pg (clock a + d) u (st a)) = askClickable (st a) /\
                 (style (st a) TheAsk Opacity = Css "0" ->
                  style (runUser pg (clock a + d) u (st a)) TheAsk Opacity = Css "0")).
    { destruct u;
        try (match goal with
             | |- context [runUser pg ?n ?u ?s] =>
                 assert (Hv : askView (runUser pg n u s) = askView s)
                   by (apply askView_runUser; discriminate)
             end;
             destruct (askView_parts _ _ Hv) as (Hd & Ho & Hcl);
             split; [unfold askClickable; congruence|congruence]).
      cbn [runUser]. destruct (askClickable (st a)) eqn:Hc; [|auto].
      destruct (handleAccept_returns (st a)) as (s' & -> & Hv & _).
      cbn [finish]. unfold askView in Hv. inversion Hv.
      split; [unfold askClickable in *; congruence|auto]. }
    destruct Hv as [Hc Ho]. destruct H as [H|[Hin Hop]].
    + left. cbn. unfold askClickable in *. cbn. congruence.
    + right. split; [apply in_or_app; now left|]. cbn. auto.
Qed.

Lemma accept_fades_then_hides (tr1 tr2 : list Event) (d : Z) (y1 y2 : Sys) :
  run pg tr1 (start pg) = Some y1 ->
  askClickable (st y1) = true ->
  run pg (User d ClickAccept :: tr2) y1 = Some y2 ->
  let t := clock y1 + d in
  (exists s', handleAccept pg (st y1) = Returned s') /\
  (askClickable (st y2) = true ->
     In (t + 800, AcceptDone) (timers y2) /\
     style (st y2) TheAsk Opacity = Css "0" /\
     clock y2 <= t + 800) /\
  (askClickable (st y2) = false ->
     style (st y2) TheAsk Display = Css "none" /\
     classes (st y2) AcceptedState Visible = true /\
     forall d' u y3, u = ClickAccept \/ u = ClickRetry ->
                     step pg (User d' u) y2 = Some y3 ->
                     st y3 = st y2 /\ timers y3 = timers y2) /\
  (t + 800 < clock y2 -> askClickable (st y2) = false).
Proof.
  intros H1 Hc H2 t.
  assert (Hr : run pg (tr1 ++ User d ClickAccept :: tr2) (start pg) = Some y2)
    by (rewrite run_app, H1; exact H2).
  destruct (reachable_settled pg _ _ Hr) as [Hout Hdue].
  pose proof (reachable_hidden _ _ Hr) as Hhid.
  cbn [run] in H2.
  destruct (step pg (User d ClickAccept) y1) as [y|] eqn:Hs; [|discriminate].
  assert (Hy : fadingOrHidden t y).
  { cbn in Hs. destruct (_ && _); [|discriminate]. inversion Hs; subst.
    right. cbn [flush st timers runUser]. rewrite Hc.
    destruct (handleAccept_returns (st y1)) as (s' & -> & Hv & Hin).
    cbn [finish]. unfold askView in Hv. inversion Hv. split; [|cbn; auto].
    apply in_or_app. right.
    apply in_map_iff. exists (800, AcceptDone). split; [reflexivity|exact Hin]. }
  assert (Hy2 : fadingOrHidden t y2).
  { apply (run_invariant pg (fadingOrHidden t) tr2 y y2); auto.
    intros e a b. apply fading_step. }
  split; [destruct (handleAccept_returns (st y1)) as (s' & E & _); eauto|].
  assert (Hfade : askClickable (st y2) = true ->
                  In (t + 800, AcceptDone) (timers y2) /\
                  style (st y2) TheAsk Opacity = Css "0" /\ clock y2 <= t + 800).
  { intros Hc2. destruct Hy2 as [Hf|[Hin Ho]]; [congruence|].
    repeat split; auto.
    rewrite Forall_forall in Hdue. apply (Hdue _ Hin). }
  split; [exact Hfade|split].
  - intros Hc2. split; [|split].
    + unfold askClickable in Hc2. apply isNone_none.
      now destruct (isNone _).
    + now apply Hhid.
    + intros d' u y3 Hu H3. cbn in H3.
      destruct (_ && _); [|discriminate]. inversion H3; subst. cbn [flush st timers].
      assert (Hsame : runUser pg (clock y2 + d') u (st y2) = st y2)
        by (destruct Hu as [-> | ->]; cbn [runUser]; now rewrite Hc2).
      rewrite Hsame, Hout. cbn.
      split; [now apply set_outbox_same|apply app_nil_r].
  - intros Hlate. destruct (askClickable (st y2)) eqn:Hc2; [|reflexivity].
    destruct (Hfade eq_refl) as (_ & _ & Hle). lia.
Qed.

End Accept.

(** ** The typewriter *)

Local Open Scope nat_scope.

Lemma concat_cons (x : string) (l : list string) :
  String.concat EmptyString (x :: l) = (x ++ String.concat EmptyString l)%string.
Proof.
  destruct l as [|y l]; cbn; [|reflexivity].
  induction x as [|c x IH]; cbn; [reflexivity|now rewrite <- IH].
Qed.

Arguments typed : simpl never.

Lemma typed_cons (c : ascii) (l : list ascii) :
  typed (c :: l) = TextNode (String c EmptyString) :: typed l.
Proof. reflexivity. Qed.

Lemma typed_app (l1 l2 : list ascii) : typed (l1 ++ l2) = typed l1 ++ typed l2.
Proof. apply map_app. Qed.

Lemma textOf_typed (l : list ascii) :
  String.concat EmptyString (map nodeText (typed l)) = string_of_list_ascii l.
Proof.
  induction l as [|c l IH]; [reflexivity|].
  rewrite typed_cons. cbn [map nodeText]. rewrite concat_cons, IH. reflexivity.
Qed.

Lemma textOf_drop_cursor (ns : list Node) :
  String.concat EmptyString (map nodeText ns) =
  String.concat EmptyString (map nodeText (filter (fun n => negb (is_cursor n)) ns)).
Proof.
  induction ns as [|n ns IH]; [reflexivity|].
  cbn [map filter]. destruct n as [s|]; cbn [is_cursor negb map].
  - now rewrite !concat_cons, IH.
  - now rewrite concat_cons, IH.
Qed.

Lemma filter_typed (l : list ascii) :
  filter (fun n => negb (is_cursor n)) (typed l) = typed l.
Proof.
  induction l as [|c l IH]; [reflexivity|].
  rewrite typed_cons. cbn. now rewrite IH.
Qed.

Lemma get_chars (s : string) (c : nat) :
  String.get c s = nth_error (chars s) c.
Proof.
  revert c. induction s as [|a s IH]; intros [|c]; cbn; auto.
Qed.

Lemma length_chars (s : string) : List.length (chars s) = String.length s.
Proof. induction s as [|a s IH]; cbn; auto. Qed.

Lemma firstn_snoc {A : Type} (l : list A) (c : nat) (x : A) :
  nth_error l c = Some x -> firstn (S c) l = firstn c l ++ [x].
Proof.
  revert c. induction l as [|a l IH]; intros [|c] H; cbn in *; try discriminate.
  - now inversion H.
  - now rewrite (IH c H).
Qed.

Lemma substring_chars (s : string) (c : nat) :
  string_of_list_ascii (firstn c (chars s)) = substring 0 c s.
Proof.
  revert c. induction s as [|a s IH]; intros [|c]; cbn; auto.
  now rewrite IH.
Qed.

Lemma insertBeforeCursor_end (n : Node) (l : list ascii) :
  insertBeforeCursor n (typed l ++ [CursorNode]) = Some (typed l ++ [n; CursorNode]).
Proof.
  induction l as [|c l IH]; [reflexivity|].
  rewrite typed_cons. cbn. now rewrite IH.
Qed.

Lemma update_nth_app {A : Type} (f : A -> A) (l1 : list A) (x : A) (l2 : list A) :
  update_nth (List.length l1) f (l1 ++ x :: l2) = l1 ++ f x :: l2.
Proof. induction l1 as [|a l1 IH]; cbn; [reflexivity|now rewrite IH]. Qed.

Lemma nth_error_mid {A : Type} (l1 : list A) (x : A) (l2 : list A) :
  nth_error (l1 ++ x :: l2) (List.length l1) = Some x.
Proof. induction l1 as [|a l1 IH]; cbn; auto. Qed.

Lemma nth_mid {A : Type} (l1 : list A) (x d : A) (l2 : list A) :
  nth (List.length l1) (l1 ++ x :: l2) d = x.
Proof. induction l1 as [|a l1 IH]; cbn; auto. Qed.

(** *** The invariant of the engine *)

Lemma filter_twice {A : Type} (f : A -> bool) (l : list A) :
  filter f (filter f l) = filter f l.
Proof.
  induction l as [|a l IH]; [reflexivity|]. cbn.
  destruct (f a) eqn:E; cbn; rewrite ?E, IH; reflexivity.
Qed.

Lemma Forall2_length' {A B : Type} (R : A -> B -> Prop) (l1 : list A) (l2 : list B) :
  Forall2 R l1 l2 -> List.length l1 = List.length l2.
Proof. induction 1; cbn; auto. Qed.

Lemma doneOf_detach (full : string) (p : Para) :
  doneOf full p -> doneOf full (detachCursor p).
Proof.
  intros [Hn Hd]. split; [|exact Hd]. cbn.
  rewrite <- Hn. apply filter_twice.
Qed.

Lemma Forall2_detach (pre : list string) (dones : list Para) :
  Forall2 doneOf pre dones -> Forall2 doneOf pre (map detachCursor dones).
Proof.
  induction 1; cbn; constructor; auto using doneOf_detach.
Qed.

Lemma detach_blanks (l : list string) : map detachCursor (blanks l) = blanks l.
Proof.
  unfold blanks. induction l as [|s l IH]; cbn; [reflexivity|]. now rewrite IH.
Qed.

Lemma doneOf_typed (full : string) (cur : Para) :
  nodes cur = typed (firstn (String.length full) (chars full)) ++ [CursorNode] ->
  displayNone cur = false -> doneOf full cur.
Proof.
  intros Hn Hd. split; [|exact Hd]. rewrite Hn.
  rewrite <- length_chars, firstn_all, filter_app, filter_typed. cbn.
  apply app_nil_r.
Qed.

Lemma Forall2_snoc {A B : Type} (R : A -> B -> Prop) l1 l2 x y :
  Forall2 R l1 l2 -> R x y -> Forall2 R (l1 ++ [x]) (l2 ++ [y]).
Proof. intros H Hxy. apply Forall2_app; auto. Qed.

(** What [typeChar] does when paragraph [full] holds the cursor. *)
Lemma typeChar_step (fulls pre : list string) (full : string) (more : list string)
  (c depth : nat) (t : Typewriter) :
  TypingAt fulls pre full more c t ->
  TwInv fulls (snd (typeChar (typeNextParagraphAt depth) (List.length pre) t))
        (fst (typeChar (typeNextParagraphAt depth) (List.length pre) t))
        (String.length full - c + cost more + 1).
Proof.
  intros [Hf Ht Hi Hc Hb Hcur (dones & cur & Hd & Hn & Hv & Htg)].
  pose proof (Forall2_length' _ _ _ Hd) as Hlen.
  unfold typeChar.
  assert (Hfull : nth (List.length pre) (texts t) EmptyString = full)
    by (rewrite Ht, Hf; apply nth_mid).
  rewrite Hfull, Hc.
  destruct (Nat.ltb_spec c (String.length full)) as [Hlt|Hge].
  - (* one more character *)
    rewrite get_chars.
    destruct (nth_error (chars full) c) as [ch|] eqn:Hch;
      [|apply nth_error_None in Hch; rewrite length_chars in Hch; lia].
    rewrite Htg, Hlen, nth_error_mid, Hn, insertBeforeCursor_end.
    cbn [fst snd]. rewrite update_nth_app.
    replace (String.length full - c + cost more + 1)
      with (S (String.length full - S c) + cost more + 1) by lia.
    rewrite <- Hlen. apply InvTyping.
    constructor; cbn [texts pIndex charIndex cursor target]; auto; try lia.
    exists dones, {| nodes := typed (firstn c (chars full)) ++
                              [TextNode (String ch ""); CursorNode];
                     displayNone := displayNone cur |}.
    repeat split; auto. cbn [nodes].
    rewrite (firstn_snoc _ _ _ Hch), typed_app, <- app_assoc. reflexivity.
  - (* the paragraph is complete *)
    assert (E : c = String.length full) by lia.
    rewrite E in Hn. rewrite E. clear Hc Hb Hge E c.
    assert (Hdone : Forall2 doneOf (pre ++ [full]) (dones ++ [cur]))
      by (apply Forall2_snoc; [exact Hd|now apply doneOf_typed]).
    cbn [pIndex texts]. rewrite Ht, Hi.
    assert (Hfl : List.length fulls = List.length pre + S (List.length more))
      by (rewrite Hf, length_app; reflexivity).
    destruct (Nat.ltb_spec (S (List.length pre)) (List.length fulls)) as [Hmore|Hlast].
    + cbn [fst snd].
      replace (String.length full - String.length full + cost more + 1)
        with (S (cost more)) by lia.
      destruct more as [|m more]; [cbn in Hfl; lia|].
      apply (InvWaiting fulls (pre ++ [full]) (m :: more) (dones ++ [cur])); cbn; auto.
      * now rewrite <- app_assoc.
      * discriminate.
      * rewrite length_app. cbn. lia.
      * now rewrite <- app_assoc.
    + destruct more as [|m more]; [|cbn in Hfl; lia].
      assert (Hpre : pre ++ [full] = fulls) by now rewrite Hf.
      destruct depth as [|depth]; cbn [typeNextParagraphAt pIndex texts];
        rewrite ?Ht;
        (destruct (Nat.leb_spec (List.length fulls) (S (List.length pre)));
         [|lia]);
        cbn [fst snd]; replace (String.length full - String.length full + cost [] + 1)
          with 1 by (cbn; lia);
        apply (InvFading fulls (dones ++ [cur])); cbn; auto; try lia;
        now rewrite <- Hpre.
Qed.

Lemma twCallback_step (fulls : list string) (dl : Z) (k : Task)
  (t : Typewriter) (m : nat) :
  TwInv fulls [(dl, k)] t (S m) ->
  TwInv fulls (snd (twCallback k t)) (fst (twCallback k t)) m.
Proof.
  intros H. inversion H as [pre post dones dl' t' Hf Hp Ht Hi Hcur Hd Htg
                           |pre full more c dl' t' Hta| |]; subst.
  - (* a paragraph starts *)
    destruct post as [|full more]; [congruence|].
    pose proof (Forall2_length' _ _ _ Hd) as Hlen.
    unfold twCallback, typeNextParagraph. cbn [typeNextParagraphAt].
    rewrite Ht, length_app, Hi.
    destruct (Nat.leb_spec (List.length pre + List.length (full :: more))
                           (List.length pre)) as [Hbad|_]; [cbn in Hbad; lia|].
    replace (cost (full :: more))
      with (String.length full - 0 + cost more + 1)
      by (change (cost (full :: more)) with (S (String.length full) + cost more);
          lia).
    apply (typeChar_step (pre ++ full :: more) pre full more 0 0).
    constructor; cbn; auto; try lia.
    exists (map detachCursor dones),
      {| nodes := [CursorNode]; displayNone := false |}.
    repeat split; auto using Forall2_detach.
    rewrite Htg. cbn [option_map]. f_equal.
    unfold blanks at 1. cbn [map].
    rewrite Hlen, update_nth_app. unfold appendCursor.
    rewrite map_app. cbn [map].
    rewrite <- (length_map detachCursor dones), update_nth_app.
    fold (blanks more). rewrite detach_blanks. reflexivity.
  - (* a character, or the end of the paragraph *)
    unfold twCallback, typeNextParagraph. now apply typeChar_step.
  - (* the cursor fades *)
    unfold twCallback, fadeCursor. cbn [fst snd].
    eapply InvFinished; cbn; eauto.
    match goal with Hc : cursor _ = Some false |- _ => now rewrite Hc end.
Qed.

Lemma twRun_inv (fulls : list string) (n : nat) :
  forall q t m, TwInv fulls q t m ->
                exists q', TwInv fulls q' (twRun n q t) (m - n).
Proof.
  induction n as [|n IH]; intros q t m H.
  - exists q. now rewrite Nat.sub_0_r.
  - assert (Hq : (q = [] /\ m = 0) \/ exists dl k m', q = [(dl, k)] /\ m = S m').
    { inversion H; subst; [right|right|right|left]; eauto. }
    destruct Hq as [[-> ->]|(dl & k & m' & -> & ->)].
    + exists []. exact H.
    + cbn [twRun]. pose proof (twCallback_step fulls dl k t m' H) as Hs.
      destruct (twCallback k t) as [t' new]. cbn [fst snd] in Hs. cbn [app].
      apply (IH new t' m' Hs).
Qed.

Lemma textContent_done (full : string) (p : Para) :
  doneOf full p -> textContent p = full.
Proof.
  intros [Hn _]. unfold textContent.
  rewrite textOf_drop_cursor, Hn, textOf_typed.
  apply string_of_list_ascii_of_string.
Qed.

Lemma revealed_dones (pre : list string) (dones : list Para) :
  Forall2 doneOf pre dones -> map textContent dones = pre.
Proof.
  induction 1 as [|full p pre dones Hp _ IH]; cbn [map]; [reflexivity|].
  now rewrite (textContent_done full p Hp), IH.
Qed.

Lemma blanks_repeat (l : list string) : blanks l = repeat blankPara (List.length l).
Proof. unfold blanks. induction l as [|s l IH]; cbn; [reflexivity|now rewrite IH]. Qed.

Lemma blanks_text (l : list string) :
  map textContent (blanks l) = repeat EmptyString (List.length l).
Proof. unfold blanks. induction l as [|s l IH]; cbn; [reflexivity|now rewrite IH]. Qed.

Lemma firstn_exact {A : Type} (l1 l2 : list A) :
  firstn (List.length l1) (l1 ++ l2) = l1.
Proof.
  rewrite firstn_app, Nat.sub_diag, firstn_all. cbn. apply app_nil_r.
Qed.

Lemma skipn_exact {A : Type} (l1 l2 : list A) (x : A) :
  skipn (S (List.length l1)) (l1 ++ x :: l2) = l2.
Proof. induction l1 as [|a l1 IH]; cbn; auto. Qed.

Lemma orderly_middle (pre : list string) (full : string) (more : list string)
  (c : nat) (dones : list Para) (cur : Para) (t : Typewriter) :
  Forall2 doneOf pre dones ->
  textContent cur = substring 0 c full ->
  target t = Some (dones ++ cur :: blanks more) ->
  orderly (pre ++ full :: more) t.
Proof.
  intros Hd Hc Ht. exists (List.length pre), c.
  pose proof (Forall2_length' _ _ _ Hd) as Hlen.
  unfold revealed, paragraphsOf. rewrite Ht.
  rewrite firstn_exact, nth_mid, length_app. cbn [List.length].
  destruct (Nat.ltb_spec (List.length pre) (List.length pre + S (List.length more)));
    [|lia].
  replace (List.length pre + S (List.length more) - S (List.length pre))
    with (List.length more) by lia.
  split.
  - rewrite map_app. cbn [map]. now rewrite (revealed_dones pre dones Hd), Hc, blanks_text.
  - rewrite Hlen, skipn_exact. apply blanks_repeat.
Qed.

Lemma orderly_end (fulls : list string) (dones : list Para) (t : Typewriter) :
  Forall2 doneOf fulls dones -> target t = Some dones ->
  orderly fulls t /\ revealed t = fulls.
Proof.
  intros Hd Ht.
  pose proof (Forall2_length' _ _ _ Hd) as Hlen.
  assert (Hr : revealed t = fulls)
    by (unfold revealed, paragraphsOf; rewrite Ht; now apply revealed_dones).
  split; [|exact Hr].
  exists (List.length fulls), 0. rewrite Hr. unfold paragraphsOf. rewrite Ht.
  rewrite Nat.ltb_irrefl, firstn_all.
  replace (List.length fulls - S (List.length fulls)) with 0 by lia.
  cbn [repeat app]. split; [now rewrite app_nil_r|].
  apply skipn_all2. lia.
Qed.

Lemma TwInv_orderly (fulls : list string) (q : list (Z * Task)) (t : Typewriter)
  (m : nat) :
  TwInv fulls q t m ->
  orderly fulls t /\ (m = 0 -> revealed t = fulls /\ cursor t = Some true).
Proof.
  intros H. inversion H as [pre post dones dl t' Hf Hp Ht Hi Hcur Hd Htg
                           |pre full more c dl t' Hta
                           |dones dl t' Ht Hi Hcur Hd Htg
                           |dones t' Ht Hi Hcur Hd Htg]; subst.
  - split; [|discriminate].
    destruct post as [|full more]; [congruence|].
    apply (orderly_middle pre full more 0 dones blankPara); auto.
    destruct full; reflexivity.
  - split; [|lia].
    destruct Hta as [Hf _ _ _ _ _ (dones & cur & Hd & Hn & _ & Htg)]. subst fulls.
    apply (orderly_middle pre full more c dones cur); auto.
    unfold textContent. rewrite Hn, textOf_drop_cursor, filter_app, filter_typed.
    cbn [filter is_cursor negb]. rewrite app_nil_r, textOf_typed.
    apply substring_chars.
  - split; [|discriminate]. now apply (orderly_end _ dones).
  - destruct (orderly_end _ dones t Hd Htg) as [Ho Hr]. auto.
Qed.

Lemma cost_callbacks (ps : list Para) :
  ps <> [] -> callbacksNeeded ps = S (cost (map innerText ps)).
Proof.
  destruct ps as [|p ps]; [congruence|]. intros _. unfold callbacksNeeded. f_equal.
  generalize (p :: ps) as l. unfold cost.
  induction l as [|x l IH]; cbn [fold_right map]; [reflexivity|].
  now rewrite IH.
Qed.

Lemma start_inv (ps : list Para) :
  ps <> [] ->
  TwInv (map innerText ps) (snd (startTypewriter (twFresh ps)))
        (fst (startTypewriter (twFresh ps))) (callbacksNeeded ps).
Proof.
  intros Hps. rewrite (cost_callbacks ps Hps).
  unfold startTypewriter, twFresh. cbn [target].
  destruct ps as [|p ps]; [congruence|]. cbn [fst snd].
  apply (InvWaiting (map innerText (p :: ps)) [] (map innerText (p :: ps)) []);
    cbn [texts pIndex cursor target List.length app]; auto;
    try discriminate.
  f_equal. unfold blanks. now rewrite map_map.
Qed.

(** The engine on its own: where it stands after [n] callbacks, and that
    it is done after [callbacksNeeded ps] of them. *)
Lemma engine_reveals_in_order (ps : list Para) (n : nat) :
  let fulls := map innerText ps in
  let t := twAfter n ps in
  (exists i c,
     revealed t =
       firstn i fulls
       ++ (if i <? List.length fulls
           then [substring 0 c (nth i fulls EmptyString)] else [])
       ++ repeat EmptyString (List.length fulls - S i) /\
     skipn (S i) (paragraphsOf t) = repeat blankPara (List.length fulls - S i)) /\
  (callbacksNeeded ps <= n ->
     revealed t = fulls /\
     String.concat EmptyString (revealed t) = String.concat EmptyString fulls).
Proof.
  intros fulls t.
  destruct ps as [|p ps].
  - subst fulls t. unfold twAfter, startTypewriter. cbn [twFresh target].
    assert (E : forall t0, twRun n [] t0 = t0) by (intros; destruct n; reflexivity).
    rewrite E. cbn. split; [exists 0, 0; auto|auto].
  - assert (Hps : p :: ps <> []) by discriminate.
    pose proof (start_inv (p :: ps) Hps) as H0.
    subst t. unfold twAfter.
    destruct (startTypewriter (twFresh (p :: ps))) as [t1 q1]. cbn [fst snd] in H0.
    destruct (twRun_inv fulls n q1 t1 _ H0) as [q' Hn].
    destruct (TwInv_orderly fulls q' _ _ Hn) as [Ho Hend].
    split; [exact Ho|].
    intros Hle. destruct Hend as [Hr _]; [lia|].
    split; [exact Hr|now rewrite Hr].
Qed.

Local Close Scope nat_scope.

(** ** Retry *)

Lemma handleRetry_exhausted (s : State) :
  (3 <= retryCount s)%nat -> handleRetry s = s.
Proof.
  intros H. unfold handleRetry.
  destruct (Nat.leb_spec (List.length retryMessages) (retryCount s)) as [_|C];
    [reflexivity|cbn in C; lia].
Qed.

Lemma handleRetry_next (s : State) :
  (retryCount s < 3)%nat ->
  retryCount (handleRetry s) = S (retryCount s) /\
  text (handleRetry s) RetryError =
    Text (nth (retryCount s) retryMessages EmptyString) /\
  classes (handleRetry s) RetryError Visible = true.
Proof.
  intros H. unfold handleRetry.
  destruct (Nat.leb_spec (List.length retryMessages) (retryCount s)) as [C|_];
    [cbn in C; lia|].
  destruct (retryCount s) as [|[|[|n]]] eqn:E; [| | |lia];
    cbn; rewrite ?E; cbn; auto.
Qed.

Lemma retryTimes_count (s : State) (k : nat) :
  retryCount s = 0%nat -> (k <= 3)%nat -> retryCount (retryTimes k s) = k.
Proof.
  intros H0. induction k as [|k IH]; intros Hk; [exact H0|].
  cbn [retryTimes].
  destruct (handleRetry_next (retryTimes k s)) as (E & _); [rewrite IH; lia|].
  rewrite E, IH; lia.
Qed.

Lemma retryTimes_exhausted (s : State) (j : nat) :
  retryCount s = 0%nat -> retryTimes (3 + j) s = retryTimes 3 s.
Proof.
  intros H0.
  pose proof (retryTimes_count s 3 H0 (le_n 3)) as H3.
  induction j as [|j IH]; [reflexivity|].
  replace (3 + S j)%nat with (S (3 + j)) by lia.
  change (retryTimes (S (3 + j)) s) with (handleRetry (retryTimes (3 + j) s)).
  rewrite IH.
  apply handleRetry_exhausted. rewrite H3. lia.
Qed.

Lemma handleRetry_monotone (s : State) :
  (retryCount s <= retryCount (handleRetry s))%nat /\
  (retryCount s <= 3 -> retryCount (handleRetry s) <= 3)%nat.
Proof.
  destruct (Nat.lt_ge_cases (retryCount s) 3) as [Hlt|Hge].
  - destruct (handleRetry_next s Hlt) as (E & _). rewrite E. lia.
  - rewrite (handleRetry_exhausted s Hge). lia.
Qed.

Section RetryRuns.

Variable pg : Page.

Lemma retryCount_runTask (now : Z) (r1 r2 : Q) (t : Task) (s : State) :
  retryCount (runTask pg now r1 r2 t s) = retryCount s.
Proof. destruct t; cbn [runTask]; handler_cases; reflexivity. Qed.

Lemma retryCount_animationFrame (now : Z) (s : State) :
  retryCount (animationFrame now s) = retryCount s.
Proof.
  unfold animationFrame.
  change (retryCount s) with (retryCount (set_frames [] s)).
  generalize (set_frames [] s) as acc.
  induction (frames s) as [|f fs IH]; intros acc; cbn [fold_left]; [reflexivity|].
  rewrite IH. destruct f; cbn [runFrame]; handler_cases; reflexivity.
Qed.

Lemma retryCount_step (e : Event) (a b : Sys) :
  step pg e a = Some b ->
  (retryCount (st a) <= retryCount (st b))%nat /\
  (retryCount (st a) <= 3 -> retryCount (st b) <= 3)%nat.
Proof.
  intros Hs. destruct e as [r1 r2|d u]; cbn in Hs.
  - destruct (popMin (timers a)) as [[[due t] rest]|]; [|discriminate].
    inversion Hs; subst. cbn [flush st].
    change (retryCount (set_outbox [] (runTask pg due r1 r2 t (st a))))
      with (retryCount (runTask pg due r1 r2 t (st a))).
    rewrite retryCount_runTask. lia.
  - destruct (_ && _); [|discriminate]. inversion Hs; subst. cbn [flush st].
    change (retryCount (set_outbox [] (runUser pg (clock a + d) u (st a))))
      with (retryCount (runUser pg (clock a + d) u (st a))).
    destruct u; cbn [runUser].
    + handler_cases; lia.
    + handler_cases; lia.
    + destruct (askClickable (st a)); [apply handleRetry_monotone|lia].
    + rewrite retryCount_animationFrame. lia.
    + cbn. lia.
    + cbn. lia.
Qed.

Lemma retryCount_start : retryCount (st (start pg)) = 0%nat.
Proof.
  unfold start, init, animateTerminal, initStarfield. cbn [flush st].
  assert (Hl : forall ds i s, retryCount (animateLines i ds s) = retryCount s).
  { induction ds as [|d0 ds IH]; intros i s; cbn [animateLines]; [auto|].
    now rewrite IH. }
  cbn. rewrite Hl. destruct (hasCanvas pg); reflexivity.
Qed.

Lemma reachable_retryCount (tr : list Event) (y : Sys) :
  run pg tr (start pg) = Some y -> (retryCount (st y) <= 3)%nat.
Proof.
  intros H.
  apply (run_invariant pg (fun y => (retryCount (st y) <= 3)%nat) tr (start pg) y);
    [| |exact H].
  - intros e a b Ha Hs. now apply (retryCount_step e a b Hs).
  - rewrite retryCount_start. lia.
Qed.

End RetryRuns.

(** C4.  From a state where retry was never triggered, [k] triggers
    ([1 <= k <= 3]) leave the count at [k] and the [k]-th message on
    display; every trigger after the third changes nothing at all.  The
    count never decreases, in a trigger or in any other turn of the page,
    and never exceeds the number of messages. *)
Theorem retry_escalation (s : State) (k : nat) :
  retryCount s = 0%nat -> (1 <= k <= 3)%nat ->
  retryCount (retryTimes k s) = k /\
  text (retryTimes k s) RetryError = Text (nth (k - 1) retryMessages EmptyString) /\
  classes (retryTimes k s) RetryError Visible = true /\
  (forall j, retryTimes (3 + j) s = retryTimes 3 s) /\
  (forall s', (3 <= retryCount s')%nat -> handleRetry s' = s') /\
  (forall s', (retryCount s' <= retryCount (handleRetry s'))%nat) /\
  (forall pg e a b, step pg e a = Some b ->
                    (retryCount (st a) <= retryCount (st b))%nat) /\
  (forall pg tr y, run pg tr (start pg) = Some y ->
                   (retryCount (st y) <= List.length retryMessages)%nat).
Proof.
  intros H0 Hk.
  destruct k as [|k]; [lia|].
  assert (Hc : retryCount (retryTimes k s) = k) by (apply retryTimes_count; [auto|lia]).
  destruct (handleRetry_next (retryTimes k s)) as (E1 & E2 & E3); [lia|].
  cbn [retryTimes]. rewrite Hc in E1, E2.
  replace (S k - 1)%nat with k by lia.
  repeat split; auto.
  - intros j. now apply retryTimes_exhausted.
  - apply handleRetry_exhausted.
  - intros s'. apply handleRetry_monotone.
  - intros pg e a b Hs. now apply (retryCount_step pg e a b Hs).
  - intros pg tr y H. apply (reachable_retryCount pg tr y H).
Qed.

(** ** Dodge *)

Lemma popMin_keeps_tail (q : list (Z * Task)) (d d' : Z) (a b c : Task)
  (m : Z * Task) (r : list (Z * Task)) :
  d <= d' ->
  popMin (q ++ [(d, a); (d, b); (d', c)]) = Some (m, r) ->
  exists r', r = r' ++ [(d, b); (d', c)].
Proof.
  intros Hd. revert m r. induction q as [|e q IH]; intros m r H.
  - cbn in H. destruct (Z.ltb_spec d' d); [lia|]. cbn in H.
    rewrite Z.ltb_irrefl in H. inversion H; subst. now exists [].
  - cbn [app popMin] in H.
    destruct (popMin (q ++ [(d, a); (d, b); (d', c)])) as [[m' r'']|] eqn:E.
    + destruct (IH m' r'' eq_refl) as [r' ->].
      destruct (fst m' <? fst e); inversion H; subst.
      * now exists (e :: r').
      * exists (q ++ [(d, a)]). now rewrite <- app_assoc.
    + exfalso. apply (popMin_some (q ++ [(d, a); (d, b); (d', c)])); [|exact E].
      destruct q; discriminate.
Qed.

Local Open Scope Q_scope.


Local Close Scope Q_scope.

(** ** The typewriter guard *)

Lemma liftTw_nothing (s : State) :
  startTypewriter (tw s) = (tw s, []) -> liftTw startTypewriter s = s.
Proof.
  intros H. unfold liftTw. rewrite H. cbn [fst snd]. rewrite app_nil_r.
  destruct s; reflexivity.
Qed.

(** ** The typewriter inside the page *)

Lemma twRunQ_snd (n : nat) (q : list (Z * Task)) (t : Typewriter) :
  snd (twRunQ n q t) = twRun n q t.
Proof.
  revert q t. induction n as [|n IH]; intros q t; [reflexivity|].
  destruct q as [|[dl k] rest]; [reflexivity|]. cbn [twRunQ twRun].
  rewrite IH. now destruct (twCallback k t).
Qed.

Lemma twRunQ_S (n : nat) (q : list (Z * Task)) (t : Typewriter) :
  twRunQ (S n) q t = twNext (twRunQ n q t).
Proof.
  revert q t. induction n as [|n IH]; intros q t.
  - destruct q as [|[dl k] rest]; reflexivity.
  - destruct q as [|[dl k] rest]; [reflexivity|].
    change (twRunQ (S (S n)) ((dl, k) :: rest) t)
      with (twRunQ (S n) (rest ++ snd (twCallback k t)) (fst (twCallback k t))).
    rewrite IH. reflexivity.
Qed.

Lemma TwInv_pending (fulls : list string) (q : list (Z * Task)) (t : Typewriter)
  (m : nat) :
  TwInv fulls q t m ->
  q = [] \/ exists dl k m', q = [(dl, k)] /\ isTw k = true /\ m = S m'.
Proof.
  intros H. inversion H; subst; [right|right|right|left]; eauto.
  - eexists _, _, _. repeat split.
  - eexists _, _, _. repeat split.
  - eexists _, _, _. repeat split.
Qed.

Lemma twNext_inv (fulls : list string) (q : list (Z * Task)) (t : Typewriter)
  (m : nat) :
  TwInv fulls q t m ->
  TwInv fulls (fst (twNext (q, t))) (snd (twNext (q, t))) (m - 1).
Proof.
  intros H. destruct (TwInv_pending fulls q t m H) as [->|(dl & k & m' & -> & _ & ->)].
  - inversion H; subst. exact H.
  - unfold twNext. cbn [fst snd app]. rewrite Nat.sub_succ, Nat.sub_0_r.
    now apply (twCallback_step fulls dl).
Qed.

Lemma twRunQ_inv (fulls : list string) (n : nat) (q : list (Z * Task))
  (t : Typewriter) (m : nat) :
  TwInv fulls q t m ->
  TwInv fulls (fst (twRunQ n q t)) (snd (twRunQ n q t)) (m - n).
Proof.
  intros H. induction n as [|n IH]; [now rewrite Nat.sub_0_r|].
  rewrite twRunQ_S. replace (m - S n)%nat with (m - n - 1)%nat by lia.
  destruct (twRunQ n q t) as [q' t']. now apply twNext_inv.
Qed.

(** The engine's pending callbacks, started on any target. *)
Lemma engine_pending (t0 : Typewriter) (n : nat) :
  texts t0 = [] -> pIndex t0 = 0%nat -> charIndex t0 = 0%nat -> cursor t0 = None ->
  let r := twRunQ n (snd (startTypewriter t0)) (fst (startTypewriter t0)) in
  fst r = [] \/
  exists dl k, fst r = [(dl, k)] /\ isTw k = true /\
               fst (twNext r) = snd (twCallback k (snd r)) /\
               twOnly (snd (twCallback k (snd r))) = map snd (snd (twCallback k (snd r))).
Proof.
  intros Ht Hi Hc Hcur r.
  destruct (target t0) as [[|p ps]|] eqn:Htg.
  - left. subst r. unfold startTypewriter. rewrite Htg. cbn [fst snd].
    destruct n; reflexivity.
  - assert (Ht0 : t0 = twFresh (p :: ps))
      by (destruct t0; cbn in *; subst; reflexivity).
    assert (Hps : p :: ps <> []) by discriminate.
    pose proof (start_inv (p :: ps) Hps) as H0. rewrite <- Ht0 in H0.
    pose proof (twRunQ_inv _ n _ _ _ H0) as Hn. fold r in Hn.
    destruct (TwInv_pending _ _ _ _ Hn) as [E|(dl & k & m' & E & Hk & Em)];
      [now left|right].
    exists dl, k. split; [exact E|split; [exact Hk|]].
    pose proof (twNext_inv _ _ _ _ Hn) as Hn'.
    destruct r as [q t]. cbn [fst snd] in *. subst q.
    unfold twNext in *. cbn [fst snd app] in *. split; [reflexivity|].
    destruct (TwInv_pending _ _ _ _ Hn') as [E'|(dl' & k' & m'' & E' & Hk' & _)];
      rewrite E'; [reflexivity|].
    unfold twOnly. cbn. now rewrite Hk'.
  - left. subst r. unfold startTypewriter. rewrite Htg. cbn [fst snd].
    destruct n; reflexivity.
Qed.

Lemma twOnly_app (a b : list (Z * Task)) : twOnly (a ++ b) = twOnly a ++ twOnly b.
Proof. unfold twOnly. now rewrite filter_app, map_app. Qed.

Lemma twOnly_shift (now : Z) (q : list (Z * Task)) :
  twOnly (map (fun e => (now + Z.max 0 (fst e), snd e)) q) = twOnly q.
Proof.
  unfold twOnly. induction q as [|[dl k] q IH]; [reflexivity|]. cbn.
  destruct (isTw k); cbn; now rewrite IH.
Qed.

Lemma twOnly_flush (now : Z) (q : list (Z * Task)) (s : State) :
  twOnly (timers (flush now q s)) = twOnly q ++ twOnly (outbox s).
Proof. cbn [flush timers]. now rewrite twOnly_app, twOnly_shift. Qed.

Lemma twOnly_pop (q rest : list (Z * Task)) (d : Z) (k : Task) :
  popMin q = Some ((d, k), rest) ->
  exists a b, twOnly q = a ++ (if isTw k then [k] else []) ++ b /\
              twOnly rest = a ++ b.
Proof.
  intros H. apply popMin_split in H as (l1 & l2 & -> & -> & _).
  exists (twOnly l1), (twOnly l2). rewrite !twOnly_app. split; [|reflexivity].
  f_equal. unfold twOnly. cbn. now destruct (isTw k).
Qed.

Lemma startTypewriter_twOnly (t : Typewriter) :
  twOnly (snd (startTypewriter t)) = map snd (snd (startTypewriter t)).
Proof. unfold startTypewriter. destruct (target t) as [[|p ps]|]; reflexivity. Qed.

Lemma twOnly_cons (d : Z) (k : Task) (q : list (Z * Task)) :
  twOnly ((d, k) :: q) = (if isTw k then [k] else []) ++ twOnly q.
Proof. unfold twOnly. cbn. now destruct (isTw k). Qed.

Lemma twOnly_nil : twOnly [] = [].
Proof. reflexivity. Qed.

Arguments twOnly : simpl never.

Ltac tw_simpl :=
  unfold twView, letterEntered; cbn;
  rewrite ?existsb_app, ?twOnly_app, ?twOnly_cons, ?twOnly_nil; cbn;
  rewrite ?orb_false_r, ?app_nil_r; try reflexivity.

Section PageTypewriter.

Variable pg : Page.

Lemma twView_runTask (now : Z) (r1 r2 : Q) (t : Task) (s : State) :
  isTw t = false -> t <> ActivateLetter ->
  twView (runTask pg now r1 r2 t s) = twView s.
Proof.
  intros H N. destruct t; try discriminate H; try congruence; cbn [runTask];
    unfold startArc, scheduleStatusUpdates, animateLatencyCounter,
      countdownUpdate, acceptDone, dodge, clearFinal;
    handler_cases; tw_simpl.
Qed.

Lemma twView_animationFrame (now : Z) (s : State) :
  twView (animationFrame now s) = twView s.
Proof.
  unfold animationFrame.
  change (twView s) with (twView (set_frames [] s)).
  generalize (set_frames [] s) as acc.
  induction (frames s) as [|f fs IH]; intros acc; cbn [fold_left]; [reflexivity|].
  rewrite IH. destruct f; cbn [runFrame]; handler_cases; tw_simpl.
Qed.

Lemma twView_runUser (now : Z) (u : UserEvent) (s : State) :
  twView (runUser pg now u s) = twView s.
Proof.
  destruct u; cbn [runUser].
  - handler_cases; tw_simpl.
  - handler_cases; tw_simpl.
  - destruct (askClickable s); [|reflexivity]. unfold handleRetry.
    repeat match goal with
           | |- context [if ?b then _ else _] => destruct b
           end; tw_simpl.
  - apply twView_animationFrame.
  - reflexivity.
  - reflexivity.
Qed.

Lemma twView_activateLetter (now : Z) (s : State) :
  twView (activateLetter pg now s) =
  (fst (startTypewriter (tw s)), true,
   twOnly (outbox s) ++ map snd (snd (startTypewriter (tw s)))).
Proof.
  unfold activateLetter, startCountdown, countdownUpdate, createAmbientParticles.
  tw_simpl. rewrite orb_true_r, startTypewriter_twOnly. reflexivity.
Qed.

Lemma twView_twCallback (k : Task) (s : State) :
  isTw k = true ->
  twView (liftTw (twCallback k) s) =
  (fst (twCallback k (tw s)), letterEntered s,
   twOnly (outbox s) ++ twOnly (snd (twCallback k (tw s)))).
Proof. intros _. tw_simpl. Qed.

Lemma twView_is (s : State) (t : Typewriter) (b : bool) (l : list Task) :
  twView s = (t, b, l) ->
  tw s = t /\ letterEntered s = b /\ twOnly (outbox s) = l.
Proof. unfold twView. intros H. injection H as H1 H2 H3. auto. Qed.

Lemma twView_parts (s s' : State) :
  twView s' = twView s ->
  tw s' = tw s /\ letterEntered s' = letterEntered s /\
  twOnly (outbox s') = twOnly (outbox s).
Proof. intros H. now apply twView_is. Qed.

(** The letter is not entered while its timer is still pending. *)
Lemma letter_pending_not_entered (g : Stage) (a : Sys) (d : Z) :
  inStage g a -> In (d, ActivateLetter) (timers a) -> letterEntered (st a) = false.
Proof.
  intros (Hops & Hpend & _) Hin.
  apply in_pend in Hin. rewrite (Hpend ActivateLetter eq_refl) in Hin.
  unfold view in Hops; cbn in Hops.
  assert (Hno : ~ In (Added LetterPhase Active) (phaseOps (st a))).
  { rewrite Hops.
    destruct g as [|t0 [|]|t0 ts [|]|t0 tr|t0 te [|[|fired]]]; cbn in Hin;
      try contradiction; cbn; intuition discriminate. }
  unfold letterEntered.
  destruct (existsb _ (classLog (st a))) eqn:E; [|reflexivity].
  exfalso. apply Hno. apply existsb_exists in E as (op & Hop & Hb).
  apply internal_ClassOp_dec_bl in Hb. subst op.
  apply filter_In. split; [exact Hop|reflexivity].
Qed.

Lemma twInPage_step (e : Event) (g : Stage) (a b : Sys) :
  settledTurn a -> inStage g a -> twInPage pg a -> step pg e a = Some b ->
  twInPage pg b.
Proof.
  intros Ha Hg Ht Hs.
  destruct (step_cases pg e a b Ha Hs)
    as [(r1 & r2 & d & t & rest & -> & Hpop & Hc & ->)|(d & u & -> & Hd & ->)].
  - destruct Ha as [Hout _].
    destruct (twOnly_pop _ _ _ _ Hpop) as (x & z & Hq & Hr).
    unfold twInPage.
    change (letterEntered (st (flush d rest (runTask pg d r1 r2 t (st a)))))
      with (letterEntered (runTask pg d r1 r2 t (st a))).
    change (tw (st (flush d rest (runTask pg d r1 r2 t (st a)))))
      with (tw (runTask pg d r1 r2 t (st a))).
    rewrite twOnly_flush.
    destruct (Task_eq_dec t ActivateLetter) as [->|Nl].
    + (* the letter phase is entered *)
      assert (Hin : In (d, ActivateLetter) (timers a))
        by (apply popMin_split in Hpop as (l1 & l2 & -> & _);
            apply in_or_app; right; apply in_eq).
      pose proof (letter_pending_not_entered g a d Hg Hin) as Hnot.
      destruct Ht as [(_ & Htw & Hno)|(Hyes & _)]; [|congruence].
      cbn [isTw] in Hq. cbn [app] in Hq. rewrite Hno in Hq.
      destruct x; [|discriminate]. destruct z; [|discriminate]. cbn [app] in Hr.
      cbn [runTask].
      destruct (twView_is _ _ _ _ (twView_activateLetter d (st a)))
        as (E1 & E2 & E3).
      right. split; [exact E2|]. exists 0%nat. cbn [twRunQ fst snd].
      rewrite E1, E3, Hr, Hout, Htw. cbn. auto.
    + destruct (isTw t) eqn:Hk.
      * (* a callback of the engine *)
        destruct Ht as [(_ & _ & Hno)|(Hyes & n & Htw & Hpq)];
          [rewrite Hno in Hq; destruct x; discriminate|].
        assert (Hrt : runTask pg d r1 r2 t (st a) = liftTw (twCallback t) (st a))
          by (destruct t; try discriminate Hk; reflexivity).
        rewrite Hrt.
        destruct (twView_is _ _ _ _ (twView_twCallback t (st a) Hk))
          as (E1 & E2 & E3).
        right. split; [congruence|]. exists (S n).
        rewrite twRunQ_S.
        destruct (engine_pending (twMarkup pg) n eq_refl eq_refl eq_refl eq_refl)
          as [E|(dl & k & E & _ & Hnext & Hall)].
        -- rewrite E in Hpq. cbn in Hpq. rewrite Hpq in Hq.
           destruct x; discriminate.
        -- rewrite E in Hpq. cbn in Hpq. rewrite Hpq in Hq.
           apply single_split in Hq as (-> & -> & <-). cbn [app] in Hr.
           rewrite <- Htw in Hnext, Hall.
           rewrite E1, E3, Hr, Hout. cbn [app twOnly filter map].
           rewrite Hall.
           destruct (twRunQ n _ _) as [q' t']. cbn [fst snd] in *. subst q'.
           unfold twNext. cbn [fst snd app]. rewrite Htw. auto.
      * (* any other timer *)
        destruct (twView_parts _ _ (twView_runTask d r1 r2 t (st a) Hk Nl))
          as (E1 & E2 & E3).
        rewrite E1, E2, E3, Hout, Hr. cbn [twOnly filter map]. rewrite app_nil_r.
        rewrite app_nil_l in Hq.
        replace (x ++ z) with (twOnly (timers a)) by (rewrite Hq; reflexivity).
        exact Ht.
  - destruct Ha as [Hout _]. unfold twInPage.
    change (letterEntered
              (st (flush (clock a + d) (timers a) (runUser pg (clock a + d) u (st a)))))
      with (letterEntered (runUser pg (clock a + d) u (st a))).
    change (tw (st (flush (clock a + d) (timers a) (runUser pg (clock a + d) u (st a)))))
      with (tw (runUser pg (clock a + d) u (st a))).
    rewrite twOnly_flush.
    destruct (twView_parts _ _ (twView_runUser (clock a + d) u (st a)))
      as (E1 & E2 & E3).
    rewrite E1, E2, E3, Hout. cbn [twOnly filter map]. rewrite app_nil_r.
    exact Ht.
Qed.

Lemma twInPage_start : twInPage pg (start pg).
Proof.
  left. unfold start.
  assert (Hl : forall ds i s, twView (animateLines i ds s) = twView s).
  { induction ds as [|d0 ds IH]; intros i s; cbn [animateLines]; [auto|].
    rewrite IH. tw_simpl. }
  assert (Hv : twView (init pg (markup pg)) = twView (markup pg)).
  { unfold init, animateTerminal, initStarfield.
    transitivity (twView (animateLines 0 (lineDelays pg)
                            ((if hasCanvas pg
                              then requestAnimationFrame Draw
                              else fun s => s)
                               (setStyle Body Overflow (css "hidden") (markup pg))))).
    - destruct (hasCanvas pg); tw_simpl.
    - rewrite Hl. destruct (hasCanvas pg); reflexivity. }
  destruct (twView_parts _ _ Hv) as (E1 & E2 & E3).
  cbn [flush st]. repeat split.
  - exact E2.
  - exact E1.
  - rewrite twOnly_flush. cbn [twOnly filter map app]. exact E3.
Qed.

Lemma reachable_twInPage (tr : list Event) (y : Sys) :
  run pg tr (start pg) = Some y -> twInPage pg y.
Proof.
  intros H.
  apply (run_invariant pg
           (fun y => settledTurn y /\ (exists g, inStage g y) /\ twInPage pg y)
           tr (start pg) y); [| |exact H].
  - intros e a b (Ha & [g Hg] & Ht) Hs.
    split; [eapply step_settled; eauto|split].
    + destruct (stage_step pg e g a b Ha Hg Hs) as (g' & Hg' & _). now exists g'.
    + eapply twInPage_step; eauto.
  - split; [apply start_settled|split; [exists Idle; apply start_idle|]].
    apply twInPage_start.
Qed.


Lemma twMarkup_fresh (ps : list Para) :
  markupTarget pg = Some ps -> twMarkup pg = twFresh ps.
Proof. unfold twMarkup, twFresh. now intros ->. Qed.

Lemma page_runs_engine (ps : list Para) (tr : list Event) (y : Sys) :
  markupTarget pg = Some ps -> run pg tr (start pg) = Some y ->
  if letterEntered (st y) then exists m, tw (st y) = twAfter m ps
  else tw (st y) = twFresh ps.
Proof.
  intros Hps H.
  destruct (reachable_twInPage tr y H) as [(Hl & Ht & _)|(Hl & m & Ht & _)];
    rewrite Hl.
  - now rewrite Ht, (twMarkup_fresh ps Hps).
  - exists m. rewrite Ht, twRunQ_snd, (twMarkup_fresh ps Hps).
    unfold twAfter. now destruct (startTypewriter (twFresh ps)).
Qed.

Lemma page_without_paragraphs (tr : list Event) (y : Sys) :
  markupTarget pg = None \/ markupTarget pg = Some [] ->
  run pg tr (start pg) = Some y ->
  tw (st y) = twMarkup pg /\ twOnly (timers y) = [].
Proof.
  intros Hg H.
  destruct (reachable_twInPage tr y H) as [(_ & Ht & Hq)|(_ & m & Ht & Hq)];
    [auto|].
  assert (E : startTypewriter (twMarkup pg) = (twMarkup pg, []))
    by (unfold startTypewriter, twMarkup; cbn [target];
        destruct Hg as [-> | ->]; reflexivity).
  rewrite E in Ht, Hq. cbn [fst snd] in Ht, Hq.
  assert (En : twRunQ m [] (twMarkup pg) = ([], twMarkup pg))
    by (destruct m; reflexivity).
  rewrite En in Ht, Hq. auto.
Qed.

End PageTypewriter.


(** C10.  Without a target, or with a target that holds no paragraph,
    starting the typewriter returns at once: no timer is registered and
    the typewriter's part of the page (paragraphs, cursor, indices) is
    what it was, so the whole state is unchanged.  In every run of such a
    page the typewriter stays as the markup has it and none of its
    callbacks is ever pending. *)
Theorem typewriter_guard (s : State) :
  target (tw s) = None \/ target (tw s) = Some [] ->
  startTypewriter (tw s) = (tw s, []) /\
  liftTw startTypewriter s = s /\
  cursor (fst (startTypewriter (tw s))) = cursor (tw s) /\
  (forall pg tr y,
      markupTarget pg = None \/ markupTarget pg = Some [] ->
      run pg tr (start pg) = Some y ->
      tw (st y) = twMarkup pg /\ twOnly (timers y) = []).
Proof.
  intros H.
  assert (E : startTypewriter (tw s) = (tw s, []))
    by (unfold startTypewriter; destruct H as [-> | ->]; reflexivity).
  split; [exact E|split; [now apply liftTw_nothing|split; [now rewrite E|]]].
  intros pg tr y. apply page_without_paragraphs.
Qed.

(** ** Counter frames and confetti bursts inside the page *)

Lemma framesStarted_later (c c' : Z) (fs : list Frame) :
  c <= c' -> framesStarted c fs -> framesStarted c' fs.
Proof. intros Hc H start Hin. specialize (H start Hin). lia. Qed.

Lemma framesStarted_sub (c : Z) (fs fs' : list Frame) :
  (forall f, In f fs' -> In f fs) -> framesStarted c fs -> framesStarted c fs'.
Proof. intros Hsub H start Hin. apply H. now apply Hsub. Qed.

Section FramesAndBursts.

Variable pg : Page.

Lemma frames_runTask (now : Z) (r1 r2 : Q) (t : Task) (s : State) :
  frames (runTask pg now r1 r2 t s) =
  frames s ++ match t with StartArc => [LatencyUpdate now] | _ => [] end.
Proof.
  destruct t; cbn [runTask];
    unfold activateLetter, startArc, scheduleStatusUpdates, animateLatencyCounter,
      startCountdown, countdownUpdate, createAmbientParticles, acceptDone, dodge,
      clearFinal;
    handler_cases; rewrite ?app_nil_r; reflexivity.
Qed.

Lemma frames_runFrame (now : Z) (f : Frame) (s : State) (x : Frame) :
  In x (frames (runFrame now f s)) -> In x (frames s) \/ x = Draw \/ x = f.
Proof.
  destruct f as [|start]; cbn [runFrame]; handler_cases; intros H;
    try (apply in_app_iff in H as [H|[<-|[]]]); auto.
Qed.

Lemma frames_animationFrame (now : Z) (s : State) (x : Frame) :
  In x (frames (animationFrame now s)) -> x = Draw \/ In x (frames s).
Proof.
  unfold animationFrame.
  assert (G : forall fs acc,
             In x (frames (fold_left (fun a f => runFrame now f a) fs acc)) ->
             In x (frames acc) \/ x = Draw \/ In x fs).
  { induction fs as [|f fs IH]; intros acc H; cbn [fold_left] in H; [auto|].
    destruct (IH _ H) as [H1|[H1|H1]]; [|auto|right; right; now right].
    destruct (frames_runFrame now f acc x H1) as [H2|[H2|H2]]; auto.
    right; right; left; now subst. }
  intros H. destruct (G _ _ H) as [[]|[H1|H1]]; auto.
Qed.

Lemma frames_runUser (now : Z) (u : UserEvent) (s : State) (x : Frame) :
  In x (frames (runUser pg now u s)) -> x = Draw \/ In x (frames s).
Proof.
  destruct u; cbn [runUser]; try (now right).
  - handler_cases; intros H; try (apply filter_In in H as [H _]); auto.
  - handler_cases; auto.
  - destruct (askClickable s); [|auto]. unfold handleRetry.
    repeat match goal with
           | |- context [if ?b then _ else _] => destruct b
           end; auto.
  - apply frames_animationFrame.
Qed.

Lemma framesStarted_step (e : Event) (a b : Sys) :
  settledTurn a -> framesStarted (clock a) (frames (st a)) ->
  step pg e a = Some b -> framesStarted (clock b) (frames (st b)).
Proof.
  intros Ha H Hs.
  destruct (step_cases pg e a b Ha Hs)
    as [(r1 & r2 & d & t & rest & -> & Hpop & Hc & ->)|(d & u & -> & Hd & ->)];
    cbn [flush st clock];
    intros start Hin.
  - change (In (LatencyUpdate start) (frames (runTask pg d r1 r2 t (st a)))) in Hin.
    rewrite frames_runTask in Hin. apply in_app_iff in Hin as [Hin|Hin].
    + specialize (H start Hin). lia.
    + destruct t; cbn in Hin; try contradiction.
      destruct Hin as [E|[]]. inversion E. lia.
  - change (In (LatencyUpdate start)
               (frames (runUser pg (clock a + d) u (st a)))) in Hin.
    apply frames_runUser in Hin as [E|Hin]; [discriminate|].
    specialize (H start Hin). lia.
Qed.

Lemma reachable_framesStarted (tr : list Event) (y : Sys) :
  run pg tr (start pg) = Some y -> framesStarted (clock y) (frames (st y)).
Proof.
  intros H.
  apply (run_invariant pg
           (fun y => settledTurn y /\ framesStarted (clock y) (frames (st y)))
           tr (start pg) y); [| |exact H].
  - intros e a b [Ha Hf] Hs. split; [eapply step_settled; eauto|].
    eapply framesStarted_step; eauto.
  - split; [apply start_settled|].
    intros s0 Hin. exfalso. revert Hin.
    unfold start, init, animateTerminal, initStarfield. cbn [flush st].
    assert (Hl : forall ds i s, frames (animateLines i ds s) = frames s).
    { induction ds as [|d0 ds IH]; intros i s; cbn [animateLines]; [auto|].
      now rewrite IH. }
    cbn. rewrite Hl. destruct (hasCanvas pg); cbn; intuition discriminate.
Qed.

(** *** Bursts *)

Lemma burstOnly_app (a b : list (Z * Task)) :
  burstOnly (a ++ b) = burstOnly a ++ burstOnly b.
Proof. apply filter_app. Qed.

Lemma burst_typeChar (next : Typewriter -> TwResult) (i : nat) (t : Typewriter) :
  (forall t', burstOnly (snd (next t')) = []) ->
  burstOnly (snd (typeChar next i t)) = [].
Proof.
  intros Hn. unfold typeChar.
  repeat match goal with
         | |- context [if ?b then _ else _] => destruct b
         | |- context [match ?x with _ => _ end] => destruct x
         end; cbn; auto.
Qed.

Lemma burst_typeNext (depth : nat) (t : Typewriter) :
  burstOnly (snd (typeNextParagraphAt depth t)) = [].
Proof.
  revert t. induction depth as [|d IH]; intros t; cbn;
    destruct (_ <=? _)%nat; try reflexivity.
  apply burst_typeChar. exact IH.
Qed.

Lemma burst_twCallback (k : Task) (t : Typewriter) :
  burstOnly (snd (twCallback k t)) = [].
Proof.
  destruct k; try reflexivity; unfold twCallback, typeNextParagraph.
  - apply burst_typeNext.
  - apply burst_typeChar. apply burst_typeNext.
Qed.

Lemma burst_startTypewriter (t : Typewriter) :
  burstOnly (snd (startTypewriter t)) = [].
Proof. unfold startTypewriter. destruct (target t) as [[|p ps]|]; reflexivity. Qed.

Ltac burst_simpl :=
  cbn; rewrite ?burstOnly_app; cbn;
  rewrite ?burst_twCallback, ?burst_startTypewriter, ?app_nil_r; try reflexivity.

Hypothesis noConfetti : hasConfetti pg = false.

Lemma burst_runTask (now : Z) (r1 r2 : Q) (t : Task) (s : State) :
  burstOnly (outbox (runTask pg now r1 r2 t s)) = burstOnly (outbox s).
Proof.
  destruct t; cbn [runTask];
    unfold activateLetter, startArc, scheduleStatusUpdates, animateLatencyCounter,
      startCountdown, countdownUpdate, createAmbientParticles, acceptDone, dodge,
      clearFinal, finish, confetti;
    rewrite ?noConfetti; handler_cases; burst_simpl.
Qed.

Lemma burst_animationFrame (now : Z) (s : State) :
  burstOnly (outbox (animationFrame now s)) = burstOnly (outbox s).
Proof.
  unfold animationFrame.
  change (outbox s) with (outbox (set_frames [] s)).
  generalize (set_frames [] s) as acc.
  induction (frames s) as [|f fs IH]; intros acc; cbn [fold_left]; [reflexivity|].
  rewrite IH. destruct f; cbn [runFrame]; handler_cases; reflexivity.
Qed.

Lemma burst_runUser (now : Z) (u : UserEvent) (s : State) :
  burstOnly (outbox (runUser pg now u s)) = burstOnly (outbox s).
Proof.
  destruct u; cbn [runUser].
  - handler_cases; burst_simpl.
  - destruct (askClickable s); [|reflexivity].
    unfold finish, handleAccept, andThen, confetti. rewrite noConfetti. burst_simpl.
  - destruct (askClickable s); [|reflexivity]. unfold handleRetry.
    repeat match goal with
           | |- context [if ?b then _ else _] => destruct b
           end; burst_simpl.
  - apply burst_animationFrame.
  - reflexivity.
  - reflexivity.
Qed.

Lemma burstOnly_shift (now : Z) (q : list (Z * Task)) :
  burstOnly q = [] ->
  burstOnly (map (fun e => (now + Z.max 0 (fst e), snd e)) q) = [].
Proof.
  unfold burstOnly. induction q as [|[dl k] q IH]; [reflexivity|]. cbn.
  destruct (isBurst k); [discriminate|exact IH].
Qed.

Lemma burst_step (e : Event) (a b : Sys) :
  settledTurn a -> burstOnly (timers a) = [] -> step pg e a = Some b ->
  burstOnly (timers b) = [].
Proof.
  intros Ha H Hs.
  destruct (step_cases pg e a b Ha Hs)
    as [(r1 & r2 & d & t & rest & -> & Hpop & Hc & ->)|(d & u & -> & Hd & ->)];
    destruct Ha as [Hout _]; cbn [flush timers]; rewrite burstOnly_app.
  - apply popMin_split in Hpop as (l1 & l2 & Hq & -> & _).
    rewrite Hq, burstOnly_app in H. apply app_eq_nil in H as [H1 H2].
    assert (H3 : burstOnly l2 = []).
    { unfold burstOnly in *. cbn [filter snd] in H2.
      destruct (isBurst t); [discriminate|exact H2]. }
    rewrite burstOnly_app, H1, H3. cbn [app].
    apply burstOnly_shift. now rewrite burst_runTask, Hout.
  - rewrite H. cbn. apply burstOnly_shift. now rewrite burst_runUser, Hout.
Qed.

Lemma reachable_no_burst (tr : list Event) (y : Sys) :
  run pg tr (start pg) = Some y -> burstOnly (timers y) = [].
Proof.
  intros H.
  apply (run_invariant pg (fun y => settledTurn y /\ burstOnly (timers y) = [])
           tr (start pg) y); [| |exact H].
  - intros e a b [Ha Hb] Hs. split; [eapply step_settled; eauto|].
    eapply burst_step; eauto.
  - split; [apply start_settled|].
    unfold start. cbn [flush timers app]. apply burstOnly_shift.
    unfold init, animateTerminal, initStarfield.
    assert (Hl : forall ds i s, burstOnly (outbox (animateLines i ds s))
                                = burstOnly (outbox s)).
    { induction ds as [|d0 ds IH]; intros i s; cbn [animateLines]; [auto|].
      rewrite IH. burst_simpl. }
    burst_simpl. rewrite Hl. destruct (hasCanvas pg); reflexivity.
Qed.

End FramesAndBursts.


(** C7.  After an accept click at [t], with or without the confetti
    library: the handler returns; while the ask section can still be
    clicked it is fading and the timer that hides it is due at [t + 800];
    once hidden it stays hidden, the accepted state is visible and clicks
    on accept or retry change nothing; past [t + 800] it is hidden.
    Without the library no confetti burst is ever pending. *)
Theorem accept_hides_ask (pg : Page) (tr1 tr2 : list Event) (d : Z) (y1 y2 : Sys) :
  run pg tr1 (start pg) = Some y1 ->
  askClickable (st y1) = true ->
  run pg (User d ClickAccept :: tr2) y1 = Some y2 ->
  let t := clock y1 + d in
  (exists s', handleAccept pg (st y1) = Returned s') /\
  (askClickable (st y2) = true ->
     In (t + 800, AcceptDone) (timers y2) /\
     style (st y2) TheAsk Opacity = Css "0" /\
     clock y2 <= t + 800) /\
  (askClickable (st y2) = false ->
     style (st y2) TheAsk Display = Css "none" /\
     classes (st y2) AcceptedState Visible = true /\
     forall d' u y3, u = ClickAccept \/ u = ClickRetry ->
                     step pg (User d' u) y2 = Some y3 ->
                     st y3 = st y2 /\ timers y3 = timers y2) /\
  (t + 800 < clock y2 -> askClickable (st y2) = false) /\
  (hasConfetti pg = false -> burstOnly (timers y2) = []).
Proof.
  intros H1 Hc H2 t.
  destruct (accept_fades_then_hides pg tr1 tr2 d y1 y2 H1 Hc H2)
    as (Ha & Hb & Hd & He).
  repeat (split; [assumption|]).
  intros Hno.
  apply (reachable_no_burst pg Hno (tr1 ++ User d ClickAccept :: tr2)).
  rewrite run_app, H1. exact H2.
Qed.

(** ** The theorems at work on the example pages *)



Lemma globe_never_loads_fallback_witness :
  run (demoPage true) demoLanding (start (demoPage true))
    = Some (endOf (demoPage true) demoLanding) /\
  beginClickable (st (endOf (demoPage true) demoLanding)) = true /\
  globeLoaded (st (endOf (demoPage true) demoLanding)) = false /\
  forallb (fun e => negb (isGlobeLoad e)) (fires 55) = true /\
  run (demoPage true) (User 3000 ClickBegin :: fires 55)
      (endOf (demoPage true) demoLanding)
    = Some (endOf (demoPage true) (demoLanding ++ User 3000 ClickBegin :: fires 55)) /\
  globeBuilt
    (st (endOf (demoPage true) (demoLanding ++ User 3000 ClickBegin :: fires 55)))
    = false.
Proof.
  assert (H1 : run (demoPage true) demoLanding (start (demoPage true))
               = Some (endOf (demoPage true) demoLanding)) by (vm_compute; reflexivity).
  assert (H2 : beginClickable (st (endOf (demoPage true) demoLanding)) = true)
    by (vm_compute; reflexivity).
  assert (H3 : globeLoaded (st (endOf (demoPage true) demoLanding)) = false)
    by (vm_compute; reflexivity).
  assert (H4 : forallb (fun e => negb (isGlobeLoad e)) (fires 55) = true)
    by (vm_compute; reflexivity).
  assert (H5 : run (demoPage true) (User 3000 ClickBegin :: fires 55)
                   (endOf (demoPage true) demoLanding)
               = Some (endOf (demoPage true)
                         (demoLanding ++ User 3000 ClickBegin :: fires 55)))
    by (vm_compute; reflexivity).
  repeat (split; [assumption|]).
  exact (proj1 (globe_never_loads_fallback (demoPage true) demoLanding (fires 55) 3000
                  _ _ H1 H2 H3 H4 H5)).
Defined.

Lemma accept_hides_ask_witness :
  run (demoPage false) demoBegin (start (demoPage false))
    = Some (endOf (demoPage false) demoBegin) /\
  askClickable (st (endOf (demoPage false) demoBegin)) = true /\
  run (demoPage false) (User 100 ClickAccept :: fires 2)
      (endOf (demoPage false) demoBegin)
    = Some (endOf (demoPage false) (demoBegin ++ User 100 ClickAccept :: fires 2)) /\
  exists s', handleAccept (demoPage false) (st (endOf (demoPage false) demoBegin))
             = Returned s'.
Proof.
  assert (H1 : run (demoPage false) demoBegin (start (demoPage false))
               = Some (endOf (demoPage false) demoBegin)) by (vm_compute; reflexivity).
  assert (H2 : askClickable (st (endOf (demoPage false) demoBegin)) = true)
    by (vm_compute; reflexivity).
  assert (H3 : run (demoPage false) (User 100 ClickAccept :: fires 2)
                   (endOf (demoPage false) demoBegin)
               = Some (endOf (demoPage false)
                         (demoBegin ++ User 100 ClickAccept :: fires 2)))
    by (vm_compute; reflexivity).
  repeat (split; [assumption|]).
  exact (proj1 (accept_hides_ask (demoPage false) demoBegin (fires 2) 100
                  _ _ H1 H2 H3)).
Defined.


Lemma retry_escalation_witness :
  retryCount (markup (demoPage true)) = 0%nat /\ (1 <= 2 <= 3)%nat /\
  retryCount (retryTimes 2 (markup (demoPage true))) = 2%nat.
Proof.
  assert (H0 : retryCount (markup (demoPage true)) = 0%nat) by reflexivity.
  assert (Hk : (1 <= 2 <= 3)%nat) by lia.
  split; [exact H0|]. split; [exact Hk|].
  exact (proj1 (retry_escalation (markup (demoPage true)) 2 H0 Hk)).
Defined.


Lemma typewriter_guard_witness :
  (target (tw (markup barePage)) = None \/ target (tw (markup barePage)) = Some []) /\
  startTypewriter (tw (markup barePage)) = (tw (markup barePage), []).
Proof.
  assert (H : target (tw (markup barePage)) = None \/
              target (tw (markup barePage)) = Some []) by (left; reflexivity).
  split; [exact H|].
  exact (proj1 (typewriter_guard (markup barePage) H)).
Defined.


(** * Further properties of the handlers *)

(** ** The countdown fields *)

(** The fields of the countdown lose only the milliseconds below one
    second: days, hours, minutes and seconds add up to the remaining time
    rounded down to a whole second, each of the smaller fields stays in
    its range, and a tick one second later shows exactly one second
    less. *)
Theorem countdown_fields_recompose (diff : Z) :
  0 < diff ->
  countdownShown diff = diff - diff mod 1000 /\
  0 <= countdownDays diff /\
  0 <= countdownHours diff < 24 /\
  0 <= countdownMinutes diff < 60 /\
  0 <= countdownSeconds diff < 60 /\
  (1000 < diff -> countdownShown (diff - 1000) = countdownShown diff - 1000).
Proof.
  assert (E : forall d, 0 < d -> countdownShown d = d - d mod 1000).
  { intros d Hd. unfold countdownShown.
    destruct (countdown_fields d Hd) as (-> & -> & -> & ->).
    Z.div_mod_to_equations. lia. }
  intros H. destruct (countdown_fields diff H) as (Ed & Eh & Em & Es).
  split; [now apply E|].
  rewrite Ed, Eh, Em, Es.
  repeat split; try (apply Z.mod_pos_bound; lia); try (apply Z.div_pos; lia).
  intros Hd. rewrite !E by lia.
  Z.div_mod_to_equations. lia.
Qed.

Lemma countdown_fields_recompose_witness :
  0 < 90061999 /\ countdownShown 90061999 = 90061999 - 90061999 mod 1000.
Proof.
  assert (H : 0 < 90061999) by lia.
  split; [exact H|].
  exact (proj1 (countdown_fields_recompose 90061999 H)).
Defined.

(** ** The eased counter *)

Local Open Scope Q_scope.

Lemma cube_expand (x : Q) : x ^ 3 == x * x * x.
Proof. unfold Qpower. cbn. ring. Qed.

Lemma jsRound_le (x y : Q) : x <= y -> (jsRound x <= jsRound y)%Z.
Proof.
  intros H. unfold jsRound. apply Qfloor_resp_le. lra.
Qed.

Lemma progressAt_bounds (start now : Q) :
  start <= now -> 0 <= progressAt start now <= 1.
Proof.
  intros H. unfold progressAt. split; [|apply Q.le_min_r].
  apply Q.min_glb; [|discriminate].
  apply Qle_shift_div_l; [rewrite countDuration_value; reflexivity|].
  rewrite Qmult_0_l. lra.
Qed.

Lemma progressAt_le (start t1 t2 : Q) :
  t1 <= t2 -> progressAt start t1 <= progressAt start t2.
Proof.
  intros H. unfold progressAt.
  apply Q.min_le_compat_r.
  unfold Qdiv. apply Qmult_le_compat_r; [lra|].
  apply Qinv_le_0_compat. rewrite countDuration_value. discriminate.
Qed.

Lemma easeOutCubic_le (p q : Q) :
  p <= q -> q <= 1 -> easeOutCubic p <= easeOutCubic q.
Proof.
  intros Hpq Hq. unfold easeOutCubic. rewrite !cube_expand.
  assert (H1 : 0 <= 1 - q) by lra.
  assert (H2 : 1 - q <= 1 - p) by lra.
  set (a := 1 - q) in *. set (b := 1 - p) in *.
  assert (H3 : a * a <= b * b) by nra.
  assert (H4 : 0 <= a * a) by nra.
  assert (H5 : a * a * a <= b * b * a) by nra.
  assert (H6 : b * b * a <= b * b * b) by nra.
  lra.
Qed.

Lemma easeOutCubic_unit (p : Q) :
  0 <= p -> p <= 1 -> 0 <= easeOutCubic p <= 1.
Proof.
  intros H0 H1. unfold easeOutCubic. rewrite !cube_expand.
  assert (Ha : 0 <= 1 - p) by lra.
  assert (Hb : 1 - p <= 1) by lra.
  set (a := 1 - p) in *.
  assert (H3 : 0 <= a * a) by nra.
  assert (H4 : a * a <= 1) by nra.
  assert (H5 : 0 <= a * a * a) by nra.
  assert (H6 : a * a * a <= 1) by nra.
  split; lra.
Qed.



Local Close Scope Q_scope.

Local Open Scope Q_scope.
Local Open Scope Z_scope.

(** ** The starfield *)

Lemma Qfloor_nonneg (q : Q) : (0 <= q)%Q -> 0 <= Qfloor q.
Proof. intros H. change 0 with (Qfloor 0). now apply Qfloor_resp_le. Qed.

Lemma Qfloor_below (q : Q) (n : Z) : (q < inject_Z n)%Q -> Qfloor q < n.
Proof.
  intros H. pose proof (Qfloor_le q) as Hf.
  rewrite Zlt_Qlt. lra.
Qed.

Lemma inject_nonneg (z : Z) : 0 <= z -> (0 <= inject_Z z)%Q.
Proof. intros H. change (inject_Z 0 <= inject_Z z)%Q. now rewrite <- Zle_Qle. Qed.

Lemma snap_grid (r : Q) (extent : Z) :
  (0 <= r)%Q -> (r < 1)%Q -> 0 <= extent ->
  Starfield.snap r extent mod Starfield.PIXEL = 0 /\
  0 <= Starfield.snap r extent <= extent.
Proof.
  intros H0 H1 He. unfold Starfield.snap, Starfield.PIXEL.
  assert (Hq : (0 <= inject_Z extent)%Q) by (now apply inject_nonneg).
  set (q := (r * inject_Z extent / inject_Z 3)%Q).
  assert (Hq0 : (0 <= q)%Q).
  { unfold q. apply Qle_shift_div_l; [reflexivity|]. nra. }
  assert (Hq1 : (q * 3 <= inject_Z extent)%Q).
  { unfold q. field_simplify. nra. }
  pose proof (Qfloor_nonneg q Hq0) as Hf0.
  pose proof (Qfloor_le q) as Hf1.
  split; [apply Z.mod_mul; discriminate|].
  split; [lia|].
  rewrite Zle_Qle, inject_Z_mult. change (inject_Z 3) with 3%Q. lra.
Qed.

Lemma pick_colour (r : Q) :
  (0 <= r)%Q -> (r < 1)%Q -> Starfield.pick Starfield.STAR_COLORS r <> None.
Proof.
  intros H0 H1. unfold Starfield.pick.
  change (inject_Z (Z.of_nat (List.length Starfield.STAR_COLORS))) with 6%Q.
  assert (Ha : 0 <= Qfloor (r * 6)) by (apply Qfloor_nonneg; lra).
  assert (Hb : Qfloor (r * 6) < 6) by (apply Qfloor_below; change (inject_Z 6) with 6%Q; lra).
  destruct (Z.ltb_spec (Qfloor (r * 6)) 0) as [Hn|_]; [lia|].
  assert (Hc : (Z.to_nat (Qfloor (r * 6)) < 6)%nat) by lia.
  destruct (Z.to_nat (Qfloor (r * 6))) as [|[|[|[|[|[|n]]]]]]; cbn; try discriminate.
  lia.
Qed.

Lemma createStar_inField (w h : Z) (rand : nat -> Q) (n : nat) :
  0 <= w -> 0 <= h -> Starfield.unitDraws rand ->
  Starfield.inField w h (Starfield.createStar w h rand n) /\
  Starfield.on (Starfield.createStar w h rand n) = true.
Proof.
  intros Hw Hh Hr. split; [|reflexivity].
  unfold Starfield.inField, Starfield.createStar;
    cbn [Starfield.color Starfield.x Starfield.y Starfield.size Starfield.alpha
         Starfield.speed Starfield.twinkleRate Starfield.on].
  destruct (Hr n) as [A0 A1].
  destruct (Hr (n + 1)%nat) as [B0 B1].
  destruct (Hr (n + 2)%nat) as [C0 C1].
  destruct (Hr (n + 4)%nat) as [E0 E1].
  destruct (Hr (n + 6)%nat) as [G0 G1].
  destruct (snap_grid _ w B0 B1 Hw) as (X1 & X2).
  destruct (snap_grid _ h C0 C1 Hh) as (Y1 & Y2).
  assert (Hsz : forall b : bool, 0 < (if b then 2 else 1) * Starfield.PIXEL)
    by (intros [|]; reflexivity).
  repeat split.
  - now apply pick_colour.
  - exact X1.
  - apply X2.
  - apply X2.
  - destruct (Qlt_le_dec _ _);
      (apply Qle_trans with 0%Q; [discriminate|apply inject_nonneg; apply Y2]).
  - destruct (Qlt_le_dec (7 # 10) _);
      (apply Qle_trans with (inject_Z h + 0)%Q;
       [rewrite Qplus_0_r, <- Zle_Qle; apply Y2
       |apply Qplus_le_r; discriminate]).
  - destruct (Qlt_le_dec (7 # 10) _); [right|left]; reflexivity.
  - lra.
  - lra.
  - destruct (Qlt_le_dec (8 # 10) _); reflexivity.
  - apply Z.le_trans with (Qfloor 30); [vm_compute; discriminate|].
    apply Qfloor_resp_le. lra.
  - assert (Hlt : Qfloor (rand (n + 6)%nat * 60 + 30) < 90)
      by (apply Qfloor_below; change (inject_Z 90) with 90%Q; lra).
    lia.
Qed.

Lemma createStars_inField (rand : nat -> Q) (f : Starfield.Field) :
  0 <= Starfield.width f -> 0 <= Starfield.height f -> Starfield.unitDraws rand ->
  Forall (Starfield.inField (Starfield.width f) (Starfield.height f))
         (Starfield.stars (Starfield.createStars rand f)) /\
  List.length (Starfield.stars (Starfield.createStars rand f)) = Starfield.STAR_COUNT.
Proof.
  intros Hw Hh Hr. cbn [Starfield.createStars Starfield.stars]. split.
  - apply Forall_forall. intros s Hs. apply in_map_iff in Hs as (i & <- & _).
    now apply createStar_inField.
  - now rewrite length_map, length_seq.
Qed.

Lemma drawStar_inField (w h fc : Z) (r : Q) (s : Starfield.Star) :
  0 <= w -> 0 <= h -> (0 <= r)%Q -> (r < 1)%Q ->
  Starfield.inField w h s ->
  exists s' rects took,
    Starfield.drawStar w h fc r s = Some (s', rects, took) /\
    Starfield.inField w h s' /\
    Forall (Starfield.rectInField w h) rects /\
    Starfield.twinkleRate s' = Starfield.twinkleRate s /\
    Starfield.on s' = (if Starfield.twinkles fc s
                       then negb (Starfield.on s) else Starfield.on s).
Proof.
  intros Hw Hh H0 H1 (Hc & Hx1 & Hx2 & Hy1 & Hy2 & Hsz & Ha1 & Ha2 & Hsp & Hrate).
  unfold Starfield.drawStar.
  destruct (Starfield.color s) as [c|] eqn:Ec; [|congruence].
  remember (if Starfield.twinkles fc s
            then negb (Starfield.on s) else Starfield.on s) as lit eqn:Elit.
  assert (Hrect : Starfield.rectInField w h
                     {| Starfield.rectX := Starfield.x s; Starfield.rectY := Starfield.y s;
                        Starfield.rectSize := Starfield.size s;
                        Starfield.rectColor := c;
                        Starfield.rectAlpha := Starfield.alpha s |}).
  { unfold Starfield.rectInField; cbn. auto. }
  assert (Hsize : (0 < inject_Z (Starfield.size s))%Q).
  { destruct Hsz as [-> | ->]; reflexivity. }
  assert (Hhq : (0 <= inject_Z h)%Q) by (now apply inject_nonneg).
  destruct (snap_grid r w H0 H1 Hw) as (G1 & G2).
  destruct lit; destruct (Qlt_le_dec _ _) as [Hwrap|Hstay];
    eexists _, _, _; (split; [reflexivity|]);
    (split; [|split; [first [once (constructor; [exact Hrect|constructor])|once constructor]
                      |split; reflexivity]]);
    unfold Starfield.inField;
    cbn [Starfield.color Starfield.x Starfield.y Starfield.size Starfield.alpha
         Starfield.speed Starfield.twinkleRate Starfield.on];
    rewrite ?Ec;
    repeat split; auto; try apply G2; try apply Hx2; try apply Hrate;
    try discriminate; lra.
Qed.

Lemma drawStars_inField (w h fc : Z) (rand : nat -> Q) (l : list Starfield.Star) :
  0 <= w -> 0 <= h -> Starfield.unitDraws rand ->
  forall n, Forall (Starfield.inField w h) l ->
  exists l' rects n',
    Starfield.drawStars w h fc rand n l = Some (l', rects, n') /\
    Forall (Starfield.inField w h) l' /\
    Forall (Starfield.rectInField w h) rects /\
    Forall2 (fun s s' =>
               Starfield.twinkleRate s' = Starfield.twinkleRate s /\
               Starfield.on s' = (if Starfield.twinkles fc s
                                  then negb (Starfield.on s) else Starfield.on s))
            l l'.
Proof.
  intros Hw Hh Hr. induction l as [|s l IH]; intros n Hl.
  - exists [], [], n. repeat split; constructor.
  - inversion Hl as [|? ? Hs Hl']; subst.
    destruct (Hr n) as [R0 R1].
    destruct (drawStar_inField w h fc (rand n) s Hw Hh R0 R1 Hs)
      as (s' & rects & took & E & Hs' & Hrects & Hkeep).
    destruct (IH (if took then S n else n) Hl')
      as (l' & rects' & n' & E' & Hl2 & Hr2 & Hk2).
    exists (s' :: l'), (rects ++ rects'), n'.
    cbn [Starfield.drawStars]. rewrite E, E'.
    repeat split; auto.
    apply Forall_app. now split.
Qed.

Lemma draw_inField (rand : nat -> Q) (f : Starfield.Field) :
  0 <= Starfield.width f -> 0 <= Starfield.height f -> Starfield.unitDraws rand ->
  Forall (Starfield.inField (Starfield.width f) (Starfield.height f)) (Starfield.stars f) ->
  exists f',
    Starfield.draw rand f = Some f' /\
    Starfield.width f' = Starfield.width f /\
    Starfield.height f' = Starfield.height f /\
    Starfield.frameCount f' = Starfield.frameCount f + 1 /\
    Forall (Starfield.inField (Starfield.width f) (Starfield.height f)) (Starfield.stars f') /\
    Forall (Starfield.rectInField (Starfield.width f) (Starfield.height f))
           (Starfield.drawn f') /\
    Forall2 (fun s s' =>
               Starfield.twinkleRate s' = Starfield.twinkleRate s /\
               Starfield.on s' = (if Starfield.twinkles (Starfield.frameCount f + 1) s
                                  then negb (Starfield.on s) else Starfield.on s))
            (Starfield.stars f) (Starfield.stars f').
Proof.
  intros Hw Hh Hr Hl. unfold Starfield.draw.
  destruct (drawStars_inField _ _ (Starfield.frameCount f + 1) rand (Starfield.stars f)
              Hw Hh Hr (Starfield.used f) Hl)
    as (l' & rects & n' & E & H1 & H2 & H3).
  rewrite E. eexists. split; [reflexivity|]. cbn. auto 10.
Qed.

(** The invariant of the canvas. *)
Lemma canvasRun_inField (rand : nat -> Q) (es : list Starfield.CanvasEvent)
  (f : Starfield.Field) :
  Starfield.unitDraws rand -> Starfield.sizesNonneg es ->
  0 <= Starfield.width f -> 0 <= Starfield.height f ->
  Forall (Starfield.inField (Starfield.width f) (Starfield.height f)) (Starfield.stars f) ->
  Forall (Starfield.rectInField (Starfield.width f) (Starfield.height f)) (Starfield.drawn f) ->
  List.length (Starfield.stars f) = Starfield.STAR_COUNT ->
  exists f',
    Starfield.canvasRun rand es f = Some f' /\
    0 <= Starfield.width f' /\ 0 <= Starfield.height f' /\
    Forall (Starfield.inField (Starfield.width f') (Starfield.height f')) (Starfield.stars f') /\
    Forall (Starfield.rectInField (Starfield.width f') (Starfield.height f'))
           (Starfield.drawn f') /\
    List.length (Starfield.stars f') = Starfield.STAR_COUNT.
Proof.
  intros Hr. revert f. induction es as [|e es IH]; intros f Hes Hw Hh Hl Hd Hn.
  - exists f. cbn. auto 10.
  - inversion Hes as [|? ? He Hes']; subst. cbn [Starfield.canvasRun].
    destruct e as [|w h]; cbn [Starfield.canvasStep].
    + destruct (draw_inField rand f Hw Hh Hr Hl)
        as (f' & E & Ew & Eh & _ & Hl' & Hd' & Hk).
      rewrite E. apply IH; auto; rewrite ?Ew, ?Eh; auto.
      apply Forall2_length in Hk. congruence.
    + destruct He as [Hw' Hh'].
      destruct (createStars_inField rand (Starfield.resize w h f) Hw' Hh' Hr) as [Hc Hlen].
      apply IH; auto.
Qed.



(** *** Twinkling *)

Lemma twinkles_step (fc : Z) (s : Starfield.Star) :
  0 <= fc -> 30 <= Starfield.twinkleRate s ->
  (fc + 1) / Starfield.twinkleRate s =
  fc / Starfield.twinkleRate s + (if Starfield.twinkles (fc + 1) s then 1 else 0).
Proof.
  intros Hfc Hr. unfold Starfield.twinkles.
  destruct (Z.eqb_spec (Starfield.twinkleRate s) 0) as [E|_]; [lia|].
  rewrite Z.rem_mod_nonneg by lia.
  destruct (Z.eqb_spec ((fc + 1) mod Starfield.twinkleRate s) 0) as [E|N];
    Z.div_mod_to_equations; nia.
Qed.

Lemma Forall2_with {A B : Type} (P : A -> Prop) (R : A -> B -> Prop) (l : list A)
  (l' : list B) :
  Forall P l -> Forall2 R l l' -> Forall2 (fun a b => P a /\ R a b) l l'.
Proof.
  intros HP HR. induction HR; inversion HP; subst; constructor; auto.
Qed.

Lemma Forall2_chain {A : Type} (R1 R2 R3 : A -> A -> Prop) (l1 l2 l3 : list A) :
  (forall a b c, R1 a b -> R2 b c -> R3 a c) ->
  Forall2 R1 l1 l2 -> Forall2 R2 l2 l3 -> Forall2 R3 l1 l3.
Proof.
  intros H H1. revert l3. induction H1; intros l3 H2; inversion H2; subst;
    constructor; eauto.
Qed.

Lemma Forall2_same {A : Type} (R : A -> A -> Prop) (l : list A) :
  (forall a, R a a) -> Forall2 R l l.
Proof. intros H. induction l; constructor; auto. Qed.

Lemma draws_twinkle (rand : nat -> Q) (n : nat) :
  Starfield.unitDraws rand ->
  forall f,
    0 <= Starfield.width f -> 0 <= Starfield.height f -> 0 <= Starfield.frameCount f ->
    Forall (Starfield.inField (Starfield.width f) (Starfield.height f)) (Starfield.stars f) ->
    exists f',
      Starfield.canvasRun rand (repeat Starfield.NextDraw n) f = Some f' /\
      Forall2 (fun s s' =>
                 Starfield.twinkleRate s' = Starfield.twinkleRate s /\
                 Starfield.on s' =
                 xorb (Starfield.on s)
                      (Z.odd ((Starfield.frameCount f + Z.of_nat n) / Starfield.twinkleRate s
                              - Starfield.frameCount f / Starfield.twinkleRate s)))
              (Starfield.stars f) (Starfield.stars f').
Proof.
  intros Hr. induction n as [|n IH]; intros f Hw Hh Hfc Hl.
  - exists f. split; [reflexivity|]. apply Forall2_same. intros s.
    split; [reflexivity|]. rewrite Z.add_0_r, Z.sub_diag. now destruct (Starfield.on s).
  - cbn [repeat Starfield.canvasRun Starfield.canvasStep].
    destruct (draw_inField rand f Hw Hh Hr Hl)
      as (f1 & E & Ew & Eh & Ec & Hl1 & _ & Hk).
    rewrite E. rewrite <- Ew, <- Eh in Hl1.
    destruct (IH f1 ltac:(lia) ltac:(lia) ltac:(lia) Hl1) as (f' & E' & Hk').
    exists f'. split; [exact E'|].
    apply (Forall2_with _ _ _ _ Hl) in Hk.
    eapply Forall2_chain; [|exact Hk|exact Hk'].
    intros a b c (Ha & Hb1 & Hb2) (Hc1 & Hc2). cbn beta in *.
    split; [congruence|].
    rewrite Hc2, Hb2, Hb1, Ec.
    assert (Hrate : 30 <= Starfield.twinkleRate a) by apply Ha.
    pose proof (twinkles_step (Starfield.frameCount f) a Hfc Hrate) as Hstep.
    replace (Starfield.frameCount f + 1 + Z.of_nat n)
      with (Starfield.frameCount f + Z.of_nat (S n)) by lia.
    rewrite Hstep.
    set (A := (Starfield.frameCount f + Z.of_nat (S n)) / Starfield.twinkleRate a).
    set (B := Starfield.frameCount f / Starfield.twinkleRate a).
    destruct (Starfield.twinkles (Starfield.frameCount f + 1) a).
    + replace (A - (B + 1)) with (A - B - 1) by lia.
      rewrite (Z.odd_sub (A - B) 1). cbn.
      destruct (Starfield.on a), (Z.odd (A - B)); reflexivity.
    + now rewrite Z.add_0_r.
Qed.

(** While the window keeps its size a star is lit exactly when an even
    number of multiples of its twinkle period lies among the frames drawn
    so far: after [n] frames, when [n / twinkleRate] is even. *)
Theorem starfield_twinkle_period (w h : Z) (rand : nat -> Q) (n : nat) :
  0 <= w -> 0 <= h -> Starfield.unitDraws rand ->
  exists f,
    Starfield.canvasRun rand (repeat Starfield.NextDraw n) (Starfield.open w h rand)
      = Some f /\
    Starfield.frameCount f = Z.of_nat n /\
    Forall (fun s => Starfield.on s = Z.even (Z.of_nat n / Starfield.twinkleRate s))
           (Starfield.stars f).
Proof.
  intros Hw Hh Hr.
  destruct (createStars_inField rand
              (Starfield.resize w h
                 {| Starfield.width := 0; Starfield.height := 0; Starfield.stars := [];
                    Starfield.frameCount := 0; Starfield.drawn := [];
                    Starfield.used := 0 |}) Hw Hh Hr) as [Hc _].
  destruct (draws_twinkle rand n Hr (Starfield.open w h rand) Hw Hh (Z.le_refl 0) Hc)
    as (f & E & Hk).
  exists f. split; [exact E|]. split.
  - clear Hk Hc. revert E.
    assert (G : forall m g g', Starfield.canvasRun rand (repeat Starfield.NextDraw m) g
                               = Some g' ->
                               Starfield.frameCount g' = Starfield.frameCount g + Z.of_nat m).
    { induction m as [|m IHm]; intros g g' Hg; cbn in Hg.
      - inversion Hg; subst. lia.
      - unfold Starfield.draw in Hg.
        destruct (Starfield.drawStars _ _ _ _ _ _) as [[[l rects] k]|]; [|discriminate].
        apply IHm in Hg. cbn in Hg. lia. }
    intros E. apply G in E. exact E.
  - assert (Hon : Forall (fun s => Starfield.on s = true)
                         (Starfield.stars (Starfield.open w h rand))).
    { apply Forall_forall. intros s Hs.
      unfold Starfield.open, Starfield.createStars in Hs. cbn [Starfield.stars] in Hs.
      apply in_map_iff in Hs as (i & <- & _). reflexivity. }
    clear E Hc. revert Hon Hk.
    generalize (Starfield.stars (Starfield.open w h rand)) as l.
    generalize (Starfield.stars f) as l'.
    intros l' l Hon Hk. induction Hk as [|s s' l l' (Hrate & Hs) Hk IH];
      constructor; inversion Hon; subst; auto.
    rewrite Hs, Hrate. change (Starfield.frameCount (Starfield.open w h rand)) with 0.
    rewrite Z.add_0_l, Z.sub_0_r.
    replace (Starfield.on s) with true by (symmetry; assumption).
    rewrite <- Hrate, <- Z.negb_odd.
    now destruct (Z.odd _).
Qed.

Lemma starfield_twinkle_period_witness :
  0 <= 800 /\ 0 <= 600 /\ Starfield.unitDraws (fun _ => 1 # 2) /\
  exists f,
    Starfield.canvasRun (fun _ => 1 # 2) (repeat Starfield.NextDraw 61)
      (Starfield.open 800 600 (fun _ => 1 # 2)) = Some f /\
    Starfield.frameCount f = Z.of_nat 61 /\
    Forall (fun s => Starfield.on s = Z.even (Z.of_nat 61 / Starfield.twinkleRate s))
           (Starfield.stars f).
Proof.
  assert (Hw : 0 <= 800) by lia.
  assert (Hh : 0 <= 600) by lia.
  assert (Hr : Starfield.unitDraws (fun _ => 1 # 2))
    by (intros n; split; [discriminate|reflexivity]).
  split; [exact Hw|]. split; [exact Hh|]. split; [exact Hr|].
  exact (starfield_twinkle_period 800 600 (fun _ => 1 # 2) 61 Hw Hh Hr).
Defined.

Local Close Scope Q_scope.

(** ** The typewriter: how long it takes *)

Lemma pause_typingTime (full : string) (more : list string) :
  typingTime (full :: more) =
  TYPEWRITER_SPEED * Z.of_nat (String.length full) + pauseThenRest more.
Proof. reflexivity. Qed.

Lemma skipn_pre {A : Type} (l1 l2 : list A) : skipn (List.length l1) (l1 ++ l2) = l2.
Proof. induction l1 as [|a l1 IH]; cbn; auto. Qed.

Arguments typingTime : simpl never.
Arguments pauseThenRest : simpl never.

(** The time that is left when [typeChar] returns. *)
Lemma typeChar_time (fulls pre : list string) (full : string) (more : list string)
  (c depth : nat) (t : Typewriter) :
  TypingAt fulls pre full more c t ->
  twRemaining (snd (typeChar (typeNextParagraphAt depth) (List.length pre) t))
              (fst (typeChar (typeNextParagraphAt depth) (List.length pre) t)) =
  TYPEWRITER_SPEED * (Z.of_nat (String.length full) - Z.of_nat c) + pauseThenRest more.
Proof.
  intros [Hf Ht Hi Hc Hb Hcur (dones & cur & Hd & Hn & Hv & Htg)].
  pose proof (Forall2_length' _ _ _ Hd) as Hlen.
  unfold typeChar.
  assert (Hfull : nth (List.length pre) (texts t) EmptyString = full)
    by (rewrite Ht, Hf; apply nth_mid).
  rewrite Hfull, Hc.
  destruct (Nat.ltb_spec c (String.length full)) as [Hlt|Hge].
  - rewrite get_chars.
    destruct (nth_error (chars full) c) as [ch|] eqn:Hch;
      [|apply nth_error_None in Hch; rewrite length_chars in Hch; lia].
    rewrite Htg, Hlen, nth_error_mid, Hn, insertBeforeCursor_end.
    cbn [fst snd twRemaining texts charIndex]. rewrite <- Hlen.
    rewrite Hfull, Ht, Hf, skipn_exact. unfold TYPEWRITER_SPEED. lia.
  - assert (E : c = String.length full) by lia.
    cbn [pIndex texts]. rewrite Ht, Hi.
    assert (Hfl : List.length fulls = (List.length pre + S (List.length more))%nat)
      by (rewrite Hf, length_app; reflexivity).
    destruct (Nat.ltb_spec (S (List.length pre)) (List.length fulls)) as [Hmore|Hlast].
    + cbn [fst snd twRemaining pIndex texts]. rewrite ?Ht, ?Hi, Hf, skipn_exact.
      destruct more as [|m more]; [cbn in Hfl; lia|].
      unfold pauseThenRest. unfold TYPEWRITER_SPEED. lia.
    + destruct more as [|m more]; [|cbn in Hfl; lia].
      destruct depth as [|depth]; cbn [typeNextParagraphAt pIndex texts];
        rewrite ?Ht;
        (destruct (Nat.leb_spec (List.length fulls) (S (List.length pre)));
         [|lia]);
        cbn [fst snd twRemaining]; unfold pauseThenRest, TYPEWRITER_SPEED; lia.
Qed.

Lemma twCallback_time (fulls : list string) (dl : Z) (k : Task)
  (t : Typewriter) (m : nat) :
  TwInv fulls [(dl, k)] t (S m) ->
  twRemaining [(dl, k)] t =
  dl + twRemaining (snd (twCallback k t)) (fst (twCallback k t)).
Proof.
  intros H. inversion H as [pre post dones dl' t' Hf Hp Ht Hi Hcur Hd Htg
                           |pre full more c dl' t' Hta| |]; subst.
  - destruct post as [|full more]; [congruence|].
    pose proof (Forall2_length' _ _ _ Hd) as Hlen.
    cbn [twRemaining]. rewrite Ht, Hi, skipn_pre, pause_typingTime.
    unfold twCallback, typeNextParagraph. cbn [typeNextParagraphAt].
    rewrite Ht, length_app, Hi.
    destruct (Nat.leb_spec (List.length pre + List.length (full :: more))
                           (List.length pre)) as [Hbad|_]; [cbn in Hbad; lia|].
    rewrite (typeChar_time (pre ++ full :: more) pre full more 0 0); [lia|].
    constructor; cbn; auto; try lia.
    exists (map detachCursor dones),
      {| nodes := [CursorNode]; displayNone := false |}.
    repeat split; auto using Forall2_detach.
    rewrite Htg. cbn [option_map]. f_equal.
    unfold blanks at 1. cbn [map].
    rewrite Hlen, update_nth_app. unfold appendCursor.
    rewrite map_app. cbn [map].
    rewrite <- (length_map detachCursor dones), update_nth_app.
    fold (blanks more). rewrite detach_blanks. reflexivity.
  - unfold twCallback, typeNextParagraph.
    rewrite (typeChar_time _ _ _ _ _ 1 _ Hta).
    destruct Hta as [Hf Ht Hi Hc Hb Hcur _].
    cbn [twRemaining]. rewrite Ht, Hf, nth_mid, skipn_exact, Hc. lia.
  - unfold twCallback, fadeCursor. cbn [fst snd twRemaining]. lia.
Qed.

Lemma twElapsed_remaining (fulls : list string) (n : nat) :
  forall q t m now,
    TwInv fulls q t m ->
    exists q', TwInv fulls q' (twRun n q t) (m - n) /\
               twElapsed n q t now + twRemaining q' (twRun n q t)
               = now + twRemaining q t.
Proof.
  induction n as [|n IH]; intros q t m now H.
  - exists q. rewrite Nat.sub_0_r. split; [exact H|reflexivity].
  - assert (Hq : (q = [] /\ m = 0%nat) \/ exists dl k m', q = [(dl, k)] /\ m = S m').
    { inversion H; subst; [right|right|right|left]; eauto. }
    destruct Hq as [[-> ->]|(dl & k & m' & -> & ->)].
    + exists []. split; [exact H|reflexivity].
    + cbn [twRun twElapsed].
      pose proof (twCallback_step fulls dl k t m' H) as Hs.
      pose proof (twCallback_time fulls dl k t m' H) as Ht.
      destruct (twCallback k t) as [t' new]. cbn [fst snd] in Hs, Ht. cbn [app].
      destruct (IH new t' m' (now + dl) Hs) as (q' & Hq' & E).
      exists q'. split; [exact Hq'|]. lia.
Qed.

Lemma typingTime_total (ps : list Para) :
  ps <> [] ->
  typingTime (map innerText ps) =
  TYPEWRITER_SPEED * Z.of_nat (totalChars ps)
  + 400 * (Z.of_nat (List.length ps) - 1) + 1500.
Proof.
  induction ps as [|p ps IH]; [congruence|]. intros _.
  cbn [map]. rewrite pause_typingTime. cbn [totalChars fold_right List.length].
  destruct ps as [|p' ps].
  - cbn. unfold pauseThenRest, TYPEWRITER_SPEED. lia.
  - unfold pauseThenRest. cbn [map]. cbn [map] in IH. rewrite IH by discriminate.
    fold (totalChars (p' :: ps)). unfold TYPEWRITER_SPEED.
    cbn [List.length]. lia.
Qed.

Lemma cursor_before_end (fulls : list string) (q : list (Z * Task)) (t : Typewriter)
  (m : nat) :
  TwInv fulls q t m -> cursor t = Some (m =? 0)%nat.
Proof.
  intros H. inversion H as [pre post dones dl t' Hf Hp Ht Hi Hcur Hd Htg
                           |pre full more c dl t' Hta
                           |dones dl t' Ht Hi Hcur Hd Htg
                           |dones t' Ht Hi Hcur Hd Htg]; subst;
    try (destruct Hta as [_ _ _ _ _ Hcur _]); rewrite Hcur; f_equal;
    reflexivity.
Qed.

(** The typewriter started on the paragraphs [ps] fades its cursor in the
    callback that runs 1800 ms, 25 ms for every character, 400 ms between
    two paragraphs and 1500 ms after [startTypewriter] was called; until
    that callback the cursor blinks, and by then every paragraph shows its
    text. *)
Theorem typewriter_duration (ps : list Para) (n : nat) :
  ps <> [] ->
  typewriterEnd ps =
    1800 + TYPEWRITER_SPEED * Z.of_nat (totalChars ps)
    + 400 * (Z.of_nat (List.length ps) - 1) + 1500 /\
  cursor (twAfter n ps) = Some (callbacksNeeded ps <=? n)%nat /\
  ((callbacksNeeded ps <= n)%nat -> revealed (twAfter n ps) = map innerText ps).
Proof.
  intros Hps.
  pose proof (start_inv ps Hps) as H0.
  split; [|split].
  - unfold typewriterEnd.
    destruct (twElapsed_remaining (map innerText ps) (callbacksNeeded ps) _ _ _ 0 H0)
      as (q' & Hq' & E).
    rewrite Nat.sub_diag in Hq'.
    assert (Eq : q' = []) by (inversion Hq'; reflexivity).
    subst q'. cbn [twRemaining] in E. rewrite Z.add_0_r, Z.add_0_l in E.
    rewrite E. unfold startTypewriter, twFresh. cbn [target].
    destruct ps as [|p ps]; [congruence|].
    cbn [snd fst twRemaining pIndex texts skipn].
    rewrite typingTime_total by discriminate. lia.
  - unfold twAfter.
    destruct (startTypewriter (twFresh ps)) as [t1 q1]. cbn [fst snd] in H0.
    destruct (twRun_inv (map innerText ps) n q1 t1 _ H0) as [q' Hn].
    rewrite (cursor_before_end _ _ _ _ Hn). f_equal.
    destruct (Nat.leb_spec (callbacksNeeded ps) n);
      destruct (Nat.eqb_spec (callbacksNeeded ps - n) 0); auto; lia.
  - intros Hle. apply (engine_reveals_in_order ps n). exact Hle.
Qed.

Lemma typewriter_duration_witness :
  demoParas <> [] /\ typewriterEnd demoParas = 4225.
Proof.
  assert (H : demoParas <> []) by discriminate.
  split; [exact H|].
  exact (proj1 (typewriter_duration demoParas 0 H)).
Defined.

(** ** The typewriter: one cursor *)

Lemma cursors_cons (l : list Node) (ls : list (list Node)) :
  List.length (filter is_cursor (List.concat (l :: ls))) =
  (List.length (filter is_cursor l)
   + List.length (filter is_cursor (List.concat ls)))%nat.
Proof. cbn [List.concat]. now rewrite filter_app, length_app. Qed.

Lemma cursors_detached (ps : list Para) :
  List.length (filter is_cursor (List.concat (map nodes (map detachCursor ps)))) = 0%nat.
Proof.
  induction ps as [|p ps IH]; [reflexivity|].
  cbn [map]. rewrite cursors_cons, IH. cbn [detachCursor nodes].
  rewrite Nat.add_0_r.
  induction (nodes p) as [|n ns IHn]; [reflexivity|].
  cbn [filter]. destruct n; cbn; auto.
Qed.

Lemma cursors_update (i : nat) (f : Para -> Para) (ps : list Para) (d : nat) :
  (forall p, List.length (filter is_cursor (nodes (f p))) =
             (List.length (filter is_cursor (nodes p)) + d)%nat) ->
  List.length (filter is_cursor (List.concat (map nodes (update_nth i f ps)))) =
  (List.length (filter is_cursor (List.concat (map nodes ps)))
   + (if (i <? List.length ps)%nat then d else 0))%nat.
Proof.
  intros Hf. revert i. induction ps as [|p ps IH]; intros i; [destruct i; reflexivity|].
  destruct i as [|i]; cbn [update_nth map].
  - rewrite !cursors_cons, Hf. cbn. lia.
  - rewrite !cursors_cons, IH. cbn [List.length].
    change (S i <? S (List.length ps))%nat with (i <? List.length ps)%nat. lia.
Qed.

Lemma cursors_replace (i : nat) (ns : list Node) (p : Para) (ps : list Para) :
  nth_error ps i = Some p ->
  List.length (filter is_cursor ns) = List.length (filter is_cursor (nodes p)) ->
  List.length (filter is_cursor (List.concat (map nodes
     (update_nth i (fun q => {| nodes := ns; displayNone := displayNone q |}) ps)))) =
  List.length (filter is_cursor (List.concat (map nodes ps))).
Proof.
  revert i. induction ps as [|q ps IH]; intros i Hi Hn; [destruct i; discriminate|].
  destruct i as [|i]; cbn [update_nth nth_error map] in *.
  - inversion Hi; subst. rewrite !cursors_cons. cbn [nodes]. lia.
  - rewrite !cursors_cons, (IH i Hi Hn). reflexivity.
Qed.

Lemma insertBeforeCursor_cursors (n : Node) (l ns : list Node) :
  is_cursor n = false -> insertBeforeCursor n l = Some ns ->
  List.length (filter is_cursor ns) = List.length (filter is_cursor l).
Proof.
  intros Hn. revert ns. induction l as [|x l IH]; intros ns H; cbn in H; [discriminate|].
  destruct x as [s|].
  - destruct (insertBeforeCursor n l) as [r|]; [|discriminate].
    inversion H; subst. cbn. now apply IH.
  - inversion H; subst. cbn. now rewrite Hn.
Qed.

Lemma length_update_nth {A : Type} (i : nat) (f : A -> A) (l : list A) :
  List.length (update_nth i f l) = List.length l.
Proof.
  revert i. induction l as [|a l IH]; intros [|i]; cbn; auto.
Qed.

Lemma typeChar_cursor (next : Typewriter -> TwResult) (i : nat) (t : Typewriter) (c : nat) :
  (forall t', twShape t' -> cursorCount t' = c ->
              twShape (fst (next t')) /\ cursorCount (fst (next t')) = c) ->
  twShape t -> cursorCount t = c ->
  twShape (fst (typeChar next i t)) /\ cursorCount (fst (typeChar next i t)) = c.
Proof.
  intros Hnext Hs Hc. unfold typeChar.
  destruct (_ <? _)%nat.
  - destruct (String.get _ _) as [ch|]; [|auto].
    destruct (target t) as [ps|] eqn:Et; [|auto].
    destruct (nth_error ps i) as [p|] eqn:Ep; [|auto].
    destruct (insertBeforeCursor _ (nodes p)) as [ns|] eqn:Ei; [|auto].
    cbn [fst]. split.
    + destruct Hs as (ps' & E & Hl). rewrite Et in E. inversion E; subst ps'.
      eexists. split; [reflexivity|]. cbn [texts]. now rewrite length_update_nth.
    + unfold cursorCount, paragraphsOf in *. cbn [target]. rewrite Et in Hc.
      rewrite (cursors_replace i ns p ps Ep); [exact Hc|].
      eapply insertBeforeCursor_cursors; [|exact Ei]. reflexivity.
  - set (t' := {| target := target t; texts := texts t; pIndex := S (pIndex t);
                  charIndex := charIndex t; cursor := cursor t |}).
    assert (Hs' : twShape t') by exact Hs.
    assert (Hc' : cursorCount t' = c) by exact Hc.
    destruct (_ <? _)%nat; [cbn [fst]; auto|].
    now apply Hnext.
Qed.

Lemma typeNextParagraphAt_cursor (depth : nat) (t : Typewriter) :
  twShape t -> (cursorCount t <= 1)%nat ->
  twShape (fst (typeNextParagraphAt depth t)) /\
  cursorCount (fst (typeNextParagraphAt depth t)) =
  (if (List.length (texts t) <=? pIndex t)%nat then cursorCount t
   else match depth with O => cursorCount t | S _ => 1%nat end).
Proof.
  revert t. induction depth as [|d IH]; intros t Hs Hc; cbn [typeNextParagraphAt];
    destruct (Nat.leb_spec (List.length (texts t)) (pIndex t)) as [Hend|Hmore];
    cbn [fst]; auto.
  destruct Hs as (ps & Et & Hl).
  apply typeChar_cursor.
  - intros t' Hs' Hc'. destruct (IH t' Hs' ltac:(lia)) as [H1 H2].
    split; [exact H1|]. rewrite H2.
    destruct (_ <=? _)%nat; [exact Hc'|]. destruct d; [exact Hc'|reflexivity].
  - exists (appendCursor (pIndex t) (update_nth (pIndex t) showPara ps)).
    cbn [target texts]. rewrite Et. split; [reflexivity|].
    unfold appendCursor. now rewrite length_update_nth, length_map, length_update_nth.
  - unfold cursorCount, paragraphsOf. cbn [target]. rewrite Et. cbn [option_map].
    unfold appendCursor.
    rewrite (cursors_update _ _ _ 1).
    + rewrite cursors_detached, length_map, length_update_nth, Hl.
      destruct (Nat.ltb_spec (pIndex t) (List.length (texts t))); [reflexivity|lia].
    + intros p. cbn [nodes]. rewrite filter_app, length_app. reflexivity.
Qed.

Lemma twCallback_cursor (k : Task) (t : Typewriter) :
  twShape t -> cursorCount t = 1%nat ->
  twShape (fst (twCallback k t)) /\ cursorCount (fst (twCallback k t)) = 1%nat.
Proof.
  intros Hs Hc. destruct k; try (cbn; now auto); unfold twCallback.
  - unfold typeNextParagraph.
    destruct (typeNextParagraphAt_cursor 1 t Hs ltac:(lia)) as [H1 H2].
    split; [exact H1|]. rewrite H2.
    destruct (_ <=? _)%nat; [assumption|reflexivity].
  - apply typeChar_cursor; auto.
    intros t' Hs' Hc'. unfold typeNextParagraph.
    destruct (typeNextParagraphAt_cursor 1 t' Hs' ltac:(lia)) as [H1 H2].
    split; [exact H1|]. rewrite H2.
    destruct (_ <=? _)%nat; [assumption|reflexivity].
Qed.

Lemma twRun_cursor (n : nat) :
  forall q t, twShape t -> cursorCount t = 1%nat ->
              cursorCount (twRun n q t) = 1%nat.
Proof.
  induction n as [|n IH]; intros q t Hs Hc; [exact Hc|].
  destruct q as [|[dl k] rest]; [exact Hc|]. cbn [twRun].
  destruct (twCallback_cursor k t Hs Hc) as [H1 H2].
  destruct (twCallback k t) as [t' new]. now apply IH.
Qed.

Lemma cursors_blank (ps : list Para) :
  List.length (filter is_cursor
                 (List.concat (map nodes (map (fun _ : Para => blankPara) ps)))) = 0%nat.
Proof. induction ps as [|p ps IH]; [reflexivity|]. cbn [map]. now rewrite cursors_cons, IH. Qed.

Lemma engine_one_cursor (ps : list Para) (n : nat) :
  ps <> [] -> cursorCount (twAfter n ps) = (if (n =? 0)%nat then 0 else 1)%nat.
Proof.
  intros Hps. unfold twAfter, startTypewriter, twFresh. cbn [target].
  destruct ps as [|p ps]; [congruence|].
  set (t1 := {| target := Some (map (fun _ : Para => blankPara) (p :: ps));
                texts := map innerText (p :: ps); pIndex := 0; charIndex := 0;
                cursor := Some false |}).
  assert (Hs : twShape t1).
  { eexists. split; [reflexivity|]. unfold t1. cbn [texts]. now rewrite !length_map. }
  assert (Hc : cursorCount t1 = 0%nat) by (unfold t1; apply cursors_blank).
  destruct n as [|n]; [exact Hc|]. cbn [twRun Nat.eqb].
  unfold twCallback at 1, typeNextParagraph.
  destruct (typeNextParagraphAt_cursor 1 t1 Hs ltac:(lia)) as [H1 H2].
  change (List.length (texts t1) <=? pIndex t1)%nat with false in H2.
  destruct (typeNextParagraphAt 1 t1) as [t' new]. cbn [fst] in *.
  now apply twRun_cursor.
Qed.



(** ** What the callbacks leave alone *)

Arguments Elem_beq !X !Y.
Arguments Class_beq !X !Y.
Arguments StyleProp_beq !X !Y.
Arguments Task_beq !X !Y.

Ltac split_writes H :=
  cbn [classWrites styleWrites textWrites userClassWrites userStyleWrites
       userTextWrites writesClass writesStyle writesText existsb fst snd] in H;
  rewrite ?orb_false_r in H;
  repeat (let H1 := fresh "Hw" in
          apply orb_false_iff in H; destruct H as [H1 H]).

Ltac use_writes :=
  repeat match goal with
         | H : ?x = false |- context [if ?x then _ else _] => rewrite H
         end.

Ltac open_handlers :=
  unfold activateLetter, startArc, scheduleStatusUpdates, animateLatencyCounter,
    startCountdown, countdownUpdate, createAmbientParticles, acceptDone, dodge,
    clearFinal, liftTw, handleRetry in *.

(** *** Animation frames *)

Lemma classes_animationFrame (now : Z) (s : State) (e : Elem) (c : Class) :
  classes (animationFrame now s) e c = classes s e c.
Proof.
  unfold animationFrame.
  change (classes s e c) with (classes (set_frames [] s) e c).
  generalize (set_frames [] s) as acc.
  induction (frames s) as [|f fs IH]; intros acc; cbn [fold_left]; [reflexivity|].
  rewrite IH. destruct f; cbn [runFrame]; handler_cases; reflexivity.
Qed.

Lemma style_animationFrame (now : Z) (s : State) (e : Elem) (p : StyleProp) :
  style (animationFrame now s) e p = style s e p.
Proof.
  unfold animationFrame.
  change (style s e p) with (style (set_frames [] s) e p).
  generalize (set_frames [] s) as acc.
  induction (frames s) as [|f fs IH]; intros acc; cbn [fold_left]; [reflexivity|].
  rewrite IH. destruct f; cbn [runFrame]; handler_cases; reflexivity.
Qed.

Lemma text_animationFrame (now : Z) (s : State) (e : Elem) :
  Elem_beq StatLatency e = false ->
  text (animationFrame now s) e = text s e.
Proof.
  intros H. unfold animationFrame.
  change (text s e) with (text (set_frames [] s) e).
  generalize (set_frames [] s) as acc.
  induction (frames s) as [|f fs IH]; intros acc; cbn [fold_left]; [reflexivity|].
  rewrite IH. destruct f; cbn [runFrame]; handler_cases; use_writes; reflexivity.
Qed.

Lemma outbox_animationFrame (now : Z) (s : State) :
  outbox (animationFrame now s) = outbox s.
Proof.
  unfold animationFrame.
  change (outbox s) with (outbox (set_frames [] s)).
  generalize (set_frames [] s) as acc.
  induction (frames s) as [|f fs IH]; intros acc; cbn [fold_left]; [reflexivity|].
  rewrite IH. destruct f; cbn [runFrame]; handler_cases; reflexivity.
Qed.

Lemma classLog_animationFrame (now : Z) (s : State) :
  classLog (animationFrame now s) = classLog s.
Proof.
  unfold animationFrame.
  change (classLog s) with (classLog (set_frames [] s)).
  generalize (set_frames [] s) as acc.
  induction (frames s) as [|f fs IH]; intros acc; cbn [fold_left]; [reflexivity|].
  rewrite IH. destruct f; cbn [runFrame]; handler_cases; reflexivity.
Qed.

Ltac user_cases :=
  cbn [runUser];
  try rewrite classes_animationFrame; try rewrite style_animationFrame;
  try rewrite outbox_animationFrame; try rewrite classLog_animationFrame;
  repeat match goal with
         | |- context [if askClickable ?s then _ else _] => destruct (askClickable s)
         | |- context [if beginClickable ?s then _ else _] => destruct (beginClickable s)
         end;
  open_handlers;
  unfold handleBegin, initGlobe, waitForGlobe, buildGlobe, resolve, transitionToGlobe,
    finish, handleAccept, andThen, confetti;
  cbn;
  repeat match goal with
         | |- context [if ?b then _ else _] =>
             lazymatch b with
             | (_ && _)%bool => fail
             | _ => destruct b eqn:?
             end
         end;
  cbn.

Section Footprints.

Variable pg : Page.

Lemma classes_runTask (now : Z) (r1 r2 : Q) (t : Task) (s : State) (e : Elem) (c : Class) :
  writesClass (classWrites t) e c = false ->
  classes (runTask pg now r1 r2 t s) e c = classes s e c.
Proof.
  intros H. destruct t; split_writes H; cbn [runTask]; open_handlers;
    handler_cases; use_writes; reflexivity.
Qed.

Lemma style_runTask (now : Z) (r1 r2 : Q) (t : Task) (s : State) (e : Elem)
  (p : StyleProp) :
  writesStyle (styleWrites t) e p = false ->
  style (runTask pg now r1 r2 t s) e p = style s e p.
Proof.
  intros H. destruct t; split_writes H; cbn [runTask]; open_handlers;
    handler_cases; use_writes; reflexivity.
Qed.

Lemma text_runTask (now : Z) (r1 r2 : Q) (t : Task) (s : State) (e : Elem) :
  writesText (textWrites t) e = false ->
  text (runTask pg now r1 r2 t s) e = text s e.
Proof.
  intros H. destruct t; split_writes H; cbn [runTask]; open_handlers;
    handler_cases; use_writes; reflexivity.
Qed.

Lemma typeChar_isTw (next : Typewriter -> TwResult) (i : nat) (t : Typewriter) (k : Task) :
  (forall t', pend k (snd (next t')) = []) -> isTw k = false ->
  pend k (snd (typeChar next i t)) = [].
Proof.
  intros Hn Hk. unfold typeChar.
  repeat match goal with
         | |- context [if ?b then _ else _] => destruct b
         | |- context [match ?x with _ => _ end] => destruct x
         end; cbn [snd]; auto; unfold pend; cbn; destruct k; try discriminate Hk;
    reflexivity.
Qed.

Lemma typeNextParagraphAt_isTw (depth : nat) (t : Typewriter) (k : Task) :
  isTw k = false -> pend k (snd (typeNextParagraphAt depth t)) = [].
Proof.
  intros Hk. revert t. induction depth as [|d IH]; intros t; cbn [typeNextParagraphAt];
    destruct (_ <=? _)%nat; cbn [snd];
    try (unfold pend; cbn; destruct k; try discriminate Hk; reflexivity).
  apply typeChar_isTw; auto.
Qed.

Lemma twCallback_isTw (t0 : Task) (t : Typewriter) (k : Task) :
  isTw k = false -> pend k (snd (twCallback t0 t)) = [].
Proof.
  intros Hk. destruct t0; try reflexivity; unfold twCallback, typeNextParagraph.
  - now apply typeNextParagraphAt_isTw.
  - apply typeChar_isTw; auto. intros t'. now apply typeNextParagraphAt_isTw.
Qed.

Lemma startTypewriter_only (t : Typewriter) (k : Task) :
  Task_beq TypeNextParagraph k = false -> pend k (snd (startTypewriter t)) = [].
Proof.
  intros Hk. unfold startTypewriter. destruct (target t) as [[|p ps]|]; try reflexivity.
  cbn [snd]. unfold pend; cbn. now rewrite Hk.
Qed.

Lemma pend_one (k t : Task) (d : Z) :
  pend k [(d, t)] = if Task_beq t k then [d] else [].
Proof. unfold pend. cbn. now destruct (Task_beq t k). Qed.

Lemma spawns_tw (t k : Task) : isTw t = true -> spawns t k = false -> isTw k = false.
Proof. destruct t; try discriminate; cbn; auto. Qed.

Lemma pend_runTask (now : Z) (r1 r2 : Q) (t : Task) (s : State) (k : Task) :
  spawns t k = false ->
  pend k (outbox (runTask pg now r1 r2 t s)) = pend k (outbox s).
Proof.
  intros H.
  destruct (isTw t) eqn:Ht.
  - assert (E : runTask pg now r1 r2 t s = liftTw (twCallback t) s)
      by (destruct t; try discriminate Ht; reflexivity).
    rewrite E. unfold liftTw. cbn [outbox set_outbox]. rewrite pend_app.
    rewrite (twCallback_isTw t (tw s) k (spawns_tw t k Ht H)). apply app_nil_r.
  - destruct t; try discriminate Ht; cbn [runTask]; open_handlers; handler_cases;
      rewrite ?pend_app, ?pend_one, ?app_nil_r;
      try reflexivity;
      destruct k; try discriminate H;
      rewrite ?startTypewriter_only by reflexivity; cbn; rewrite ?app_nil_r;
      reflexivity.
Qed.

(** *** User events *)

Lemma classes_runUser (now : Z) (u : UserEvent) (s : State) (e : Elem) (c : Class) :
  writesClass (userClassWrites u) e c = false ->
  classes (runUser pg now u s) e c = classes s e c.
Proof.
  intros H. destruct u; split_writes H; user_cases; use_writes; reflexivity.
Qed.

Lemma style_runUser (now : Z) (u : UserEvent) (s : State) (e : Elem) (p : StyleProp) :
  writesStyle (userStyleWrites u) e p = false ->
  style (runUser pg now u s) e p = style s e p.
Proof.
  intros H. destruct u; split_writes H; user_cases; use_writes; reflexivity.
Qed.

Lemma text_runUser (now : Z) (u : UserEvent) (s : State) (e : Elem) :
  writesText (userTextWrites u) e = false ->
  text (runUser pg now u s) e = text s e.
Proof.
  intros H. destruct u; split_writes H;
    try (cbn [runUser]; now apply text_animationFrame);
    user_cases; use_writes; reflexivity.
Qed.

Lemma pend_runUser (now : Z) (u : UserEvent) (s : State) (k : Task) :
  userSpawns u k = false ->
  pend k (outbox (runUser pg now u s)) = pend k (outbox s).
Proof.
  intros H. destruct u; user_cases;
    rewrite ?pend_app, ?pend_one, ?app_nil_r; try reflexivity;
    destruct k; try discriminate H; cbn; rewrite ?app_nil_r; reflexivity.
Qed.

End Footprints.

(** ** Turns of the event loop *)

Lemma pend_shift_all (now : Z) (k : Task) (out : list (Z * Task)) :
  pend k (map (fun e => (now + Z.max 0 (fst e), snd e)) out)
  = map (fun x => now + Z.max 0 x) (pend k out).
Proof.
  unfold pend. induction out as [|[dl t] out IH]; [reflexivity|]. cbn.
  destruct (Task_beq t k); cbn; now rewrite IH.
Qed.

Lemma pend_flush_all (now : Z) (q : list (Z * Task)) (s : State) (k : Task) :
  pend k (timers (flush now q s))
  = pend k q ++ map (fun x => now + Z.max 0 x) (pend k (outbox s)).
Proof. cbn [flush timers]. now rewrite pend_app, pend_shift_all. Qed.

Lemma pop_pend_other (q r : list (Z * Task)) (d : Z) (t k : Task) :
  popMin q = Some ((d, t), r) -> Task_beq t k = false -> pend k r = pend k q.
Proof.
  intros H B. destruct (pend_pop q r d t k H) as (a & b & Hq & Hr & _).
  rewrite B in Hq. now rewrite Hq, Hr.
Qed.

Lemma pop_pend_min (q r : list (Z * Task)) (d : Z) (t k : Task) :
  popMin q = Some ((d, t), r) -> Forall (fun x => d <= x) (pend k q).
Proof. intros H. now destruct (pend_pop q r d t k H) as (a & b & _ & _ & Hall). Qed.

Lemma pop_in (q r : list (Z * Task)) (m : Z * Task) :
  popMin q = Some (m, r) -> In m q.
Proof.
  intros H. apply popMin_split in H as (l1 & l2 & -> & _).
  apply in_or_app. right. apply in_eq.
Qed.

Lemma Task_beq_refl (t : Task) : Task_beq t t = true.
Proof. now apply internal_Task_dec_lb. Qed.

Lemma Task_beq_neq (t k : Task) : t <> k -> Task_beq t k = false.
Proof.
  intros N. destruct (Task_beq t k) eqn:B; [|reflexivity].
  apply internal_Task_dec_bl in B. congruence.
Qed.

Lemma letterEntered_flush (now : Z) (q : list (Z * Task)) (s : State) :
  letterEntered (st (flush now q s)) = letterEntered s.
Proof. reflexivity. Qed.

Section LetterPhase.

Variable pg : Page.

Lemma letterEntered_runTask (now : Z) (r1 r2 : Q) (t : Task) (s : State) :
  t <> ActivateLetter ->
  letterEntered (runTask pg now r1 r2 t s) = letterEntered s.
Proof.
  intros N. destruct (isTw t) eqn:Ht.
  - assert (E : runTask pg now r1 r2 t s = liftTw (twCallback t) s)
      by (destruct t; try discriminate Ht; reflexivity).
    rewrite E. now destruct (twView_is _ _ _ _ (twView_twCallback t s Ht)) as (_ & ? & _).
  - now destruct (twView_parts _ _ (twView_runTask pg now r1 r2 t s Ht N)) as (_ & ? & _).
Qed.

Lemma letterEntered_runUser (now : Z) (u : UserEvent) (s : State) :
  letterEntered (runUser pg now u s) = letterEntered s.
Proof. now destruct (twView_parts _ _ (twView_runUser pg now u s)) as (_ & ? & _). Qed.

Lemma letterEntered_activate (now : Z) (s : State) :
  letterEntered (activateLetter pg now s) = true.
Proof. now destruct (twView_is _ _ _ _ (twView_activateLetter pg now s)) as (_ & ? & _). Qed.

Lemma particles_runTask (now : Z) (r1 r2 : Q) (t : Task) (s : State) :
  t <> ActivateLetter -> particles (runTask pg now r1 r2 t s) = particles s.
Proof.
  intros N. destruct t; try congruence; cbn [runTask]; open_handlers;
    handler_cases; reflexivity.
Qed.

Lemma particles_runUser (now : Z) (u : UserEvent) (s : State) :
  particles (runUser pg now u s) = particles s.
Proof.
  destruct u; try (user_cases; reflexivity).
  cbn [runUser]. unfold animationFrame.
  change (particles s) with (particles (set_frames [] s)).
  generalize (set_frames [] s) as acc.
  induction (frames s) as [|f fs IH]; intros acc; cbn [fold_left]; [reflexivity|].
  rewrite IH. destruct f; cbn [runFrame]; handler_cases; reflexivity.
Qed.

Lemma init_animateLines (P : State -> Prop) :
  (forall j d s, P s -> P (setTimeout (ShowLine j) d s)) ->
  forall ds i s, P s -> P (animateLines i ds s).
Proof.
  intros H. induction ds as [|d ds IH]; intros i s Hs; cbn [animateLines]; auto.
Qed.

Lemma letterSetup_step (e : Event) (g : Stage) (a b : Sys) :
  settledTurn a -> inStage g a -> letterSetup pg a -> step pg e a = Some b ->
  letterSetup pg b.
Proof.
  intros Ha Hg (Hov & Hpa & Hcd) Hs.
  pose proof (step_settled pg e a b Hs) as [_ Hdue].
  destruct (step_cases pg e a b Ha Hs)
    as [(r1 & r2 & d & t & rest & -> & Hpop & Hc & ->)|(d & u & -> & Hd & ->)];
    destruct Ha as [Hout _]; unfold letterSetup, countdownFresh in *;
    rewrite pend_flush_all, !letterEntered_flush in *;
    cbn [flush st clock set_outbox style particles text] in *.
  - destruct (Task_eq_dec t ActivateLetter) as [->|Nl].
    + (* the letter phase is entered *)
      pose proof (letter_pending_not_entered g a d Hg (pop_in _ _ _ Hpop)) as Hnot.
      rewrite Hnot in Hov, Hpa, Hcd. destruct Hcd as [Hno Htx].
      cbn [runTask]. rewrite letterEntered_activate.
      rewrite (pop_pend_other _ _ _ _ CountdownTick Hpop eq_refl), Hno.
      unfold activateLetter, startCountdown, countdownUpdate, createAmbientParticles,
        liftTw.
      cbn. rewrite Hout, Hpa. cbn. rewrite !pend_app, !pend_one.
      rewrite startTypewriter_only by reflexivity. cbn.
      repeat split. exists d. repeat split; try lia.
    + rewrite (letterEntered_runTask d r1 r2 t (st a) Nl).
      rewrite (particles_runTask d r1 r2 t (st a) Nl).
      rewrite style_runTask by (destruct t; try congruence; reflexivity).
      split; [exact Hov|split; [exact Hpa|]].
      destruct (Task_eq_dec t CountdownTick) as [->|Nc].
      * (* a tick *)
        destruct (letterEntered (st a)).
        -- destruct Hcd as (t0 & Ht0 & Htx & Hp).
           destruct (pend_pop_single _ _ _ _ _ _ Hpop Hp) as (Hr & _ & Hd).
           specialize (Hd eq_refl). subst d. cbn [Task_beq] in Hr.
           exists (t0 + 1000). cbn [runTask]. unfold countdownUpdate.
           cbn. rewrite Hout, Hr. cbn. rewrite pend_one. cbn.
           repeat split; lia.
        -- destruct Hcd as [Hno _].
           pose proof (pop_in _ _ _ Hpop) as Hin. apply in_pend in Hin.
           rewrite Hno in Hin. contradiction.
      * rewrite (pop_pend_other _ _ _ _ CountdownTick Hpop (Task_beq_neq _ _ Nc)).
        rewrite pend_runTask, Hout
          by (destruct t; try congruence; reflexivity).
        rewrite text_runTask by (destruct t; try congruence; reflexivity).
        cbn [pend map]. rewrite app_nil_r.
        destruct (letterEntered (st a)); [|exact Hcd].
        destruct Hcd as (t0 & Ht0 & Htx & Hp). exists t0.
        pose proof (pop_pend_min _ _ _ _ CountdownTick Hpop) as Hmin.
        rewrite Hp in Hmin. apply Forall_inv in Hmin.
        repeat split; auto; lia.
  - rewrite letterEntered_runUser, particles_runUser.
    rewrite style_runUser by (destruct u; reflexivity).
    rewrite pend_runUser, Hout by (destruct u; reflexivity).
    rewrite text_runUser by (destruct u; reflexivity).
    cbn [pend map]. rewrite app_nil_r.
    split; [exact Hov|split; [exact Hpa|]].
    destruct (letterEntered (st a)); [|exact Hcd].
    destruct Hcd as (t0 & Ht0 & Htx & Hp). exists t0.
    assert (Hin : In (t0 + 1000, CountdownTick)
                     (timers a ++ map (fun e => (clock a + d + Z.max 0 (fst e), snd e))
                                      (outbox (runUser pg (clock a + d) u (st a))))).
    { apply in_or_app. left. apply pend_in. rewrite Hp. apply in_eq. }
    rewrite Forall_forall in Hdue. specialize (Hdue _ Hin). cbn in Hdue.
    repeat split; auto; lia.
Qed.

Lemma letterSetup_start : letterSetup pg (start pg).
Proof.
  destruct (twInPage_start pg) as [(Hl & _ & _)|(Hl & _)].
  - unfold letterSetup. rewrite Hl. unfold start.
    rewrite pend_flush_all.
    cbn [flush st set_outbox style particles text pend map app].
    unfold init, animateTerminal, initStarfield.
    repeat split.
    + cbn [setTimeout set_outbox style].
      apply (init_animateLines
               (fun s => style s Body Overflow = Css "hidden")); [auto|].
      destruct (hasCanvas pg); reflexivity.
    + cbn [setTimeout set_outbox particles].
      apply (init_animateLines (fun s => particles s = 0%nat)); [auto|].
      destruct (hasCanvas pg); reflexivity.
    + cbn [setTimeout set_outbox outbox]. rewrite pend_app, pend_one. cbn.
      rewrite app_nil_r.
      assert (E : pend CountdownTick
                    (outbox (animateLines 0 (lineDelays pg)
                               (if hasCanvas pg
                                then requestAnimationFrame Draw
                                       (setStyle Body Overflow (css "hidden") (markup pg))
                                else setStyle Body Overflow (css "hidden") (markup pg))))
                  = []).
      { apply (init_animateLines (fun s => pend CountdownTick (outbox s) = [])).
        - intros j dl s Hs. cbn. rewrite pend_app, pend_one, Hs. reflexivity.
        - destruct (hasCanvas pg); reflexivity. }
      rewrite E. reflexivity.
    + cbn [setTimeout set_outbox text].
      apply (init_animateLines
               (fun s => text s Countdown = markupText pg Countdown)); [auto|].
      destruct (hasCanvas pg); reflexivity.
  - exfalso. destruct (twInPage_start pg) as [(Hl' & _)|(Hl' & _)]; [congruence|].
    revert Hl'. unfold start, init, animateTerminal, initStarfield.
    cbn [flush st set_outbox classLog letterEntered setTimeout].
    assert (E : forall ds i s, classLog (animateLines i ds s) = classLog s).
    { induction ds as [|d0 ds IH]; intros i s; cbn [animateLines]; [auto|].
      now rewrite IH. }
    unfold letterEntered. cbn. rewrite E. destruct (hasCanvas pg); discriminate.
Qed.

Lemma reachable_letterSetup (tr : list Event) (y : Sys) :
  run pg tr (start pg) = Some y -> letterSetup pg y.
Proof.
  intros H.
  apply (run_invariant pg
           (fun y => settledTurn y /\ (exists g, inStage g y) /\ letterSetup pg y)
           tr (start pg) y); [| |exact H].
  - intros e a b (Ha & [g Hg] & Ht) Hs.
    split; [eapply step_settled; eauto|split].
    + destruct (stage_step pg e g a b Ha Hg Hs) as (g' & Hg' & _). now exists g'.
    + eapply letterSetup_step; eauto.
  - split; [apply start_settled|split; [exists Idle; apply start_idle|]].
    apply letterSetup_start.
Qed.

End LetterPhase.

(** The page cannot be scrolled until the letter phase is entered and can
    be from then on: [init] locks the body and only the callback that
    activates the letter unlocks it. *)
Theorem scroll_locked_until_letter (pg : Page) (tr : list Event) (y : Sys) :
  run pg tr (start pg) = Some y ->
  style (st y) Body Overflow
  = Css (if letterEntered (st y) then "auto" else "hidden").
Proof. intros H. now destruct (reachable_letterSetup pg tr y H) as (? & _). Qed.

Lemma scroll_locked_until_letter_witness :
  run (demoPage true) demoBegin (start (demoPage true))
    = Some (endOf (demoPage true) demoBegin) /\
  style (st (endOf (demoPage true) demoBegin)) Body Overflow = Css "auto".
Proof.
  assert (H : run (demoPage true) demoBegin (start (demoPage true))
              = Some (endOf (demoPage true) demoBegin)) by (vm_compute; reflexivity).
  assert (E : letterEntered (st (endOf (demoPage true) demoBegin)) = true)
    by (vm_compute; reflexivity).
  split; [exact H|].
  pose proof (scroll_locked_until_letter (demoPage true) demoBegin _ H) as G.
  rewrite E in G. exact G.
Defined.





(** ** Retry in the page *)

Lemma fire_keeps (q rest : list (Z * Task)) (d now : Z) (t : Task) (x : Z * Task)
  (s : State) :
  popMin q = Some ((d, t), rest) -> In x q -> snd x <> t ->
  In x (timers (flush now rest s)).
Proof.
  intros Hpop Hin Hne. cbn [flush timers]. apply in_or_app. left.
  apply (popMin_keeps _ _ _ _ Hpop Hin). exact Hne.
Qed.

Lemma user_keeps (q : list (Z * Task)) (now : Z) (x : Z * Task) (s : State) :
  In x q -> In x (timers (flush now q s)).
Proof. intros Hin. cbn [flush timers]. apply in_or_app. now left. Qed.

Lemma flush_new (q : list (Z * Task)) (now dl : Z) (k : Task) (s : State) :
  In (dl, k) (outbox s) -> In (now + Z.max 0 dl, k) (timers (flush now q s)).
Proof.
  intros Hin. cbn [flush timers]. apply in_or_app. right.
  apply in_map_iff. exists (dl, k). auto.
Qed.

Ltac retry_cases :=
  unfold handleRetry;
  repeat match goal with
         | |- context [if (?a <=? ?b)%nat then _ else _] =>
             destruct (Nat.leb_spec a b)
         | |- context [if (?a <? ?b)%nat then _ else _] =>
             destruct (Nat.ltb_spec a b)
         | |- context [if (?a =? ?b)%nat then _ else _] =>
             destruct (Nat.eqb_spec a b)
         end;
  cbn in *.

Ltac in_new Hout :=
  rewrite ?Hout; apply in_or_app; right; cbn;
  solve [repeat (try (left; reflexivity); right)].

Section RetryPage.

Variable pg : Page.

Lemma retryTransient_step (e : Event) (a b : Sys) :
  settledTurn a -> retryTransient a -> step pg e a = Some b -> retryTransient b.
Proof.
  intros Ha [Hsh Hvi] Hs.
  destruct (step_cases pg e a b Ha Hs)
    as [(r1 & r2 & d & t & rest & -> & Hpop & Hc & ->)|(d & u & -> & Hd & ->)];
    destruct Ha as [Hout _]; split;
    cbn [flush st clock set_outbox classes].
  - (* a timer; the shake *)
    destruct (Task_eq_dec t ShakeOff) as [->|N].
    + cbn. discriminate.
    + rewrite classes_runTask by (destruct t; try congruence; reflexivity).
      intros H. destruct (Hsh H) as (d0 & Hin & Hle). exists d0. split; [|lia].
      eapply fire_keeps; eauto; cbn; congruence.
  - (* a timer; the message *)
    destruct (Task_eq_dec t ClearError) as [->|N1]; [cbn; discriminate|].
    destruct (Task_eq_dec t ClearFinal) as [->|N2]; [cbn; discriminate|].
    rewrite classes_runTask by (destruct t; try congruence; reflexivity).
    intros H. destruct (Hvi H) as (d0 & [[Hin Hle]|[Hin Hle]]);
      exists d0; [left|right]; (split; [|lia]);
      (eapply fire_keeps; eauto; cbn; congruence).
  - (* a user event; the shake *)
    assert (Hold : forall l,
                   classes (st a) BtnRetry Shake = true ->
                   exists d0, In (d0, ShakeOff) (timers a ++ l) /\
                              d0 <= clock a + d + 500).
    { intros l H. destruct (Hsh H) as (d0 & Hin & Hle). exists d0.
      split; [apply in_or_app; now left|lia]. }
    destruct u; try (rewrite classes_runUser by reflexivity; apply Hold).
    cbn [runUser]. destruct (askClickable (st a)); [|apply Hold].
    retry_cases; try apply Hold; try lia;
      intros _; exists (clock a + d + 500); (split; [|lia]); in_new Hout.
  - (* a user event; the message *)
    assert (Hold : forall l,
                   classes (st a) RetryError Visible = true ->
                   exists d0,
                     (In (d0, ClearError) (timers a ++ l) /\
                      d0 <= clock a + d + 2000) \/
                     (In (d0, ClearFinal) (timers a ++ l) /\
                      d0 <= clock a + d + 1500)).
    { intros l H. destruct (Hvi H) as (d0 & [[Hin Hle]|[Hin Hle]]);
        exists d0; [left|right]; (split; [apply in_or_app; now left|lia]). }
    destruct u; try (rewrite classes_runUser by reflexivity; apply Hold).
    cbn [runUser]. destruct (askClickable (st a)); [|apply Hold].
    retry_cases; try apply Hold; try lia; intros _;
      first [ exists (clock a + d + 2000); left; split; [in_new Hout|lia]
            | exists (clock a + d + 1500); right; split; [in_new Hout|lia] ].
Qed.

Lemma classes_start (e : Elem) (c : Class) :
  classes (st (start pg)) e c = classes (markup pg) e c.
Proof.
  unfold start, init, animateTerminal, initStarfield.
  cbn [flush st set_outbox classes setTimeout].
  apply (init_animateLines (fun s => classes s e c = classes (markup pg) e c)); [auto|].
  destruct (hasCanvas pg); reflexivity.
Qed.

Lemma text_start (e : Elem) : text (st (start pg)) e = markupText pg e.
Proof.
  unfold start, init, animateTerminal, initStarfield.
  cbn [flush st set_outbox text setTimeout].
  apply (init_animateLines (fun s => text s e = markupText pg e)); [auto|].
  destruct (hasCanvas pg); reflexivity.
Qed.

(** At the start only [ShowLine] and [ShowBegin] are pending. *)
Lemma timers_start (x : Z * Task) :
  In x (timers (start pg)) -> snd x = ShowBegin \/ exists i, snd x = ShowLine i.
Proof.
  unfold start, init, animateTerminal, initStarfield.
  cbn [flush timers app]. intros H. apply in_map_iff in H as ([dl k] & <- & H).
  cbn [snd]. revert H. cbn [setTimeout set_outbox outbox].
  intros H. apply in_app_iff in H as [H|[H|[]]]; [|inversion H; now left].
  right. revert H.
  apply (init_animateLines
           (fun s => In (dl, k) (outbox s) -> exists i, k = ShowLine i)).
  - intros j d s Hs H. cbn in H. apply in_app_iff in H as [H|[H|[]]]; [auto|].
    inversion H. eauto.
  - destruct (hasCanvas pg); cbn; contradiction.
Qed.

Lemma pend_start (k : Task) :
  k <> ShowBegin -> (forall i, k <> ShowLine i) -> pend k (timers (start pg)) = [].
Proof.
  intros N1 N2. destruct (pend k (timers (start pg))) as [|d l] eqn:E; [reflexivity|].
  assert (Hin : In d (pend k (timers (start pg)))) by (rewrite E; apply in_eq).
  apply pend_in in Hin. apply timers_start in Hin as [H|[i H]]; cbn in H; congruence.
Qed.

Lemma retryTransient_start : retryTransient (start pg).
Proof.
  split; rewrite classes_start; cbn; discriminate.
Qed.

Lemma reachable_retryTransient (tr : list Event) (y : Sys) :
  run pg tr (start pg) = Some y -> retryTransient y.
Proof.
  intros H.
  apply (run_invariant pg (fun y => settledTurn y /\ retryTransient y)
           tr (start pg) y); [| |exact H].
  - intros e a b [Ha Hr] Hs. split; [eapply step_settled; eauto|].
    eapply retryTransient_step; eauto.
  - split; [apply start_settled|apply retryTransient_start].
Qed.

Lemma retryCount_runUser (now : Z) (u : UserEvent) (s : State) :
  u <> ClickRetry -> retryCount (runUser pg now u s) = retryCount s.
Proof.
  intros N. destruct u; try congruence; try (user_cases; reflexivity).
  cbn [runUser]. apply retryCount_animationFrame.
Qed.

Lemma pop_pend_nonempty (q r : list (Z * Task)) (d : Z) (t k : Task) :
  popMin q = Some ((d, t), r) -> pend k r <> [] -> pend k q <> [].
Proof.
  intros H N E. destruct (pend_pop_nil _ _ _ _ _ H E) as [Hr _]. congruence.
Qed.

Lemma pop_pend_self (q r : list (Z * Task)) (d : Z) (t : Task) :
  popMin q = Some ((d, t), r) -> pend t q <> [].
Proof.
  intros H E. pose proof (pop_in _ _ _ H) as Hin. apply in_pend in Hin.
  rewrite E in Hin. contradiction.
Qed.

Lemma pend_nil (k : Task) : pend k [] = [].
Proof. reflexivity. Qed.

Lemma retryShape_step (e : Event) (a b : Sys) :
  settledTurn a -> retryShape pg a -> step pg e a = Some b -> retryShape pg b.
Proof.
  intros Ha (H3 & Hhi & Hdo & Hpd & Hcf & Hzero & Hmsg) Hs.
  destruct (step_cases pg e a b Ha Hs)
    as [(r1 & r2 & d & t & rest & -> & Hpop & Hc & ->)|(d & u & -> & Hd & ->)];
    destruct Ha as [Hout _]; unfold retryShape;
    rewrite !pend_flush_all;
    cbn [flush st clock set_outbox classes text retryCount].
  - rewrite retryCount_runTask.
    rewrite !pend_runTask, Hout by (destruct t; reflexivity).
    cbn [pend map]. rewrite !app_nil_r.
    assert (Hfinal : (retryCount (st a) < 3)%nat -> t <> ClearFinal).
    { intros Hlt ->. apply (pop_pend_self _ _ _ _ Hpop). now apply Hcf. }
    split; [exact H3|].
    split; [rewrite classes_runTask by (destruct t; reflexivity); exact Hhi|].
    split; [|split; [|split; [|split]]].
    + destruct (Task_eq_dec t Dodge) as [->|N].
      * intros _. apply Hpd. apply (pop_pend_self _ _ _ _ Hpop).
      * rewrite classes_runTask by (destruct t; try congruence; reflexivity).
        exact Hdo.
    + intros H. apply Hpd. eapply pop_pend_nonempty; eauto.
    + intros Hlt. destruct (pend_pop_nil _ _ _ _ ClearFinal Hpop (Hcf Hlt)) as [Hr _].
      exact Hr.
    + intros E0. destruct (Hzero E0) as (Ht & Hv & Hsh).
      assert (Nf : t <> ClearFinal) by (apply Hfinal; lia).
      rewrite text_runTask by (destruct t; try congruence; reflexivity).
      split; [exact Ht|split].
      * destruct (Task_eq_dec t ClearError) as [->|Ne]; [reflexivity|].
        rewrite classes_runTask by (destruct t; try congruence; reflexivity).
        exact Hv.
      * destruct (Task_eq_dec t ShakeOff) as [->|Ns]; [reflexivity|].
        rewrite classes_runTask by (destruct t; try congruence; reflexivity).
        exact Hsh.
    + intros Hn.
      assert (Nf : t <> ClearFinal) by (apply Hfinal; lia).
      rewrite text_runTask by (destruct t; try congruence; reflexivity).
      now apply Hmsg.
  - assert (Hother : u <> ClickRetry ->
      (retryCount (runUser pg (clock a + d) u (st a)) <= 3)%nat /\
      classes (runUser pg (clock a + d) u (st a)) BtnRetry Hiding =
        (retryCount (runUser pg (clock a + d) u (st a)) =? 3)%nat /\
      (classes (runUser pg (clock a + d) u (st a)) BtnRetry DodgeClass = true ->
       (2 <= retryCount (runUser pg (clock a + d) u (st a)))%nat) /\
      (pend Dodge (timers a)
       ++ map (fun x => clock a + d + Z.max 0 x)
              (pend Dodge (outbox (runUser pg (clock a + d) u (st a)))) <> [] ->
       (2 <= retryCount (runUser pg (clock a + d) u (st a)))%nat) /\
      ((retryCount (runUser pg (clock a + d) u (st a)) < 3)%nat ->
       pend ClearFinal (timers a)
       ++ map (fun x => clock a + d + Z.max 0 x)
              (pend ClearFinal (outbox (runUser pg (clock a + d) u (st a)))) = []) /\
      (retryCount (runUser pg (clock a + d) u (st a)) = 0%nat ->
       text (runUser pg (clock a + d) u (st a)) RetryError = markupText pg RetryError /\
       classes (runUser pg (clock a + d) u (st a)) RetryError Visible = false /\
       classes (runUser pg (clock a + d) u (st a)) BtnRetry Shake = false) /\
      ((1 <= retryCount (runUser pg (clock a + d) u (st a)) <= 2)%nat ->
       text (runUser pg (clock a + d) u (st a)) RetryError =
       Text (nth (retryCount (runUser pg (clock a + d) u (st a)) - 1)
                 retryMessages EmptyString))).
    { intros Nu. rewrite (retryCount_runUser _ _ _ Nu).
      rewrite !pend_runUser, Hout by (destruct u; try congruence; reflexivity).
      cbn [pend map]. rewrite !app_nil_r.
      rewrite !classes_runUser by (destruct u; try congruence; reflexivity).
      rewrite text_runUser by (destruct u; try congruence; reflexivity).
      repeat split; auto; try apply Hzero; auto. }
    destruct u; try (apply Hother; discriminate). clear Hother.
    cbn [runUser]. destruct (askClickable (st a)).
    + destruct (Nat.lt_ge_cases (retryCount (st a)) 3) as [Hlt|Hge].
      * specialize (Hcf Hlt).
        assert (Hnd : (retryCount (st a) < 2)%nat -> pend Dodge (timers a) = []).
        { intros Hl. destruct (pend Dodge (timers a)) eqn:E; [reflexivity|].
          assert (2 <= retryCount (st a))%nat by (apply Hpd; discriminate). lia. }
        assert (Hndc : (retryCount (st a) < 2)%nat ->
                       classes (st a) BtnRetry DodgeClass = false).
        { intros Hl. destruct (classes (st a) BtnRetry DodgeClass) eqn:E;
            [|reflexivity].
          assert (2 <= retryCount (st a))%nat by (now apply Hdo). lia. }
        destruct (retryCount (st a)) as [|[|[|n]]] eqn:En; [| | |lia];
          unfold handleRetry; rewrite En; cbn; rewrite ?En; cbn;
          rewrite ?pend_app, ?pend_one, ?Hout, ?pend_nil, ?Hcf; cbn;
          rewrite ?Hnd, ?Hndc by lia; cbn;
          repeat split; intros; auto; try lia; try discriminate;
          try congruence.
      * rewrite (handleRetry_exhausted (st a) Hge), Hout. cbn [pend map].
        rewrite !app_nil_r. repeat split; auto; apply Hzero; auto.
    + rewrite Hout. cbn [pend map]. rewrite !app_nil_r.
      repeat split; auto; apply Hzero; auto.
Qed.

Lemma retryShape_start : retryShape pg (start pg).
Proof.
  unfold retryShape. rewrite (retryCount_start pg), !classes_start, text_start.
  rewrite !pend_start by (intros; discriminate).
  cbn. repeat split; auto; try lia; try congruence.
Qed.

Lemma reachable_retryShape (tr : list Event) (y : Sys) :
  run pg tr (start pg) = Some y -> retryShape pg y.
Proof.
  intros H.
  apply (run_invariant pg (fun y => settledTurn y /\ retryShape pg y)
           tr (start pg) y); [| |exact H].
  - intros e a b [Ha Hr] Hs. split; [eapply step_settled; eauto|].
    eapply retryShape_step; eauto.
  - split; [apply start_settled|apply retryShape_start].
Qed.

Lemma retryFinal_step (t : Z) (e : Event) (a b : Sys) :
  settledTurn a -> retryFinal t a -> step pg e a = Some b -> retryFinal t b.
Proof.
  intros Ha (Hn & Hhi & Hcl) Hs.
  destruct (step_cases pg e a b Ha Hs)
    as [(r1 & r2 & d & tk & rest & -> & Hpop & Hc & ->)|(d & u & -> & Hd & ->)];
    destruct Ha as [Hout _]; unfold retryFinal;
    rewrite !pend_flush_all;
    cbn [flush st clock set_outbox classes text retryCount].
  - rewrite retryCount_runTask.
    rewrite !pend_runTask, Hout by (destruct tk; reflexivity).
    cbn [pend map]. rewrite !app_nil_r.
    split; [exact Hn|].
    split; [rewrite classes_runTask by (destruct tk; reflexivity); exact Hhi|].
    destruct Hcl as [[Hp Htx]|(Hp & Hlate & Htx & Hv)].
    + destruct (pend_pop_single _ _ _ _ _ _ Hpop Hp) as (Hr & Hle & Hd).
      destruct (Task_eq_dec tk ClearFinal) as [->|N].
      * right. rewrite Task_beq_refl in Hr. specialize (Hd (Task_beq_refl _)).
        subst d. repeat split; auto; lia.
      * left. rewrite (Task_beq_neq _ _ N) in Hr.
        rewrite text_runTask by (destruct tk; try congruence; reflexivity).
        auto.
    + right. destruct (pend_pop_nil _ _ _ _ _ Hpop Hp) as [Hr Hb].
      assert (N : tk <> ClearFinal)
        by (intros ->; rewrite Task_beq_refl in Hb; discriminate).
      rewrite text_runTask by (destruct tk; try congruence; reflexivity).
      repeat split; auto; [lia|].
      destruct (Task_eq_dec tk ClearError) as [->|Ne]; [reflexivity|].
      rewrite classes_runTask by (destruct tk; try congruence; reflexivity).
      exact Hv.
  - assert (Hsame : forall s', s' = st a ->
              retryCount s' = 3%nat /\
              classes s' BtnRetry Hiding = true /\
              (pend ClearFinal (timers a)
               ++ map (fun x => clock a + d + Z.max 0 x) (pend ClearFinal (outbox s'))
               = [t + 1500] /\
               text s' RetryError = Text (nth 2 retryMessages EmptyString) \/
               pend ClearFinal (timers a)
               ++ map (fun x => clock a + d + Z.max 0 x) (pend ClearFinal (outbox s'))
               = [] /\
               t + 1500 <= clock a + d /\
               text s' RetryError = Text EmptyString /\
               classes s' RetryError Visible = false)).
    { intros s' ->. rewrite Hout. cbn [pend map]. rewrite !app_nil_r.
      split; [exact Hn|split; [exact Hhi|]].
      destruct Hcl as [[Hp Htx]|(Hp & Hlate & Htx & Hv)]; [left|right]; auto.
      repeat split; auto. lia. }
    destruct u.
    + rewrite retryCount_runUser by discriminate.
      rewrite !pend_runUser, Hout by reflexivity.
      rewrite !classes_runUser by reflexivity.
      rewrite text_runUser by reflexivity.
      specialize (Hsame (st a) eq_refl). rewrite Hout in Hsame. exact Hsame.
    + rewrite retryCount_runUser by discriminate.
      rewrite !pend_runUser, Hout by reflexivity.
      rewrite !classes_runUser by reflexivity.
      rewrite text_runUser by reflexivity.
      specialize (Hsame (st a) eq_refl). rewrite Hout in Hsame. exact Hsame.
    + cbn [runUser]. destruct (askClickable (st a)); [|now apply Hsame].
      apply Hsame. apply handleRetry_exhausted. lia.
    + rewrite retryCount_runUser by discriminate.
      rewrite !pend_runUser, Hout by reflexivity.
      rewrite !classes_runUser by reflexivity.
      rewrite text_runUser by reflexivity.
      specialize (Hsame (st a) eq_refl). rewrite Hout in Hsame. exact Hsame.
    + rewrite retryCount_runUser by discriminate.
      rewrite !pend_runUser, Hout by reflexivity.
      rewrite !classes_runUser by reflexivity.
      rewrite text_runUser by reflexivity.
      specialize (Hsame (st a) eq_refl). rewrite Hout in Hsame. exact Hsame.
    + rewrite retryCount_runUser by discriminate.
      rewrite !pend_runUser, Hout by reflexivity.
      rewrite !classes_runUser by reflexivity.
      rewrite text_runUser by reflexivity.
      specialize (Hsame (st a) eq_refl). rewrite Hout in Hsame. exact Hsame.
Qed.

Lemma retryFinal_click (y1 y : Sys) (d : Z) :
  settledTurn y1 -> retryShape pg y1 -> retryCount (st y1) = 2%nat ->
  askClickable (st y1) = true ->
  step pg (User d ClickRetry) y1 = Some y ->
  retryFinal (clock y1 + d) y.
Proof.
  intros Ha (_ & _ & _ & _ & Hcf & _) En Hc Hs.
  destruct (step_cases pg _ y1 y Ha Hs)
    as [(r1 & r2 & d' & tk & rest & E & _)|(d' & u & E & Hd & ->)];
    [discriminate|]. inversion E; subst d' u.
  destruct Ha as [Hout _]. unfold retryFinal.
  rewrite pend_flush_all. cbn [flush st clock set_outbox classes text retryCount runUser].
  rewrite Hc, Hcf by lia.
  unfold handleRetry. rewrite En. cbn. rewrite En. cbn.
  rewrite ?pend_app, ?pend_one, ?Hout, ?pend_nil. cbn.
  split; [reflexivity|split; [reflexivity|left]]. split; [|reflexivity].
  f_equal.
Qed.

End RetryPage.

(** Nothing that a retry sets off is left behind: in every state of the
    page in which the retry button shakes, the timer that stops the shake
    is pending and due within 500 ms, and in every state in which an
    error message is visible, a timer that hides it is pending and due
    within 2 s. *)
Theorem retry_effects_transient (pg : Page) (tr : list Event) (y : Sys) :
  run pg tr (start pg) = Some y ->
  (classes (st y) BtnRetry Shake = true ->
   exists d, In (d, ShakeOff) (timers y) /\ clock y <= d <= clock y + 500) /\
  (classes (st y) RetryError Visible = true ->
   exists d, (In (d, ClearError) (timers y) /\ clock y <= d <= clock y + 2000) \/
             (In (d, ClearFinal) (timers y) /\ clock y <= d <= clock y + 1500)).
Proof.
  intros H. destruct (reachable_retryTransient pg tr y H) as [Hs Hv].
  destruct (reachable_settled pg tr y H) as [_ Hdue].
  rewrite Forall_forall in Hdue.
  split; intros Hc.
  - destruct (Hs Hc) as (d & Hin & Hle). exists d.
    pose proof (Hdue _ Hin). cbn in *. auto with zarith.
  - destruct (Hv Hc) as (d & [[Hin Hle]|[Hin Hle]]); exists d; [left|right];
      pose proof (Hdue _ Hin); cbn in *; auto with zarith.
Qed.

(** The retry button in the page: it carries [hiding] exactly when retry
    was triggered three times, it dodges only after two triggers, the
    timer that clears the last message is pending only after the third,
    and the message on display is the one of the last trigger (the
    markup's text before the first). *)
Theorem retry_button_stages (pg : Page) (tr : list Event) (y : Sys) :
  run pg tr (start pg) = Some y ->
  classes (st y) BtnRetry Hiding = (retryCount (st y) =? 3)%nat /\
  (classes (st y) BtnRetry DodgeClass = true -> (2 <= retryCount (st y))%nat) /\
  ((retryCount (st y) < 3)%nat -> pend ClearFinal (timers y) = []) /\
  (retryCount (st y) = 0%nat ->
   text (st y) RetryError = markupText pg RetryError /\
   classes (st y) RetryError Visible = false /\
   classes (st y) BtnRetry Shake = false) /\
  ((1 <= retryCount (st y) <= 2)%nat ->
   text (st y) RetryError
   = Text (nth (retryCount (st y) - 1) retryMessages EmptyString)).
Proof.
  intros H.
  destruct (reachable_retryShape pg tr y H) as (_ & H1 & H2 & _ & H3 & H4 & H5).
  auto.
Qed.

(** The third retry, triggered at [t]: the button is hidden for good, the
    last message stays until the timer at [t + 1500] fires and from then
    on the error line is empty and invisible; every later click on retry
    changes nothing. *)
Theorem retry_final_cleanup (pg : Page) (tr1 tr2 : list Event) (d : Z) (y1 y2 : Sys) :
  run pg tr1 (start pg) = Some y1 ->
  retryCount (st y1) = 2%nat -> askClickable (st y1) = true ->
  run pg (User d ClickRetry :: tr2) y1 = Some y2 ->
  let t := clock y1 + d in
  retryCount (st y2) = 3%nat /\
  classes (st y2) BtnRetry Hiding = true /\
  (clock y2 < t + 1500 ->
   text (st y2) RetryError = Text "Rerouting to Accept...") /\
  (t + 1500 < clock y2 ->
   text (st y2) RetryError = Text EmptyString /\
   classes (st y2) RetryError Visible = false) /\
  (forall d' y3, step pg (User d' ClickRetry) y2 = Some y3 ->
                 st y3 = st y2 /\ timers y3 = timers y2).
Proof.
  intros H1 En Hc H2 t. cbn [run] in H2.
  destruct (step pg (User d ClickRetry) y1) as [y|] eqn:Hs; [|discriminate].
  pose proof (reachable_settled pg tr1 y1 H1) as Hset.
  pose proof (retryFinal_click pg y1 y d Hset (reachable_retryShape pg tr1 y1 H1)
                En Hc Hs) as Hy.
  assert (Hy2 : settledTurn y2 /\ retryFinal t y2).
  { apply (run_invariant pg (fun z => settledTurn z /\ retryFinal t z) tr2 y y2);
      [| |exact H2].
    - intros e a b [Ha Hf] Hst. split; [eapply step_settled; eauto|].
      eapply retryFinal_step; eauto.
    - split; [eapply step_settled; eauto|exact Hy]. }
  destruct Hy2 as [[Hout Hdue] (Hn & Hhi & Hcl)].
  split; [exact Hn|split; [exact Hhi|split; [|split]]].
  - intros Hearly. destruct Hcl as [[_ Htx]|(_ & Hlate & _)]; [exact Htx|lia].
  - intros Hlate. destruct Hcl as [[Hp _]|(_ & _ & Htx & Hv)]; [|auto].
    assert (Hin : In (t + 1500, ClearFinal) (timers y2))
      by (apply pend_in; rewrite Hp; apply in_eq).
    rewrite Forall_forall in Hdue. specialize (Hdue _ Hin). cbn in Hdue. lia.
  - intros d' y3 H3. cbn in H3.
    destruct (_ && _); [|discriminate]. inversion H3; subst. cbn [flush st timers].
    assert (Hsame : (if askClickable (st y2) then handleRetry (st y2) else st y2) = st y2).
    { destruct (askClickable (st y2)); [|reflexivity].
      apply handleRetry_exhausted. lia. }
    cbn [runUser]. rewrite Hsame, Hout. cbn.
    split; [now apply set_outbox_same|apply app_nil_r].
Qed.

Lemma retry_effects_transient_witness :
  run barePage twoRetries (start barePage) = Some (endOf barePage twoRetries) /\
  classes (st (endOf barePage twoRetries)) BtnRetry Shake = true /\
  exists d, In (d, ShakeOff) (timers (endOf barePage twoRetries)) /\
            clock (endOf barePage twoRetries) <= d
            <= clock (endOf barePage twoRetries) + 500.
Proof.
  assert (H : run barePage twoRetries (start barePage)
              = Some (endOf barePage twoRetries)) by (vm_compute; reflexivity).
  assert (Hc : classes (st (endOf barePage twoRetries)) BtnRetry Shake = true)
    by (vm_compute; reflexivity).
  split; [exact H|]. split; [exact Hc|].
  exact (proj1 (retry_effects_transient barePage twoRetries _ H) Hc).
Defined.

Lemma retry_button_stages_witness :
  run barePage twoRetries (start barePage) = Some (endOf barePage twoRetries) /\
  classes (st (endOf barePage twoRetries)) BtnRetry Hiding
  = (retryCount (st (endOf barePage twoRetries)) =? 3)%nat.
Proof.
  assert (H : run barePage twoRetries (start barePage)
              = Some (endOf barePage twoRetries)) by (vm_compute; reflexivity).
  split; [exact H|].
  exact (proj1 (retry_button_stages barePage twoRetries _ H)).
Defined.

Lemma retry_final_cleanup_witness :
  run barePage twoRetries (start barePage) = Some (endOf barePage twoRetries) /\
  retryCount (st (endOf barePage twoRetries)) = 2%nat /\
  askClickable (st (endOf barePage twoRetries)) = true /\
  run barePage (User 10 ClickRetry :: fires 6) (endOf barePage twoRetries)
  = Some (endOf barePage (twoRetries ++ User 10 ClickRetry :: fires 6)) /\
  retryCount (st (endOf barePage (twoRetries ++ User 10 ClickRetry :: fires 6))) = 3%nat.
Proof.
  assert (H1 : run barePage twoRetries (start barePage)
               = Some (endOf barePage twoRetries)) by (vm_compute; reflexivity).
  assert (H2 : retryCount (st (endOf barePage twoRetries)) = 2%nat)
    by (vm_compute; reflexivity).
  assert (H3 : askClickable (st (endOf barePage twoRetries)) = true)
    by (vm_compute; reflexivity).
  assert (H4 : run barePage (User 10 ClickRetry :: fires 6) (endOf barePage twoRetries)
               = Some (endOf barePage (twoRetries ++ User 10 ClickRetry :: fires 6)))
    by (vm_compute; reflexivity).
  repeat (split; [assumption|]).
  exact (proj1 (retry_final_cleanup barePage twoRetries (fires 6) 10 _ _ H1 H2 H3 H4)).
Defined.

(** ** Confetti in the page *)

Lemma pop_pend_length (q r : list (Z * Task)) (d : Z) (t : Task) :
  popMin q = Some ((d, t), r) ->
  List.length (pend t q) = S (List.length (pend t r)).
Proof.
  intros H. destruct (pend_pop q r d t t H) as (a & b & Hq & Hr & _).
  rewrite Task_beq_refl in Hq. rewrite Hq, Hr, !length_app. cbn. lia.
Qed.

Lemma launched_snoc (n c : nat) (s : State) :
  launched n (set_confettiCalls (confettiCalls s ++ [c]) s)
  = (launched n s + (if Nat.eq_dec c n then 1 else 0))%nat.
Proof.
  unfold launched. cbn [confettiCalls set_confettiCalls].
  rewrite count_occ_app. cbn. now destruct (Nat.eq_dec c n).
Qed.

Section Confetti.

Variable pg : Page.

Lemma confettiCalls_runTask (now : Z) (r1 r2 : Q) (t : Task) (s : State) :
  isBurst t = false ->
  confettiCalls (runTask pg now r1 r2 t s) = confettiCalls s.
Proof.
  intros H. destruct t; try discriminate H; cbn [runTask]; open_handlers;
    handler_cases; reflexivity.
Qed.

Lemma confettiCalls_runUser (now : Z) (u : UserEvent) (s : State) :
  u <> ClickAccept -> confettiCalls (runUser pg now u s) = confettiCalls s.
Proof.
  intros N. destruct u; try congruence; try (user_cases; reflexivity).
  cbn [runUser]. unfold animationFrame.
  change (confettiCalls s) with (confettiCalls (set_frames [] s)).
  generalize (set_frames [] s) as acc.
  induction (frames s) as [|f fs IH]; intros acc; cbn [fold_left]; [reflexivity|].
  rewrite IH. destruct f; cbn [runFrame]; handler_cases; reflexivity.
Qed.

Lemma burst_number (t : Task) :
  isBurst t = true ->
  exists n, (2 <= n <= 4)%nat /\
            forall now r1 r2 s,
              runTask pg now r1 r2 t s
              = if hasConfetti pg
                then set_confettiCalls (confettiCalls s ++ [n]) s else s.
Proof.
  intros H. destruct t; try discriminate H;
    [exists 2%nat|exists 3%nat|exists 4%nat]; (split; [lia|]);
    intros now r1 r2 s; cbn [runTask]; unfold confetti, finish;
    destruct (hasConfetti pg); reflexivity.
Qed.

Lemma confettiBalanced_step (e : Event) (a b : Sys) :
  settledTurn a -> confettiBalanced pg a -> step pg e a = Some b ->
  confettiBalanced pg b.
Proof.
  intros Ha (H2 & H3 & H4 & Hall & Hno) Hs.
  destruct (step_cases pg e a b Ha Hs)
    as [(r1 & r2 & d & t & rest & -> & Hpop & Hc & ->)|(d & u & -> & Hd & ->)];
    destruct Ha as [Hout _]; unfold confettiBalanced;
    rewrite !pend_flush_all, !length_app, !length_map;
    cbn [flush st set_outbox]; unfold launched in *;
    cbn [confettiCalls set_outbox].
  - rewrite !pend_runTask, Hout by (destruct t; reflexivity).
    cbn [pend List.length]. rewrite !Nat.add_0_r.
    destruct (isBurst t) eqn:Hb.
    + assert (Hc' : hasConfetti pg = true).
      { destruct (hasConfetti pg) eqn:E; [reflexivity|exfalso].
        specialize (Hno eq_refl). rewrite Hno in H2, H3, H4. cbn in H2, H3, H4.
        pose proof (pop_pend_length _ _ _ _ Hpop) as Hl.
        destruct t; try discriminate Hb; lia. }
      pose proof (pop_pend_length _ _ _ _ Hpop) as Hl.
      destruct t; try discriminate Hb; cbn [runTask]; unfold confetti, finish;
        rewrite Hc'; cbn [confettiCalls set_confettiCalls];
        rewrite !count_occ_app; cbn [count_occ];
        repeat match goal with
               | |- context [pend ?k rest] =>
                   lazymatch goal with
                   | H : popMin _ = Some ((_, k), rest) |- _ => fail
                   | _ => rewrite (pop_pend_other _ _ _ _ k Hpop eq_refl)
                   end
               end;
        repeat split; try (cbn; lia); try (intros; discriminate);
        (apply Forall_app; split; [exact Hall|repeat constructor; lia]).
    + rewrite (confettiCalls_runTask _ _ _ _ _ Hb).
      rewrite !(pop_pend_other _ _ _ _ _ Hpop)
        by (destruct t; try discriminate Hb; reflexivity).
      auto.
  - destruct u;
      try (rewrite !pend_runUser, Hout by reflexivity;
           rewrite confettiCalls_runUser by discriminate;
           cbn [pend List.length]; rewrite !Nat.add_0_r; now auto).
    cbn [runUser]. destruct (askClickable (st a));
      [|rewrite Hout; cbn [pend List.length]; rewrite !Nat.add_0_r; now auto].
    unfold handleAccept, andThen, confetti, finish.
    destruct (hasConfetti pg) eqn:E; cbn; rewrite Hout; cbn;
      rewrite ?pend_app, ?pend_one, ?pend_nil; cbn.
    + rewrite !count_occ_app. unfold pend at 2 4 6. cbn.
      repeat split; try lia; try (intros; discriminate).
      apply Forall_app; split; [exact Hall|repeat constructor; lia].
    + rewrite !Nat.add_0_r. auto.
Qed.

Lemma confettiBalanced_start : confettiBalanced pg (start pg).
Proof.
  unfold confettiBalanced. rewrite !pend_start by (intros; discriminate).
  assert (E : confettiCalls (st (start pg)) = []).
  { unfold start, init, animateTerminal, initStarfield.
    cbn [flush st set_outbox confettiCalls setTimeout].
    apply (init_animateLines (fun s => confettiCalls s = [])); [auto|].
    destruct (hasCanvas pg); reflexivity. }
  unfold launched. rewrite E. cbn. auto.
Qed.

Lemma reachable_confettiBalanced (tr : list Event) (y : Sys) :
  run pg tr (start pg) = Some y -> confettiBalanced pg y.
Proof.
  intros H.
  apply (run_invariant pg (fun y => settledTurn y /\ confettiBalanced pg y)
           tr (start pg) y); [| |exact H].
  - intros e a b [Ha Hr] Hs. split; [eapply step_settled; eauto|].
    eapply confettiBalanced_step; eauto.
  - split; [apply start_settled|apply confettiBalanced_start].
Qed.

End Confetti.

(** Every burst of confetti is one of the four of [handleAccept], and in
    every state of the page each of the three later bursts has been
    launched or is still pending exactly once for every first burst:
    none is lost and none is launched twice.  Without the confetti
    library nothing is ever launched. *)
Theorem confetti_bursts_balanced (pg : Page) (tr : list Event) (y : Sys) :
  run pg tr (start pg) = Some y ->
  (launched 2 (st y) + List.length (pend Burst2 (timers y)) = launched 1 (st y))%nat /\
  (launched 3 (st y) + List.length (pend Burst3 (timers y)) = launched 1 (st y))%nat /\
  (launched 4 (st y) + List.length (pend Burst4 (timers y)) = launched 1 (st y))%nat /\
  Forall (fun c => (1 <= c <= 4)%nat) (confettiCalls (st y)) /\
  (hasConfetti pg = false -> confettiCalls (st y) = []).
Proof. intros H. exact (reachable_confettiBalanced pg tr y H). Qed.

Lemma confetti_bursts_balanced_witness :
  run (demoPage true) demoAccept (start (demoPage true))
    = Some (endOf (demoPage true) demoAccept) /\
  (launched 2 (st (endOf (demoPage true) demoAccept))
   + List.length (pend Burst2 (timers (endOf (demoPage true) demoAccept)))
   = launched 1 (st (endOf (demoPage true) demoAccept)))%nat.
Proof.
  assert (H : run (demoPage true) demoAccept (start (demoPage true))
              = Some (endOf (demoPage true) demoAccept)) by (vm_compute; reflexivity).
  split; [exact H|].
  exact (proj1 (confetti_bursts_balanced (demoPage true) demoAccept _ H)).
Defined.

(** ** The starfield loop in the page *)

Lemma draws_animationFrame (now : Z) (s : State) :
  drawsPending (animationFrame now s) = drawsPending s.
Proof.
  unfold animationFrame, drawsPending.
  assert (G : forall fs acc,
             filter is_draw (frames (fold_left (fun a f => runFrame now f a) fs acc))
             = filter is_draw (frames acc) ++ filter is_draw fs).
  { induction fs as [|f fs IH]; intros acc; cbn [fold_left filter];
      [now rewrite app_nil_r|].
    rewrite IH. destruct f; cbn [runFrame is_draw]; handler_cases;
      rewrite ?filter_app; cbn; rewrite <- ?app_assoc, ?app_nil_r; reflexivity. }
  rewrite G. reflexivity.
Qed.

Lemma filter_cancel (fs : list Frame) :
  filter is_draw (filter (fun f => negb (is_draw f)) fs) = [].
Proof.
  induction fs as [|f fs IH]; [reflexivity|]. cbn.
  destruct (is_draw f) eqn:E; cbn; rewrite ?E; exact IH.
Qed.

Section StarfieldLoop.

Variable pg : Page.

Lemma handleBegin_not_clickable (s : State) :
  beginClickable (handleBegin pg s) = false.
Proof. unfold beginClickable. handler_cases; reflexivity. Qed.

Lemma handleBegin_draws (s : State) :
  drawsPending s = (if hasCanvas pg then [Draw] else []) ->
  drawsPending (handleBegin pg s) = [].
Proof.
  unfold drawsPending. intros H. handler_cases; unfold cancelDraw; cbn;
    try apply filter_cancel; exact H.
Qed.

Lemma starfield_loop_step (e : Event) (a b : Sys) :
  settledTurn a ->
  drawsPending (st a) = (if hasCanvas pg && beginClickable (st a) then [Draw] else []) ->
  step pg e a = Some b ->
  drawsPending (st b) = (if hasCanvas pg && beginClickable (st b) then [Draw] else []).
Proof.
  intros Ha Hinv Hs.
  assert (Hkeep : forall s',
             style s' BtnBegin PointerEvents = style (st a) BtnBegin PointerEvents ->
             filter is_draw (frames s') = filter is_draw (frames (st a)) ->
             drawsPending (set_outbox [] s')
             = (if hasCanvas pg && beginClickable (set_outbox [] s') then [Draw] else [])).
  { intros s' E1 E2. unfold drawsPending, beginClickable in *.
    cbn [set_outbox frames style]. now rewrite E1, E2. }
  destruct (step_cases pg e a b Ha Hs)
    as [(r1 & r2 & d & t & rest & -> & Hpop & Hc & ->)|(d & u & -> & Hd & ->)];
    cbn [flush st].
  - apply Hkeep.
    + apply style_runTask. destruct t; reflexivity.
    + rewrite frames_runTask, filter_app. destruct t; cbn; now rewrite app_nil_r.
  - destruct u; try (apply Hkeep; [apply style_runUser; reflexivity|]).
    + cbn [runUser]. destruct (beginClickable (st a)) eqn:Hb.
      * rewrite andb_true_r in Hinv.
        replace (beginClickable (set_outbox [] (handleBegin pg (st a))))
          with (beginClickable (handleBegin pg (st a))) by reflexivity.
        replace (drawsPending (set_outbox [] (handleBegin pg (st a))))
          with (drawsPending (handleBegin pg (st a))) by reflexivity.
        rewrite handleBegin_not_clickable, andb_false_r.
        now apply handleBegin_draws.
      * apply Hkeep; reflexivity.
    + cbn [runUser]. destruct (askClickable (st a)); [|reflexivity].
      user_cases; reflexivity.
    + cbn [runUser]. destruct (askClickable (st a)); [|reflexivity].
      retry_cases; reflexivity.
    + apply draws_animationFrame.
    + reflexivity.
    + reflexivity.
Qed.

Lemma starfield_loop_start :
  drawsPending (st (start pg))
  = (if hasCanvas pg && beginClickable (st (start pg)) then [Draw] else []).
Proof.
  unfold start, init, animateTerminal, initStarfield, drawsPending, beginClickable.
  cbn [flush st set_outbox frames style setTimeout].
  apply (init_animateLines
           (fun s => filter is_draw (frames s)
                     = if hasCanvas pg && negb (isNone (style s BtnBegin PointerEvents))
                       then [Draw] else [])); [auto|].
  destruct (hasCanvas pg); reflexivity.
Qed.

End StarfieldLoop.

(** The starfield animation runs while the landing page waits for the
    begin click and never afterwards: on a page with the canvas exactly
    one [draw] request is pending as long as the begin button can be
    clicked, the click cancels it and no [draw] is requested again; on a
    page without the canvas none ever is. *)
Theorem starfield_loop_stops_at_begin (pg : Page) (tr : list Event) (y : Sys) :
  run pg tr (start pg) = Some y ->
  drawsPending (st y) = (if hasCanvas pg && beginClickable (st y) then [Draw] else []).
Proof.
  intros H.
  apply (run_invariant pg
           (fun y => settledTurn y /\
                     drawsPending (st y)
                     = (if hasCanvas pg && beginClickable (st y) then [Draw] else []))
           tr (start pg) y); [| |exact H].
  - intros e a b [Ha Hr] Hs. split; [eapply step_settled; eauto|].
    eapply starfield_loop_step; eauto.
  - split; [apply start_settled|apply starfield_loop_start].
Qed.

Lemma starfield_loop_stops_at_begin_witness :
  run (demoPage true) demoBegin (start (demoPage true))
    = Some (endOf (demoPage true) demoBegin) /\
  drawsPending (st (endOf (demoPage true) demoBegin))
  = (if hasCanvas (demoPage true) && beginClickable (st (endOf (demoPage true) demoBegin))
     then [Draw] else []).
Proof.
  assert (H : run (demoPage true) demoBegin (start (demoPage true))
              = Some (endOf (demoPage true) demoBegin)) by (vm_compute; reflexivity).
  split; [exact H|].
  exact (starfield_loop_stops_at_begin (demoPage true) demoBegin _ H).
Defined.

(** ** The terminal lines *)

Lemma totalDelay_from (ds : list (option Z)) (m : Z) :
  m <= fold_left (fun m d => Z.max m (orElse d 0)) ds m /\
  forall d, In d ds -> orElse d 0 <= fold_left (fun m d => Z.max m (orElse d 0)) ds m.
Proof.
  revert m. induction ds as [|d ds IH]; intros m; cbn [fold_left].
  - split; [lia|contradiction].
  - destruct (IH (Z.max m (orElse d 0))) as [H1 H2]. split; [lia|].
    intros d' [<-|Hin]; [lia|auto].
Qed.

Lemma totalDelay_bounds (ds : list (option Z)) :
  0 <= totalDelay ds /\
  (forall i v, nth_error ds i = Some (Some v) -> v <> 0 -> v <= totalDelay ds).
Proof.
  unfold totalDelay. destruct (totalDelay_from ds 0) as [H1 H2]. split; [exact H1|].
  intros i v Hi Hv. apply nth_error_In in Hi. specialize (H2 _ Hi).
  cbn in H2. destruct (Z.eqb_spec v 0); [congruence|exact H2].
Qed.

Lemma ShowLine_beq (i j : nat) :
  Task_beq (ShowLine j) (ShowLine i) = (j =? i)%nat.
Proof.
  destruct (Nat.eqb_spec j i) as [->|N]; [apply Task_beq_refl|].
  apply Task_beq_neq. congruence.
Qed.

Lemma pend_animateLines (i : nat) (ds : list (option Z)) :
  forall j s,
    pend (ShowLine i) (outbox (animateLines j ds s)) =
    pend (ShowLine i) (outbox s)
    ++ match (if (j <=? i)%nat then nth_error ds (i - j) else None) with
       | Some d => [orElse d (Z.of_nat i * 600)]
       | None => []
       end.
Proof.
  induction ds as [|d ds IH]; intros j s; cbn [animateLines].
  - destruct (j <=? i)%nat; [destruct (i - j)%nat|]; cbn; now rewrite app_nil_r.
  - rewrite IH. cbn [setTimeout set_outbox outbox].
    rewrite pend_app, pend_one, ShowLine_beq, <- app_assoc. f_equal.
    destruct (Nat.eqb_spec j i) as [->|N].
    + rewrite Nat.leb_refl, Nat.sub_diag. cbn [nth_error].
      destruct (Nat.leb_spec (S i) i); [lia|]. reflexivity.
    + destruct (Nat.leb_spec j i) as [Hle|Hgt].
      * destruct (Nat.leb_spec (S j) i); [|lia].
        replace (i - j)%nat with (S (i - S j)) by lia. reflexivity.
      * destruct (Nat.leb_spec (S j) i); [lia|]. reflexivity.
Qed.

Lemma pend_other_animateLines (k : Task) (ds : list (option Z)) :
  (forall i, k <> ShowLine i) ->
  forall j s, pend k (outbox (animateLines j ds s)) = pend k (outbox s).
Proof.
  intros N. induction ds as [|d ds IH]; intros j s; cbn [animateLines]; [reflexivity|].
  rewrite IH. cbn [setTimeout set_outbox outbox].
  rewrite pend_app, pend_one, Task_beq_neq by (intros E; eapply N; eauto).
  apply app_nil_r.
Qed.

Section Terminal.

Variable pg : Page.

Lemma pend_start_line (i : nat) :
  pend (ShowLine i) (timers (start pg)) =
  match lineDue pg i with Some t => [t] | None => [] end.
Proof.
  unfold start. rewrite pend_flush_all, pend_nil. cbn [app].
  unfold init, animateTerminal. cbn [setTimeout set_outbox outbox].
  rewrite pend_app, pend_one. cbn [Task_beq]. rewrite app_nil_r.
  rewrite pend_animateLines. cbn [Nat.leb]. rewrite Nat.sub_0_r.
  assert (E : pend (ShowLine i)
                (outbox (initStarfield pg (setStyle Body Overflow (css "hidden") (markup pg))))
              = []).
  { unfold initStarfield. destruct (hasCanvas pg); reflexivity. }
  rewrite E. unfold lineDue. cbn [app].
  destruct (nth_error (lineDelays pg) i); reflexivity.
Qed.

Lemma pend_start_begin :
  pend ShowBegin (timers (start pg)) = [beginDue pg].
Proof.
  unfold start. rewrite pend_flush_all. cbn [pend app].
  unfold init, animateTerminal. cbn [setTimeout set_outbox outbox].
  rewrite pend_app, pend_one. cbn [Task_beq].
  rewrite pend_other_animateLines by (intros; discriminate).
  assert (E : pend ShowBegin
                (outbox (initStarfield pg (setStyle Body Overflow (css "hidden") (markup pg))))
              = []).
  { unfold initStarfield. destruct (hasCanvas pg); reflexivity. }
  rewrite E. cbn [app map]. unfold beginDue.
  destruct (totalDelay_bounds (lineDelays pg)) as [H0 _].
  rewrite pend_nil. cbn [app]. f_equal. lia.
Qed.

Lemma shownBy_step (k : Task) (el : Elem) (c : Class) (t : Z) (e : Event) (a b : Sys) :
  (forall now r1 r2 s, classes (runTask pg now r1 r2 k s) el c = true) ->
  (forall tk, tk <> k -> writesClass (classWrites tk) el c = false) ->
  (forall u, writesClass (userClassWrites u) el c = false) ->
  (forall tk, spawns tk k = false) -> (forall u, userSpawns u k = false) ->
  settledTurn a -> shownBy k el c t a -> step pg e a = Some b -> shownBy k el c t b.
Proof.
  intros Hset Hcl Hucl Hsp Husp Ha Hinv Hs.
  destruct (step_cases pg e a b Ha Hs)
    as [(r1 & r2 & d & tk & rest & -> & Hpop & Hc & ->)|(d & u & -> & Hd & ->)];
    destruct Ha as [Hout _]; unfold shownBy in *;
    rewrite pend_flush_all; cbn [flush st clock set_outbox classes].
  - rewrite pend_runTask, Hout by apply Hsp. cbn [pend map]. rewrite app_nil_r.
    destruct (Task_eq_dec tk k) as [->|N].
    + destruct Hinv as [[Hp Hf]|[Hp _]].
      * destruct (pend_pop_single _ _ _ _ _ _ Hpop Hp) as (Hr & _ & Hd).
        rewrite Task_beq_refl in Hr. specialize (Hd (Task_beq_refl _)).
        right. rewrite Hset. repeat split; auto. lia.
      * exfalso. now apply (pop_pend_self _ _ _ _ Hpop).
    + rewrite (pop_pend_other _ _ _ _ k Hpop (Task_beq_neq _ _ N)).
      rewrite classes_runTask by now apply Hcl.
      destruct Hinv as [[Hp Hf]|(Hp & Hv & Ht)]; [left|right]; repeat split; auto.
      lia.
  - rewrite pend_runUser, Hout by apply Husp. cbn [pend map]. rewrite app_nil_r.
    rewrite classes_runUser by apply Hucl.
    destruct Hinv as [[Hp Hf]|(Hp & Hv & Ht)]; [left|right]; repeat split; auto.
    lia.
Qed.

Lemma line_other (i : nat) (tk : Task) :
  tk <> ShowLine i -> writesClass (classWrites tk) (TerminalLine i) Visible = false.
Proof.
  intros N. destruct tk; try reflexivity.
  unfold writesClass. cbn [classWrites existsb fst snd].
  destruct (Elem_beq (TerminalLine i0) (TerminalLine i)) eqn:E; [|reflexivity].
  apply internal_Elem_dec_bl in E. congruence.
Qed.

Lemma line_set (i : nat) now r1 r2 s :
  classes (runTask pg now r1 r2 (ShowLine i) s) (TerminalLine i) Visible = true.
Proof.
  cbn [runTask]. unfold classAdd. cbn [classes set_dom].
  rewrite (internal_Elem_dec_lb (TerminalLine i) (TerminalLine i) eq_refl).
  reflexivity.
Qed.

Lemma terminalState_step (e : Event) (a b : Sys) :
  settledTurn a -> terminalState pg a -> step pg e a = Some b -> terminalState pg b.
Proof.
  intros Ha [Hl Hb] Hs. split.
  - intros i. specialize (Hl i). destruct (lineDue pg i) as [t|].
    + eapply (shownBy_step (ShowLine i)); eauto.
      * apply line_set.
      * apply line_other.
      * intros u. destruct u; reflexivity.
      * intros tk. destruct tk; reflexivity.
      * intros u. destruct u; reflexivity.
    + destruct Hl as [Hp Hv].
      destruct (step_cases pg e a b Ha Hs)
        as [(r1 & r2 & d & tk & rest & -> & Hpop & Hc & ->)|(d & u & -> & Hd & ->)];
        destruct Ha as [Hout _];
        rewrite pend_flush_all; cbn [flush st clock set_outbox classes].
      * destruct (pend_pop_nil _ _ _ _ _ Hpop Hp) as [Hr Hne].
        rewrite pend_runTask, Hout, Hr by (destruct tk; reflexivity).
        split; [reflexivity|].
        rewrite classes_runTask; [exact Hv|]. apply line_other.
        intros ->. rewrite Task_beq_refl in Hne. discriminate.
      * rewrite pend_runUser, Hout, Hp by (destruct u; reflexivity).
        split; [reflexivity|].
        rewrite classes_runUser; [exact Hv|]. destruct u; reflexivity.
  - eapply (shownBy_step ShowBegin); eauto.
    + intros tk N. destruct tk; try congruence; reflexivity.
    + intros u. destruct u; reflexivity.
    + intros tk. destruct tk; reflexivity.
    + intros u. destruct u; reflexivity.
Qed.

Lemma terminalState_start : terminalState pg (start pg).
Proof.
  split.
  - intros i. pose proof (pend_start_line i) as E.
    destruct (lineDue pg i) as [t|].
    + left. split; [exact E|rewrite classes_start; reflexivity].
    + split; [exact E|rewrite classes_start; reflexivity].
  - left. split; [apply pend_start_begin|]. rewrite classes_start. reflexivity.
Qed.

Lemma reachable_terminalState (tr : list Event) (y : Sys) :
  run pg tr (start pg) = Some y -> terminalState pg y.
Proof.
  intros H.
  apply (run_invariant pg (fun y => settledTurn y /\ terminalState pg y)
           tr (start pg) y); [| |exact H].
  - intros e a b [Ha Hr] Hs. split; [eapply step_settled; eauto|].
    eapply terminalState_step; eauto.
  - split; [apply start_settled|apply terminalState_start].
Qed.

Lemma shownBy_times (k : Task) (el : Elem) (c : Class) (t : Z) (y : Sys) :
  settledTurn y -> shownBy k el c t y ->
  (t < clock y -> classes (st y) el c = true) /\
  (classes (st y) el c = true -> t <= clock y).
Proof.
  intros [_ Hdue] [[Hp Hf]|(Hp & Hv & Ht)].
  - split; [|congruence]. intros Hlate.
    assert (Hin : In (t, k) (timers y)) by (apply pend_in; rewrite Hp; apply in_eq).
    rewrite Forall_forall in Hdue. specialize (Hdue _ Hin). cbn in Hdue. lia.
  - auto.
Qed.

End Terminal.



(** ** The globe sequence in the page *)

Lemma arriving_delay :
  Qfloor (inject_Z ARC_FLIGHT_TIME * ARRIVING_THRESHOLD) = 5250.
Proof. reflexivity. Qed.

Lemma latFrames_fold (now : Z) (fs : list Frame) :
  filter (fun f => negb (is_draw f)) fs = [] ->
  forall acc,
    latFrames (fold_left (fun a f => runFrame now f a) fs acc) = latFrames acc /\
    text (fold_left (fun a f => runFrame now f a) fs acc) StatLatency
    = text acc StatLatency.
Proof.
  induction fs as [|f fs IH]; intros H acc; cbn [fold_left]; [auto|].
  destruct f as [|ts]; cbn [filter is_draw negb] in H; [|discriminate].
  destruct (IH H (runFrame now Draw acc)) as [E1 E2]. rewrite E1, E2.
  unfold latFrames. cbn. rewrite filter_app. cbn. now rewrite app_nil_r.
Qed.

Lemma filter_single {A : Type} (f : A -> bool) (l : list A) (x : A) :
  filter f l = [x] ->
  exists l1 l2, l = l1 ++ x :: l2 /\ filter f l1 = [] /\ filter f l2 = [].
Proof.
  induction l as [|a l IH]; cbn; [discriminate|].
  destruct (f a) eqn:E; intros H.
  - inversion H; subst. exists [], l. auto.
  - destruct (IH H) as (l1 & l2 & -> & H1 & H2). exists (a :: l1), l2.
    cbn. rewrite E. auto.
Qed.

Lemma latFrames_animation_none (now : Z) (s : State) :
  latFrames s = [] ->
  latFrames (animationFrame now s) = [] /\
  text (animationFrame now s) StatLatency = text s StatLatency.
Proof.
  intros H. unfold animationFrame.
  destruct (latFrames_fold now (frames s) H (set_frames [] s)) as [E1 E2].
  now rewrite E1, E2.
Qed.

Lemma latFrames_animation_one (now ts : Z) (s : State) :
  latFrames s = [LatencyUpdate ts] ->
  text (animationFrame now s) StatLatency
  = LocaleNumber (latencyValue (inject_Z ts) (inject_Z now)) /\
  latFrames (animationFrame now s)
  = (if Qlt_le_dec (progressAt (inject_Z ts) (inject_Z now)) 1
     then [LatencyUpdate ts] else []).
Proof.
  intros H. unfold animationFrame.
  destruct (filter_single _ _ _ H) as (l1 & l2 & E & H1 & H2).
  rewrite E, fold_left_app. cbn [fold_left].
  destruct (latFrames_fold now l1 H1 (set_frames [] s)) as [A1 A2].
  set (acc := fold_left (fun a f => runFrame now f a) l1 (set_frames [] s)) in *.
  destruct (latFrames_fold now l2 H2 (runFrame now (LatencyUpdate ts) acc)) as [B1 B2].
  rewrite B1, B2. cbn [runFrame]. unfold latencyUpdate.
  destruct (Qlt_le_dec _ _); unfold latFrames in *; cbn;
    rewrite ?filter_app, ?A1; cbn; auto.
Qed.

Lemma latFrames_cancel (s : State) : latFrames (cancelDraw s) = latFrames s.
Proof.
  unfold latFrames, cancelDraw. cbn. apply filter_twice.
Qed.

(** *** The order of the timers of the sequence *)

Ltac arc_lia :=
  unfold ARC_FLIGHT_TIME, CE_DISPLAY_TIME in *;
  try change (7000 * 75 / 100) with 5250 in *; lia.

Lemma arc_order (l : bool) (p : ArcStep) (tb d : Z) (tk : Task) :
  arcTask tk = true -> In d (arcPend l p tb tk) ->
  (forall k, arcTask k = true -> Forall (fun x => d <= x) (arcPend l p tb k)) ->
  exists p', arcNext l p tk = Some p' /\ d = tb + arcSince p' /\
             arcPend l p tb tk = [d].
Proof.
  intros Ht Hin Hmin.
  pose proof (Hmin FadeLoading eq_refl) as M1.
  pose proof (Hmin HideLoading eq_refl) as M2.
  pose proof (Hmin StartArc eq_refl) as M3.
  pose proof (Hmin MarkArriving eq_refl) as M4.
  pose proof (Hmin MarkDelivered eq_refl) as M5.
  pose proof (Hmin ShowEstablished eq_refl) as M6.
  pose proof (Hmin ResolveArc eq_refl) as M7.
  clear Hmin.
  destruct tk; try discriminate Ht; destruct p, l;
    cbn in Hin; try contradiction; destruct Hin as [Hin|[]];
    cbn in M1, M2, M3, M4, M5, M6, M7;
    repeat match goal with
           | H : Forall _ [] |- _ => clear H
           | H : Forall _ [_] |- _ => apply Forall_inv in H
           end;
    try arc_lia;
    (eexists; split; [reflexivity|]; cbn; split; [arc_lia|f_equal; arc_lia]).
Qed.

Lemma arc_pend_next (l : bool) (p p' : ArcStep) (tb : Z) (tk k : Task) :
  arcNext l p tk = Some p' -> arcTask k = true ->
  arcPend l p' tb k
  = (if Task_beq tk k then [] else arcPend l p tb k)
    ++ map (fun x => tb + arcSince p' + Z.max 0 x) (arcSpawn l tk k).
Proof.
  intros Hn Hk.
  destruct p, tk; try discriminate Hn; destruct l; try discriminate Hn;
    cbn in Hn; inversion Hn; subst p'; clear Hn;
    destruct k; try discriminate Hk; cbn; try reflexivity; f_equal; arc_lia.
Qed.

Lemma arc_pend_built (l : bool) (tb : Z) (k : Task) :
  arcTask k = true ->
  arcPend l ABuilt tb k
  = match k with
    | FadeLoading => [tb + 800]
    | StartArc => [tb + 1500]
    | _ => []
    end.
Proof. destruct k; try discriminate; destruct l; reflexivity. Qed.

Lemma arc_pending_due (l : bool) (p : ArcStep) (tb d : Z) (k : Task) :
  In d (arcPend l p tb k) -> d = tb + arcDue k /\ tb + arcSince p <= d.
Proof.
  unfold arcPend. destruct (arcWaits l p k) eqn:E; [|contradiction].
  intros [<-|[]]. split; [reflexivity|].
  destruct k; try discriminate E; destruct p; try discriminate E; cbn;
    try arc_lia; destruct l; discriminate E.
Qed.

Lemma pop_pend_single (q r : list (Z * Task)) (d x : Z) (t : Task) :
  popMin q = Some ((d, t), r) -> pend t q = [x] -> pend t r = [].
Proof.
  intros H E. pose proof (pop_pend_length _ _ _ _ H) as L.
  rewrite E in L. cbn in L. destruct (pend t r); [reflexivity|discriminate].
Qed.

Lemma latency_done (start now : Q) :
  (1 <= progressAt start now)%Q -> latencyValue start now = DISTANCE_MILES.
Proof.
  intros H.
  assert (E : (progressAt start now == 1)%Q).
  { apply Qle_antisym; [|exact H]. unfold progressAt. apply Q.le_min_r. }
  unfold latencyValue, jsRound.
  transitivity (Qfloor (inject_Z DISTANCE_MILES + (1 # 2))); [|reflexivity].
  apply Qfloor_comp. unfold easeOutCubic. rewrite E. ring.
Qed.

Ltac open_view H :=
  unfold noGlobeOk, arcOk, arcView in H;
  cbn [avBuilt avConsole avStarted avSettled avOverlay avEstablished avArriving
       avDelivered avPacket avLoadingOpacity avLoadingDisplay] in H.

Ltac open_view_goal :=
  unfold noGlobeOk, arcOk, arcView;
  cbn [avBuilt avConsole avStarted avSettled avOverlay avEstablished avArriving
       avDelivered avPacket avLoadingOpacity avLoadingDisplay].

Section GlobeSequence.

Variable pg : Page.

Lemma arcView_runTask (now : Z) (r1 r2 : Q) (tk : Task) (s : State) :
  arcTask tk = false -> tk <> WaitForGlobe ->
  arcView (runTask pg now r1 r2 tk s) = arcView s.
Proof.
  intros H N. unfold arcView.
  rewrite !classes_runTask by (destruct tk; try discriminate H; reflexivity).
  rewrite !style_runTask by (destruct tk; try discriminate H; try congruence; reflexivity).
  rewrite text_runTask by (destruct tk; try discriminate H; reflexivity).
  f_equal; destruct tk; try discriminate H; try congruence; cbn [runTask];
    open_handlers; handler_cases; reflexivity.
Qed.

Lemma arcView_animationFrame (now : Z) (s : State) :
  arcView (animationFrame now s) = arcView s.
Proof.
  unfold arcView.
  rewrite !classes_animationFrame, !style_animationFrame.
  rewrite text_animationFrame by reflexivity.
  f_equal; unfold animationFrame;
    match goal with
    | |- ?f _ = ?f s => change (f s) with (f (set_frames [] s))
    end;
    generalize (set_frames [] s) as acc;
    induction (frames s) as [|f fs IH]; intros acc; cbn [fold_left];
      try reflexivity;
      rewrite IH; destruct f; cbn [runFrame]; handler_cases; reflexivity.
Qed.

Lemma arcView_runUser (now : Z) (u : UserEvent) (s : State) :
  u <> ClickBegin -> arcView (runUser pg now u s) = arcView s.
Proof.
  intros N. destruct u; try congruence;
    try (cbn [runUser]; apply arcView_animationFrame);
    unfold arcView;
    rewrite !classes_runUser by reflexivity;
    rewrite !style_runUser by reflexivity;
    rewrite text_runUser by reflexivity;
    f_equal; user_cases; reflexivity.
Qed.

Lemma latFrames_runTask (now : Z) (r1 r2 : Q) (tk : Task) (s : State) :
  tk <> StartArc -> latFrames (runTask pg now r1 r2 tk s) = latFrames s.
Proof.
  intros N. unfold latFrames. rewrite frames_runTask, filter_app.
  destruct tk; try congruence; cbn; apply app_nil_r.
Qed.

Lemma latFrames_runUser (now : Z) (u : UserEvent) (s : State) :
  u <> NextFrame -> latFrames (runUser pg now u s) = latFrames s.
Proof.
  intros N. destruct u; try congruence; cbn [runUser]; try reflexivity.
  - destruct (beginClickable s); [|reflexivity]. unfold latFrames.
    handler_cases; unfold cancelDraw; cbn; rewrite ?filter_twice; reflexivity.
  - destruct (askClickable s); [|reflexivity]. user_cases; reflexivity.
  - destruct (askClickable s); [|reflexivity]. retry_cases; reflexivity.
Qed.

Lemma beginClickable_runTask (now : Z) (r1 r2 : Q) (tk : Task) (s : State) :
  beginClickable (runTask pg now r1 r2 tk s) = beginClickable s.
Proof.
  unfold beginClickable. now rewrite style_runTask by (destruct tk; reflexivity).
Qed.

Lemma beginClickable_runUser (now : Z) (u : UserEvent) (s : State) :
  u <> ClickBegin -> beginClickable (runUser pg now u s) = beginClickable s.
Proof.
  intros N. unfold beginClickable.
  now rewrite style_runUser by (destruct u; try congruence; reflexivity).
Qed.

(** *** What the stage of the begin sequence rules out *)

Ltac stage_cases g Hpend Hside :=
  destruct g as [|t0 sh|t0 ts sh|t0 tr|t0 te fired];
  try destruct sh; try destruct fired as [|[|fired]];
  cbn [stageSide stagePend vClickable vBuilt vSettled vConsole vAttempts view]
    in Hpend, Hside.

Lemma built_stage (g : Stage) (y : Sys) :
  inStage g y -> globeBuilt (st y) = true ->
  pend WaitForGlobe (timers y) = [] /\ beginClickable (st y) = false.
Proof.
  intros (_ & Hpend & Hside) Hb.
  pose proof (Hpend WaitForGlobe eq_refl) as Hw.
  stage_cases g Hw Hside; split; try exact Hw; intuition congruence.
Qed.

Lemma polling_stage (g : Stage) (y : Sys) :
  inStage g y -> pend WaitForGlobe (timers y) <> [] ->
  settled (st y) = false /\ console (st y) = [] /\ beginClickable (st y) = false.
Proof.
  intros (_ & Hpend & Hside) Hp.
  pose proof (Hpend WaitForGlobe eq_refl) as Hw. rewrite Hw in Hp.
  stage_cases g Hp Hside; try congruence; intuition.
Qed.

Lemma clickable_stage (g : Stage) (y : Sys) :
  inStage g y -> beginClickable (st y) = true ->
  console (st y) = [] /\ globeBuilt (st y) = false.
Proof.
  intros (_ & Hpend & Hside) Hc.
  stage_cases g Hpend Hside; intuition congruence.
Qed.

Lemma letter_stage (g : Stage) (y : Sys) (k : Task) :
  inStage g y -> k = AddRomantic \/ k = ActivateLetter ->
  (pend k (timers y) <> [] -> settled (st y) = true) /\
  (forall d, In (d, k) (timers y) -> pend k (timers y) = [d]).
Proof.
  intros (_ & Hpend & Hside) Hk.
  assert (Ho : orch k = true) by (destruct Hk; subst; reflexivity).
  pose proof (Hpend k Ho) as Hw.
  assert (Hone : forall d, In (d, k) (timers y) -> In d (pend k (timers y)))
    by (intros d; apply in_pend).
  rewrite Hw in *.
  stage_cases g Hw Hside; destruct Hk; subst k;
    cbn [stagePend] in Hone |- *;
    (split; [intros N; try congruence; intuition|]);
    intros d Hin; specialize (Hone d Hin); cbn in Hone;
      try contradiction; destruct Hone as [<-|[]]; reflexivity.
Qed.

(** *** One timer of the sequence *)

Lemma arc_outbox (now : Z) (r1 r2 : Q) (tk k : Task) (s : State) :
  arcTask tk = true -> arcTask k = true -> outbox s = [] ->
  pend k (outbox (runTask pg now r1 r2 tk s)) = arcSpawn (hasLoading pg) tk k.
Proof.
  intros Ht Hk Hout.
  destruct tk; try discriminate Ht; cbn [runTask]; open_handlers;
    unfold resolve, transitionToLetter;
    handler_cases; cbn; rewrite Hout; destruct k; try discriminate Hk;
    reflexivity.
Qed.

Lemma arcOk_next (now : Z) (r1 r2 : Q) (p p' : ArcStep) (tk : Task) (s : State) :
  arcNext (hasLoading pg) p tk = Some p' ->
  arcOk pg p (arcView s) -> arcOk pg p' (arcView (runTask pg now r1 r2 tk s)).
Proof.
  intros Hn (H1 & H2 & H3 & H4 & H5 & H6 & H7 & H8 & H9 & H10).
  unfold arcView in *.
  cbn [avBuilt avConsole avStarted avSettled avOverlay avEstablished avArriving
       avDelivered avPacket avLoadingOpacity avLoadingDisplay] in *.
  destruct p, tk; try discriminate Hn;
    destruct (hasLoading pg) eqn:L; try discriminate Hn;
    cbn in Hn; inversion Hn; subst p'; clear Hn;
    try (destruct (H10 eq_refl) as [H11 H12]); clear H10;
    cbn [runTask]; unfold fadeLoading, startArc, resolve; rewrite ?L, ?H4;
    unfold arcOk;
    cbn [avBuilt avConsole avStarted avSettled avOverlay avEstablished avArriving
         avDelivered avPacket avLoadingOpacity avLoadingDisplay];
    cbn in *;
    repeat split; try assumption; try discriminate; auto; congruence.
Qed.

Lemma latOk_later (p : ArcStep) (tb : Z) (a b : Sys) :
  latFrames (st b) = latFrames (st a) ->
  text (st b) StatLatency = text (st a) StatLatency ->
  clock a <= clock b ->
  latOk pg p tb a -> latOk pg p tb b.
Proof.
  intros Hf Ht Hc. unfold latOk. rewrite Hf, Ht.
  destruct (arcRank p <? 3)%nat; [auto|].
  intros [[H1 [H2|(t & Hr & H2)]]|H]; [left; split; auto ..|now right].
  right. exists t. split; [lia|exact H2].
Qed.

Lemma latOk_next (now : Z) (r1 r2 : Q) (rest : list (Z * Task))
  (p p' : ArcStep) (tk : Task) (tb : Z) (a : Sys) :
  arcNext (hasLoading pg) p tk = Some p' -> now = tb + arcSince p' ->
  clock a <= now ->
  latOk pg p tb a ->
  latOk pg p' tb (flush now rest (runTask pg now r1 r2 tk (st a))).
Proof.
  intros Hn Hd Hc H.
  assert (Hother : tk <> StartArc ->
            latOk pg p tb (flush now rest (runTask pg now r1 r2 tk (st a)))).
  { intros N. apply (latOk_later p tb a); [| |exact Hc|exact H].
    - change (latFrames (runTask pg now r1 r2 tk (st a)) = latFrames (st a)).
      now apply latFrames_runTask.
    - cbn [flush st set_outbox text].
      apply text_runTask. destruct tk; try congruence; reflexivity. }
  destruct p, tk; try discriminate Hn;
    destruct (hasLoading pg); try discriminate Hn;
    cbn in Hn; inversion Hn; subst p'; clear Hn;
    try (specialize (Hother ltac:(discriminate)); exact Hother);
    clear Hother; unfold latOk in *; cbn [arcRank Nat.ltb Nat.leb] in *;
    destruct H as [Hf Ht]; left; (split; [|left; exact Ht]);
    unfold latFrames in *; cbn; rewrite filter_app, Hf; cbn;
    rewrite Hd; reflexivity.
Qed.

Lemma letterOk_next (now : Z) (r1 r2 : Q) (rest : list (Z * Task))
  (p p' : ArcStep) (tk : Task) (tb : Z) (a : Sys) :
  arcNext (hasLoading pg) p tk = Some p' -> now = tb + arcSince p' ->
  settled (st a) = (7 <=? arcRank p)%nat ->
  letterOk p tb a ->
  letterOk p' tb (flush now rest (runTask pg now r1 r2 tk (st a))).
Proof.
  intros Hn Hd Hs H.
  assert (Hcl : forall e c,
            writesClass (classWrites tk) e c = false ->
            classes (st (flush now rest (runTask pg now r1 r2 tk (st a)))) e c
            = classes (st a) e c).
  { intros e c Hw. cbn [flush st set_outbox classes]. now apply classes_runTask. }
  destruct p, tk; try discriminate Hn;
    destruct (hasLoading pg); try discriminate Hn;
    cbn in Hn; inversion Hn; subst p'; clear Hn;
    unfold letterOk in *; cbn [arcRank Nat.ltb Nat.leb] in *;
    destruct H as [Hr Hl]; unfold setAt;
    rewrite ?(Hcl Body RomanticPhase eq_refl), ?(Hcl LetterPhase Active eq_refl);
    try (split; assumption);
    (split; right; (split; [assumption|]));
    cbn [arcSince] in Hd; rewrite <- Hd;
    match goal with
    | |- In (now + ?x, _) _ => change (now + x) with (now + Z.max 0 x)
    end;
    apply flush_new; cbn [runTask]; unfold resolve; rewrite Hs;
    unfold transitionToLetter; cbn; rewrite !in_app_iff; cbn; auto.
Qed.

Lemma arc_fire_arc (r1 r2 : Q) (d tb : Z) (tk : Task) (rest : list (Z * Task))
  (p : ArcStep) (a : Sys) :
  settledTurn a -> ArcAt pg tb p a ->
  popMin (timers a) = Some ((d, tk), rest) -> clock a <= d ->
  arcTask tk = true ->
  exists p', ArcAt pg tb p' (flush d rest (runTask pg d r1 r2 tk (st a))).
Proof.
  intros [Hout _] (Hp & Hok & Hclk & Hlat & Hlet) Hpop Hc Ht.
  assert (Hin : In d (arcPend (hasLoading pg) p tb tk)).
  { rewrite <- (Hp tk Ht). apply in_pend. exact (pop_in _ _ _ Hpop). }
  assert (Hmin : forall k, arcTask k = true ->
                           Forall (fun x => d <= x) (arcPend (hasLoading pg) p tb k)).
  { intros k Hk. rewrite <- (Hp k Hk). exact (pop_pend_min _ _ _ _ k Hpop). }
  destruct (arc_order _ _ _ _ _ Ht Hin Hmin) as (p' & Hn & Hd & Hone).
  exists p'. split; [|split; [|split; [|split]]].
  - intros k Hk. rewrite pend_flush_all, arc_outbox by assumption.
    rewrite (arc_pend_next _ _ _ _ _ _ Hn Hk), <- Hd. f_equal.
    destruct (Task_beq tk k) eqn:B.
    + apply internal_Task_dec_bl in B. subst k.
      apply (pop_pend_single _ _ _ d _ Hpop). now rewrite (Hp tk Ht).
    + rewrite (pop_pend_other _ _ _ _ _ Hpop B). now apply Hp.
  - change (st (flush d rest (runTask pg d r1 r2 tk (st a))))
      with (set_outbox [] (runTask pg d r1 r2 tk (st a))).
    change (arcView (set_outbox [] (runTask pg d r1 r2 tk (st a))))
      with (arcView (runTask pg d r1 r2 tk (st a))).
    now apply (arcOk_next d r1 r2 p p').
  - change (tb + arcSince p' <= d). lia.
  - now apply (latOk_next d r1 r2 rest p p').
  - apply (letterOk_next d r1 r2 rest p p'); auto.
    destruct Hok as (_ & _ & _ & H4 & _). exact H4.
Qed.

(** *** The other timers and the user *)

Lemma setAt_fire (g : Stage) (r1 r2 : Q) (d due : Z) (tk k : Task) (e : Elem)
  (c : Class) (rest : list (Z * Task)) (a : Sys) :
  letterTimer k e c -> inStage g a ->
  popMin (timers a) = Some ((d, tk), rest) -> clock a <= d ->
  setAt due k e c a ->
  setAt due k e c (flush d rest (runTask pg d r1 r2 tk (st a))).
Proof.
  intros Hk Hg Hpop Hc H. unfold setAt in *.
  change (classes (st (flush d rest (runTask pg d r1 r2 tk (st a)))) e c)
    with (classes (runTask pg d r1 r2 tk (st a)) e c).
  change (clock (flush d rest (runTask pg d r1 r2 tk (st a)))) with d.
  assert (Hset : tk = k -> classes (runTask pg d r1 r2 tk (st a)) e c = true).
  { intros ->. destruct Hk as [(-> & -> & ->)|(-> & -> & ->)]; reflexivity. }
  assert (Hkeep : tk <> k ->
            classes (runTask pg d r1 r2 tk (st a)) e c = classes (st a) e c).
  { intros N. apply classes_runTask.
    destruct Hk as [(-> & -> & ->)|(-> & -> & ->)];
      destruct tk; try congruence; reflexivity. }
  destruct (Task_beq tk k) eqn:B.
  - apply internal_Task_dec_bl in B. left. split; [auto|].
    destruct H as [[_ H]|[_ H]]; [lia|]. subst tk.
    assert (Hone : pend k (timers a) = [due]).
    { eapply letter_stage; eauto.
      destruct Hk as [(-> & _)|(-> & _)]; auto. }
    pose proof (in_pend _ _ _ (pop_in _ _ _ Hpop)) as Hin.
    rewrite Hone in Hin. destruct Hin as [<-|[]]. lia.
  - assert (N : tk <> k).
    { intros ->. rewrite Task_beq_refl in B. discriminate. }
    rewrite (Hkeep N). destruct H as [[H1 H2]|[H1 H2]]; [left; split; [auto|lia]|].
    right. split; [exact H1|].
    apply (fire_keeps _ _ _ _ _ _ _ Hpop H2). cbn. congruence.
Qed.

Lemma setAt_user (d due : Z) (u : UserEvent) (k : Task) (e : Elem) (c : Class)
  (a : Sys) :
  letterTimer k e c -> 0 <= d ->
  setAt due k e c a ->
  setAt due k e c (flush (clock a + d) (timers a) (runUser pg (clock a + d) u (st a))).
Proof.
  intros Hk Hd H. unfold setAt in *.
  change (classes (st (flush (clock a + d) (timers a)
                         (runUser pg (clock a + d) u (st a)))) e c)
    with (classes (runUser pg (clock a + d) u (st a)) e c).
  change (clock (flush (clock a + d) (timers a)
                   (runUser pg (clock a + d) u (st a)))) with (clock a + d).
  rewrite classes_runUser
    by (destruct Hk as [(-> & -> & ->)|(-> & -> & ->)]; destruct u; reflexivity).
  destruct H as [[H1 H2]|[H1 H2]]; [left; split; [auto|lia]|].
  right. split; [exact H1|]. now apply user_keeps.
Qed.

Lemma arc_fire_other (g : Stage) (r1 r2 : Q) (d tb : Z) (tk : Task)
  (rest : list (Z * Task)) (p : ArcStep) (a : Sys) :
  settledTurn a -> inStage g a -> ArcAt pg tb p a ->
  popMin (timers a) = Some ((d, tk), rest) -> clock a <= d ->
  arcTask tk = false ->
  ArcAt pg tb p (flush d rest (runTask pg d r1 r2 tk (st a))).
Proof.
  intros [Hout _] Hg (Hp & Hok & Hclk & Hlat & Hlet) Hpop Hc Ht.
  assert (Hb : globeBuilt (st a) = true) by apply Hok.
  assert (Hs : settled (st a) = (7 <=? arcRank p)%nat) by apply Hok.
  assert (N : tk <> WaitForGlobe).
  { intros ->. destruct (built_stage g a Hg Hb) as [Hw _].
    exact (pop_pend_self _ _ _ _ Hpop Hw). }
  split; [|split; [|split; [|split]]].
  - intros k Hk. rewrite pend_flush_all.
    rewrite pend_runTask, Hout, pend_nil, app_nil_r
      by (destruct tk; try congruence; try discriminate Ht;
          destruct k; try discriminate Hk; reflexivity).
    rewrite (pop_pend_other _ _ _ _ k Hpop); [now apply Hp|].
    apply Task_beq_neq. intros ->. congruence.
  - change (arcView (st (flush d rest (runTask pg d r1 r2 tk (st a)))))
      with (arcView (runTask pg d r1 r2 tk (st a))).
    now rewrite arcView_runTask.
  - change (tb + arcSince p <= d). lia.
  - apply (latOk_later p tb a); [| |exact Hc|exact Hlat].
    + change (latFrames (runTask pg d r1 r2 tk (st a)) = latFrames (st a)).
      apply latFrames_runTask. intros ->. discriminate.
    + change (text (runTask pg d r1 r2 tk (st a)) StatLatency
              = text (st a) StatLatency).
      apply text_runTask. destruct tk; reflexivity.
  - unfold letterOk in *. destruct (arcRank p <? 7)%nat eqn:R.
    + assert (Hs' : settled (st a) = false).
      { rewrite Hs. apply Nat.ltb_lt in R. apply Nat.leb_gt. exact R. }
      assert (Hno : forall k, k = AddRomantic \/ k = ActivateLetter -> tk <> k).
      { intros k Hk ->. destruct (letter_stage g a k Hg Hk) as [Hset _].
        pose proof (pop_pend_self _ _ _ _ Hpop) as Hne.
        specialize (Hset Hne). congruence. }
      change (classes (runTask pg d r1 r2 tk (st a)) Body RomanticPhase = false /\
              classes (runTask pg d r1 r2 tk (st a)) LetterPhase Active = false).
      pose proof (Hno AddRomantic (or_introl eq_refl)) as N1.
      pose proof (Hno ActivateLetter (or_intror eq_refl)) as N2.
      rewrite !classes_runTask
        by (destruct tk; try congruence; reflexivity).
      exact Hlet.
    + destruct Hlet as [Hr Hl]. split.
      * apply (setAt_fire g); auto. left; auto.
      * apply (setAt_fire g); auto. right; auto.
Qed.

Lemma arc_user (g : Stage) (d tb : Z) (u : UserEvent) (p : ArcStep) (a : Sys) :
  settledTurn a -> inStage g a -> ArcAt pg tb p a -> 0 <= d ->
  ArcAt pg tb p (flush (clock a + d) (timers a) (runUser pg (clock a + d) u (st a))).
Proof.
  intros [Hout _] Hg (Hp & Hok & Hclk & Hlat & Hlet) Hd.
  assert (Hb : globeBuilt (st a) = true) by apply Hok.
  destruct (built_stage g a Hg Hb) as [_ Hnc].
  set (now := clock a + d) in *.
  assert (Hsame : u = ClickBegin -> runUser pg now u (st a) = st a).
  { intros ->. cbn [runUser]. now rewrite Hnc. }
  split; [|split; [|split; [|split]]].
  - intros k Hk. rewrite pend_flush_all.
    assert (E : pend k (outbox (runUser pg now u (st a))) = []).
    { destruct u; try (rewrite Hsame by reflexivity; now rewrite Hout);
        rewrite pend_runUser, Hout by (destruct k; try discriminate Hk; reflexivity);
        reflexivity. }
    rewrite E, app_nil_r. now apply Hp.
  - change (arcView (st (flush now (timers a) (runUser pg now u (st a)))))
      with (arcView (runUser pg now u (st a))).
    destruct u; try (rewrite Hsame by reflexivity; exact Hok);
      rewrite arcView_runUser by discriminate; exact Hok.
  - change (tb + arcSince p <= now). subst now. lia.
  - assert (Hkeep : u <> NextFrame ->
              latOk pg p tb (flush now (timers a) (runUser pg now u (st a)))).
    { intros N. apply (latOk_later p tb a);
        [| |cbn [flush clock]; subst now; lia|exact Hlat].
      - change (latFrames (runUser pg now u (st a)) = latFrames (st a)).
        now apply latFrames_runUser.
      - change (text (runUser pg now u (st a)) StatLatency = text (st a) StatLatency).
        apply text_runUser. destruct u; try congruence; reflexivity. }
    destruct u; try (apply Hkeep; discriminate). clear Hkeep.
    unfold latOk in *.
    change (latFrames (st (flush now (timers a) (runUser pg now NextFrame (st a)))))
      with (latFrames (animationFrame now (st a))).
    change (text (st (flush now (timers a) (runUser pg now NextFrame (st a)))))
      with (text (animationFrame now (st a))).
    change (clock (flush now (timers a) (runUser pg now NextFrame (st a))))
      with now.
    destruct (arcRank p <? 3)%nat eqn:R.
    + destruct Hlat as [Hf Ht].
      destruct (latFrames_animation_none now _ Hf) as [E1 E2].
      now rewrite E1, E2.
    + assert (Hstart : tb + arcDue StartArc <= clock a).
      { apply Nat.ltb_ge in R. destruct p; cbn in R; try lia; cbn in Hclk |- *;
          arc_lia. }
      destruct Hlat as [[Hf _]|[Hf Ht]].
      * destruct (latFrames_animation_one now _ _ Hf) as [E1 E2].
        rewrite E1, E2.
        destruct (Qlt_le_dec _ _) as [Hlt|Hge].
        -- left. split; [reflexivity|]. right. exists now.
           split; [subst now; lia|reflexivity].
        -- right. split; [reflexivity|]. now rewrite latency_done.
      * destruct (latFrames_animation_none now _ Hf) as [E1 E2].
        right. now rewrite E1, E2.
  - unfold letterOk in *. destruct (arcRank p <? 7)%nat.
    + change (classes (runUser pg now u (st a)) Body RomanticPhase = false /\
              classes (runUser pg now u (st a)) LetterPhase Active = false).
      rewrite !classes_runUser by (destruct u; reflexivity). exact Hlet.
    + destruct Hlet as [Hr Hl]. split.
      * apply setAt_user; auto. left; auto.
      * apply setAt_user; auto. right; auto.
Qed.

(** *** Before the globe is built *)

Lemma noglobe_fire (g : Stage) (r1 r2 : Q) (d : Z) (tk : Task)
  (rest : list (Z * Task)) (a : Sys) :
  settledTurn a -> inStage g a -> NoGlobe pg a ->
  popMin (timers a) = Some ((d, tk), rest) -> clock a <= d ->
  ArcInv pg (flush d rest (runTask pg d r1 r2 tk (st a))).
Proof.
  intros [Hout _] Hg (Hp & Hok & Hfr & Htx & Hlet) Hpop Hc.
  pose proof (pop_pend_self _ _ _ _ Hpop) as Hself.
  destruct (arcTask tk) eqn:Ht; [now rewrite (Hp tk Ht) in Hself|].
  assert (Hrest : forall k, arcTask k = true -> pend k rest = []).
  { intros k Hk. rewrite (pop_pend_other _ _ _ _ k Hpop); [now apply Hp|].
    apply Task_beq_neq. intros ->. congruence. }
  destruct (Task_beq tk WaitForGlobe) eqn:B.
  - apply internal_Task_dec_bl in B. subst tk.
    destruct (polling_stage g a Hg Hself) as (Hs & Hcon & Hnc).
    specialize (Hlet Hs). destruct Hlet as [Hrom Hltr].
    open_view Hok.
    destruct Hok as (H1 & H3 & H5 & H6 & H7 & H8 & H9 & _ & Hload & _).
    destruct (Hload Hcon) as (_ & Hop & Hdi). clear Hload.
    cbn [runTask]. unfold waitForGlobe.
    destruct (globeLoaded (st a)) eqn:Hgl;
      [|destruct (waitAttempts (st a) <? 50)%nat eqn:Hat].
    + right. exists d, ABuilt. split; [|split; [|split; [|split]]].
      * intros k Hk. rewrite pend_flush_all, (Hrest k Hk), arc_pend_built by exact Hk.
        unfold buildGlobe. cbn. rewrite Hout.
        destruct k; try discriminate Hk; reflexivity.
      * open_view_goal. unfold buildGlobe. cbn.
        repeat split; auto.
      * cbn. lia.
      * unfold latOk. cbn [arcRank Nat.ltb Nat.leb]. auto.
      * unfold letterOk. cbn [arcRank Nat.ltb Nat.leb]. auto.
    + left. split; [|split; [|split; [|split]]].
      * intros k Hk. rewrite pend_flush_all, (Hrest k Hk). cbn. rewrite Hout.
        destruct k; try discriminate Hk; reflexivity.
      * open_view_goal. cbn. repeat split; auto; congruence.
      * exact Hfr.
      * exact Htx.
      * auto.
    + left. unfold resolve.
      assert (Hs' : settled
                      (if hasLoading pg
                       then setStyle GlobeLoading Display (css "none")
                              (consoleWarn giveUpWarning (st a))
                       else consoleWarn giveUpWarning (st a)) = false)
        by (destruct (hasLoading pg); exact Hs).
      rewrite Hs'.
      split; [|split; [|split; [|split]]].
      * intros k Hk. rewrite pend_flush_all, (Hrest k Hk).
        destruct (hasLoading pg); cbn; rewrite Hout;
          destruct k; try discriminate Hk; reflexivity.
      * open_view_goal. destruct (hasLoading pg) eqn:L; cbn; rewrite Hcon;
          repeat split; auto; try discriminate; try congruence;
          intros E; discriminate E.
      * destruct (hasLoading pg); exact Hfr.
      * destruct (hasLoading pg); exact Htx.
      * destruct (hasLoading pg); cbn; discriminate.
  - assert (N : tk <> WaitForGlobe).
    { intros ->. rewrite Task_beq_refl in B. discriminate. }
    left. split; [|split; [|split; [|split]]].
    + intros k Hk. rewrite pend_flush_all, (Hrest k Hk).
      rewrite pend_runTask, Hout
        by (destruct tk; try congruence; try discriminate Ht;
            destruct k; try discriminate Hk; reflexivity).
      reflexivity.
    + change (arcView (st (flush d rest (runTask pg d r1 r2 tk (st a)))))
        with (arcView (runTask pg d r1 r2 tk (st a))).
      now rewrite arcView_runTask.
    + change (latFrames (runTask pg d r1 r2 tk (st a)) = []).
      rewrite latFrames_runTask; [exact Hfr|]. intros ->. discriminate.
    + change (text (runTask pg d r1 r2 tk (st a)) StatLatency
              = markupText pg StatLatency).
      rewrite text_runTask; [exact Htx|]. destruct tk; reflexivity.
    + change (settled (runTask pg d r1 r2 tk (st a)) = false ->
              classes (runTask pg d r1 r2 tk (st a)) Body RomanticPhase = false /\
              classes (runTask pg d r1 r2 tk (st a)) LetterPhase Active = false).
      assert (Hse : settled (runTask pg d r1 r2 tk (st a)) = settled (st a)).
      { change (avSettled (arcView (runTask pg d r1 r2 tk (st a)))
                = avSettled (arcView (st a))).
        now rewrite arcView_runTask. }
      rewrite Hse. intros Hs.
      assert (Hno : forall k, k = AddRomantic \/ k = ActivateLetter -> tk <> k).
      { intros k Hk ->. destruct (letter_stage g a k Hg Hk) as [Hset _].
        specialize (Hset Hself). congruence. }
      pose proof (Hno AddRomantic (or_introl eq_refl)) as N1.
      pose proof (Hno ActivateLetter (or_intror eq_refl)) as N2.
      rewrite !classes_runTask by (destruct tk; try congruence; reflexivity).
      auto.
Qed.

Lemma noglobe_user (g : Stage) (d : Z) (u : UserEvent) (a : Sys) :
  settledTurn a -> inStage g a -> NoGlobe pg a -> 0 <= d ->
  ArcInv pg (flush (clock a + d) (timers a) (runUser pg (clock a + d) u (st a))).
Proof.
  intros [Hout _] Hg (Hp & Hok & Hfr & Htx & Hlet) Hd.
  set (now := clock a + d) in *.
  assert (Hkeep : runUser pg now u (st a) = st a \/ u <> ClickBegin ->
            NoGlobe pg (flush now (timers a) (runUser pg now u (st a)))).
  { intros Hu.
    assert (Hv : arcView (runUser pg now u (st a)) = arcView (st a)).
    { destruct Hu as [->|N]; [reflexivity|now apply arcView_runUser]. }
    split; [|split; [|split; [|split]]].
    - intros k Hk. rewrite pend_flush_all, (Hp k Hk).
      destruct Hu as [->|N]; [now rewrite Hout|].
      rewrite pend_runUser, Hout
        by (destruct u; try congruence; destruct k; try discriminate Hk;
            reflexivity).
      reflexivity.
    - change (arcView (st (flush now (timers a) (runUser pg now u (st a)))))
        with (arcView (runUser pg now u (st a))).
      now rewrite Hv.
    - change (latFrames (runUser pg now u (st a)) = []).
      destruct Hu as [->|N]; [exact Hfr|].
      destruct u; try congruence;
        try (rewrite latFrames_runUser by discriminate; exact Hfr).
      cbn [runUser]. now apply latFrames_animation_none.
    - change (text (runUser pg now u (st a)) StatLatency = markupText pg StatLatency).
      destruct Hu as [->|N]; [exact Htx|].
      destruct u; try congruence;
        try (rewrite text_runUser by reflexivity; exact Htx).
      cbn [runUser].
      destruct (latFrames_animation_none now _ Hfr) as [_ E]. now rewrite E.
    - change (settled (runUser pg now u (st a)) = false ->
              classes (runUser pg now u (st a)) Body RomanticPhase = false /\
              classes (runUser pg now u (st a)) LetterPhase Active = false).
      change (settled (runUser pg now u (st a)))
        with (avSettled (arcView (runUser pg now u (st a)))).
      rewrite Hv. destruct Hu as [->|N]; [exact Hlet|].
      rewrite !classes_runUser by (destruct u; reflexivity). exact Hlet. }
  destruct u; try (left; apply Hkeep; right; discriminate).
  destruct (beginClickable (st a)) eqn:Hc;
    [|left; apply Hkeep; left; cbn [runUser]; now rewrite Hc].
  clear Hkeep.
  destruct (clickable_stage g a Hg Hc) as [Hcon _].
  open_view Hok.
  destruct Hok as (H1 & H3 & H5 & H6 & H7 & H8 & H9 & _ & Hload & _).
  destruct (Hload Hcon) as (Hs & Hop & Hdi). clear Hload.
  destruct (Hlet Hs) as [Hrom Hltr].
  assert (Hfr' : forall s', frames s' = frames (st a) ->
                            latFrames (cancelDraw s') = []).
  { intros s' E. rewrite latFrames_cancel. unfold latFrames. rewrite E. exact Hfr. }
  cbn [runUser]. rewrite Hc.
  unfold handleBegin, initGlobe, waitForGlobe, transitionToGlobe.
  destruct (globeLoaded (st a)) eqn:Hgl.
  - right. exists now, ABuilt.
    split; [|split; [|split; [|split]]].
    + intros k Hk. rewrite pend_flush_all, (Hp k Hk), arc_pend_built by exact Hk.
      unfold buildGlobe.
      destruct (hasCanvas pg); cbn; rewrite Hgl; cbn; rewrite Hout;
        destruct k; try discriminate Hk; reflexivity.
    + open_view_goal. unfold buildGlobe.
      destruct (hasCanvas pg); cbn; rewrite Hgl; cbn; repeat split; auto.
    + cbn. lia.
    + unfold latOk. cbn [arcRank Nat.ltb Nat.leb].
      destruct (hasCanvas pg); cbn; rewrite Hgl; cbn; split; auto.
      apply (Hfr' (st a)). reflexivity.
    + unfold letterOk. cbn [arcRank Nat.ltb Nat.leb].
      destruct (hasCanvas pg); cbn; rewrite Hgl; cbn; auto.
  - left. split; [|split; [|split; [|split]]].
    + intros k Hk. rewrite pend_flush_all, (Hp k Hk).
      destruct (hasCanvas pg); cbn; rewrite Hgl; cbn; rewrite Hout;
        destruct k; try discriminate Hk; reflexivity.
    + open_view_goal.
      destruct (hasCanvas pg); cbn; rewrite Hgl; cbn; rewrite Hcon;
        repeat split; auto; congruence.
    + destruct (hasCanvas pg); cbn; rewrite Hgl; cbn; auto.
      apply (Hfr' (st a)). reflexivity.
    + destruct (hasCanvas pg); cbn; rewrite Hgl; cbn; auto.
    + destruct (hasCanvas pg); cbn; rewrite Hgl; cbn; auto.
Qed.

Lemma arcInv_step (e : Event) (g : Stage) (a b : Sys) :
  settledTurn a -> inStage g a -> ArcInv pg a -> step pg e a = Some b ->
  ArcInv pg b.
Proof.
  intros Ha Hg Hinv Hs.
  destruct (step_cases pg e a b Ha Hs)
    as [(r1 & r2 & d & tk & rest & -> & Hpop & Hc & ->)|(d & u & -> & Hd & ->)];
    destruct Hinv as [Hn|(tb & p & Hat)].
  - now apply (noglobe_fire g).
  - right. exists tb. destruct (arcTask tk) eqn:Ht.
    + now apply (arc_fire_arc r1 r2 d tb tk rest p a).
    + exists p. now apply (arc_fire_other g).
  - now apply (noglobe_user g).
  - right. exists tb, p. now apply (arc_user g).
Qed.

Lemma start_keeps (P : State -> Prop) :
  (forall k d s, P s -> P (setTimeout k d s)) ->
  (forall s, P s -> P (requestAnimationFrame Draw s)) ->
  (forall v s, P s -> P (setStyle Body Overflow v s)) ->
  (forall s, P s -> P (set_outbox [] s)) ->
  P (markup pg) -> P (st (start pg)).
Proof.
  intros H1 H2 H3 H4 H0. unfold start, init, animateTerminal, initStarfield.
  cbn [flush st]. apply H4, H1.
  apply init_animateLines; [intros; now apply H1|].
  destruct (hasCanvas pg); [apply H2|]; now apply H3.
Qed.

Lemma arcInv_start : ArcInv pg (start pg).
Proof.
  left. split; [|split; [|split; [|split]]].
  - intros k Hk. apply pend_start; intros; intros ->; discriminate Hk.
  - open_view_goal.
    rewrite !classes_start, !text_start.
    assert (Hc : console (st (start pg)) = [])
      by (apply (start_keeps (fun s => console s = [])); auto).
    rewrite Hc.
    repeat split; try reflexivity; auto; try congruence.
    + apply (start_keeps (fun s => globeBuilt s = false)); auto.
    + apply (start_keeps (fun s => arcStarted s = false)); auto.
    + apply (start_keeps (fun s => settled s = false)); auto.
    + apply (start_keeps (fun s => style s GlobeLoading Opacity = Css EmptyString));
        auto.
    + apply (start_keeps (fun s => style s GlobeLoading Display = Css EmptyString));
        auto.
  - apply (start_keeps (fun s => latFrames s = [])); auto.
    intros s H. unfold latFrames in *. cbn. rewrite filter_app, H.
    reflexivity.
  - apply text_start.
  - intros _. rewrite !classes_start. split; reflexivity.
Qed.

Lemma reachable_arcInv (tr : list Event) (y : Sys) :
  run pg tr (start pg) = Some y ->
  settledTurn y /\ (exists g, inStage g y) /\ ArcInv pg y.
Proof.
  intros H.
  apply (run_invariant pg
           (fun y => settledTurn y /\ (exists g, inStage g y) /\ ArcInv pg y)
           tr (start pg) y); [| |exact H].
  - intros e a b (Ha & [g Hg] & Hinv) Hs.
    split; [eapply step_settled; eauto|]. split.
    + destruct (stage_step pg e g a b Ha Hg Hs) as (g' & Hg' & _). now exists g'.
    + now apply (arcInv_step e g a b).
  - split; [apply start_settled|]. split; [|apply arcInv_start].
    exists Idle. apply start_idle.
Qed.

Lemma built_arcAt (tr : list Event) (y : Sys) :
  run pg tr (start pg) = Some y -> globeBuilt (st y) = true ->
  exists tb p, ArcAt pg tb p y.
Proof.
  intros H Hb. destruct (reachable_arcInv tr y H) as (_ & _ & [Hn|Hat]); [|exact Hat].
  destruct Hn as (_ & Hok & _). open_view Hok. destruct Hok as [Hf _]. congruence.
Qed.

(** *** The sequence, step by step *)

Lemma done_rank (p : ArcStep) (k : Task) (s : State) :
  arcOk pg p (arcView s) -> arcTask k = true ->
  (needsLoading k = true -> hasLoading pg = true) ->
  (arcDone k s <-> (arcReach k <= arcRank p)%nat).
Proof.
  intros Hok Hk Hl. open_view Hok.
  destruct Hok as (H1 & H2 & H3 & H4 & H5 & H6 & H7 & H8 & H9 & H10).
  destruct k; try discriminate Hk; cbn [arcDone arcReach needsLoading] in *;
    try (destruct (H10 (Hl eq_refl)) as [H11 H12]; clear H10);
    destruct p; cbn [arcRank Nat.leb Nat.eqb] in *;
    rewrite ?H4, ?H5, ?H6, ?H7, ?H8, ?H11, ?H12;
    split; intros H; try lia; try reflexivity; try discriminate H;
    try (destruct H; discriminate); auto.
Qed.

Lemma rank_since (p : ArcStep) (k : Task) :
  arcTask k = true -> (arcReach k <= arcRank p)%nat -> arcDue k <= arcSince p.
Proof.
  intros Hk. destruct k; try discriminate Hk; destruct p; cbn; intros H;
    try lia; arc_lia.
Qed.

Lemma next_due (l : bool) (p : ArcStep) (k : Task) :
  arcTask k = true -> (needsLoading k = true -> l = true) ->
  (arcRank p < arcReach k)%nat ->
  exists k', arcTask k' = true /\ arcWaits l p k' = true /\ arcDue k' <= arcDue k.
Proof.
  intros Hk Hl H.
  destruct k; try discriminate Hk; destruct p; cbn in H; try lia;
    destruct l; try (specialize (Hl eq_refl); discriminate Hl); clear Hl H Hk;
    first [ exists FadeLoading; split; [reflexivity|split; [reflexivity|cbn; arc_lia]]
          | exists HideLoading; split; [reflexivity|split; [reflexivity|cbn; arc_lia]]
          | exists StartArc; split; [reflexivity|split; [reflexivity|cbn; arc_lia]]
          | exists MarkArriving; split; [reflexivity|split; [reflexivity|cbn; arc_lia]]
          | exists MarkDelivered; split; [reflexivity|split; [reflexivity|cbn; arc_lia]]
          | exists ShowEstablished; split; [reflexivity|split; [reflexivity|cbn; arc_lia]]
          | exists ResolveArc; split; [reflexivity|split; [reflexivity|cbn; arc_lia]] ].
Qed.

Lemma pending_bounds_clock (p : ArcStep) (tb : Z) (k : Task) (y : Sys) :
  settledTurn y -> ArcAt pg tb p y -> arcTask k = true ->
  arcWaits (hasLoading pg) p k = true -> clock y <= tb + arcDue k.
Proof.
  intros [_ Hdue] (Hp & _) Hk Hw.
  assert (Hin : In (tb + arcDue k, k) (timers y)).
  { apply pend_in. rewrite (Hp k Hk). unfold arcPend. rewrite Hw. apply in_eq. }
  rewrite Forall_forall in Hdue. exact (Hdue _ Hin).
Qed.

Lemma arc_on_schedule (p : ArcStep) (tb : Z) (k : Task) (y : Sys) :
  settledTurn y -> ArcAt pg tb p y -> seqTask k = true ->
  (needsLoading k = true -> hasLoading pg = true) ->
  (arcDone k (st y) -> tb + seqDue k <= clock y) /\
  (tb + seqDue k < clock y -> arcDone k (st y)).
Proof.
  intros Hy Hat Hk Hl.
  assert (Hearly : forall k', arcTask k' = true ->
            (needsLoading k' = true -> hasLoading pg = true) ->
            (arcRank p < arcReach k')%nat -> clock y <= tb + arcDue k').
  { intros k' Hk' Hl' Hlt.
    destruct (next_due (hasLoading pg) p k' Hk' Hl' Hlt) as (k2 & H1 & H2 & H3).
    pose proof (pending_bounds_clock p tb k2 y Hy Hat H1 H2). lia. }
  destruct Hat as (Hp & Hok & Hclk & _ & Hlet).
  destruct (arcTask k) eqn:Ha.
  - assert (E : seqDue k = arcDue k) by (destruct k; try discriminate Ha; reflexivity).
    rewrite E. pose proof (done_rank p k (st y) Hok Ha Hl) as Hiff. split.
    + intros Hd. apply Hiff in Hd. pose proof (rank_since p k Ha Hd). lia.
    + intros Hlt. apply Hiff.
      destruct (Nat.le_gt_cases (arcReach k) (arcRank p)) as [Hle|Hgt]; [exact Hle|].
      pose proof (Hearly k Ha Hl Hgt). lia.
  - unfold letterOk in Hlet. destruct (arcRank p <? 7)%nat eqn:R.
    + apply Nat.ltb_lt in R.
      pose proof (Hearly ResolveArc eq_refl ltac:(discriminate) R) as Hres.
      destruct Hlet as [Hr Hlt].
      destruct k; try discriminate Hk; try discriminate Ha;
        cbn [arcDone seqDue]; (split; [congruence|lia]).
    + destruct Hlet as [Hr Hlt]. unfold setAt in *.
      pose proof Hy as [_ Hdue]. rewrite Forall_forall in Hdue.
      destruct k; try discriminate Hk; try discriminate Ha; cbn [arcDone seqDue].
      * destruct Hr as [[H1 H2]|[H1 H2]]; [split; [lia|auto]|].
        specialize (Hdue _ H2). cbn [fst] in Hdue. split; [congruence|lia].
      * destruct Hlt as [[H1 H2]|[H1 H2]]; [split; [lia|auto]|].
        specialize (Hdue _ H2). cbn [fst] in Hdue. split; [congruence|lia].
Qed.

End GlobeSequence.








